(** * NomadAI backend: expiring cache and itinerary generation pipeline

    A shallow embedding of
    - [backend/models/travel.py]        (module [Travel]),
    - [backend/services/cache_service.py] (module [Cache]),
    - [backend/services/llm_service.py]   (module [LLM]),
    - [backend/routers/travel.py]         (module [Router]),
    preceded by the Python primitives these files rely on (modules [Py]
    and [PyKeys]), and followed by the properties proved about them.

    Conventions of the embedding.
    - A Python [str] is a list of characters [list ascii]; characters are the
      256 code points of Latin-1.  Literals are written with [$"..."].
    - A Python [int] is a [Z]; a Python [float] is a binary64 [float]
      (primitive floats), the clock readings of [time.time()] included.
    - A value of unknown type, such as a field of a raw record of the
      Amadeus adapter, is a [pyval].
    - A Python exception is a value of [exn]; code that can raise returns
      [exc A = exn + A].
    - The external collaborators (Amadeus and Google Places adapters, the
      OpenAI client, [json], [uuid], the validation of pydantic) are
      parameters; a call to one of them returns or raises. *)

From Stdlib Require Import ZArith QArith String Ascii List Floats Lia Lqa.
From stdpp Require Import gmap strings list sorting.

Local Open Scope Z_scope.

(* ===================================================================== *)
(** ** Python primitives *)
(* ===================================================================== *)

Module Py.

(** [str]: a sequence of characters. *)
Abbreviation str := (list ascii).

Definition lit (s : string) : str := list_ascii_of_string s.
Notation "$ s" := (lit s%string) (at level 1, format "$ s").
#[global] Arguments lit : simpl never.

(** Exceptions raised by the modelled code. *)
Inductive exn : Type :=
  | HTTPException (status_code : Z) (detail : str)
  | IndexError
  | KeyError
  | ValueError
  | AttributeError
  | TypeError
  | OverflowError
  | ValidationError
  | ClientError (msg : str).

Definition exc (A : Type) : Type := exn + A.

Definition ret {A} (x : A) : exc A := inr x.
Definition raise {A} (e : exn) : exc A := inl e.
Definition bind {A B} (m : exc A) (k : A -> exc B) : exc B :=
  match m with
  | inl e => inl e
  | inr x => k x
  end.

Notation "'do' x <- m ; k" := (bind m (fun x => k))
  (at level 10, x name, m at level 100, k at level 200).

(** [l[i]] for a non-negative literal index. *)
Definition item {A} (l : list A) (i : nat) : exc A :=
  match l !! i with
  | Some x => ret x
  | None => raise IndexError
  end.

(** *** Searching *)

(** [s.startswith(p)] *)
Fixpoint startswith (p s : str) : bool :=
  match p, s with
  | [], _ => true
  | _ :: _, [] => false
  | a :: p', b :: s' => if Ascii.eqb a b then startswith p' s' else false
  end.

(** The lowest index at which [sub] occurs in [s], if any. *)
Fixpoint index_of (sub s : str) : option nat :=
  if startswith sub s then Some 0%nat
  else match s with
       | [] => None
       | _ :: s' => S <$> index_of sub s'
       end.

(** [s.find(sub)]: the lowest index, or -1. *)
Definition find (sub s : str) : Z :=
  match index_of sub s with
  | Some i => Z.of_nat i
  | None => -1
  end.

(** [sub in s] *)
Definition contains (sub s : str) : bool :=
  match index_of sub s with
  | Some _ => true
  | None => false
  end.

(** [s.split(sep, 1)] for a non-empty separator: one or two parts. *)
Definition split1 (sep s : str) : list str :=
  match index_of sep s with
  | Some i => [take i s; drop (i + length sep) s]
  | None => [s]
  end.

(** [s[:i]]; a negative bound counts from the end. *)
Definition slice_to (s : str) (i : Z) : str :=
  if 0 <=? i then take (Z.to_nat i) s
  else take (Z.to_nat (Z.of_nat (length s) + i)) s.

(** [s.replace(old, new)]: every non-overlapping occurrence, left to right.
    [skip] counts the characters of a matched occurrence still to pass. *)
Fixpoint replace_from (old new : str) (skip : nat) (s : str) : str :=
  match s with
  | [] => []
  | c :: s' =>
      match skip with
      | S k => replace_from old new k s'
      | O => if startswith old s
             then new ++ replace_from old new (length old - 1) s'
             else c :: replace_from old new 0 s'
      end
  end.

Definition replace (old new s : str) : str :=
  match old with
  | [] => new ++ concat (map (fun c => c :: new) s)
  | _ :: _ => replace_from old new 0 s
  end.

(** *** Character classes *)

Definition code (c : ascii) : N := N_of_ascii c.

(** [c.isspace()], also [\s] of [re], on Latin-1. *)
Definition isspace (c : ascii) : bool :=
  let n := code c in
  (((9 <=? n) && (n <=? 13)) || ((28 <=? n) && (n <=? 32))
   || (n =? 133) || (n =? 160))%N.

(** [\d] of [re] on Latin-1. *)
Definition isdigit (c : ascii) : bool :=
  let n := code c in ((48 <=? n) && (n <=? 57))%N.

Fixpoint lstrip (s : str) : str :=
  match s with
  | [] => []
  | c :: s' => if isspace c then lstrip s' else s
  end.

(** [s.strip()] *)
Definition strip (s : str) : str := rev (lstrip (rev (lstrip s))).

(** The longest prefix of characters in the class, and the rest. *)
Fixpoint span (p : ascii -> bool) (s : str) : str * str :=
  match s with
  | [] => ([], [])
  | c :: s' => if p c then let '(a, b) := span p s' in (c :: a, b)
               else ([], s)
  end.

(** *** Integers as text *)

Definition digit_char (d : Z) : ascii := ascii_of_N (Z.to_N (48 + d)).

(** Decimal digits of a positive number, most significant first.  The
    number has at most [fuel] digits. *)
Fixpoint digits_of (fuel : nat) (n : Z) (acc : str) : str :=
  match fuel with
  | O => acc
  | S f => let acc' := digit_char (n mod 10) :: acc in
           if n <? 10 then acc' else digits_of f (n / 10) acc'
  end.

Definition str_nonneg (n : Z) : str := digits_of (S (Z.to_nat (Z.log2 n))) n [].

(** [str(n)] for an [int]. *)
Definition str_int (n : Z) : str :=
  if n <? 0 then $"-" ++ str_nonneg (- n) else str_nonneg n.

(** The value of a string of decimal digits. *)
Definition digit_val (c : ascii) : Z := Z.of_N (code c) - 48.

Definition int_of_digits (s : str) : Z :=
  fold_left (fun acc c => 10 * acc + digit_val c) s 0.

(** *** Floats as text *)

Definition float_of_Z (n : Z) : spec_float :=
  match n with
  | Z0 => S754_zero false
  | Zpos p => S754_finite false p 0
  | Zneg p => S754_finite true p 0
  end.

(** The binary64 number nearest to [n / 10^k] (ties to even). *)
Definition decimal_to_float (n : Z) (k : nat) : float :=
  SF2Prim (SFdiv prec emax (float_of_Z n) (float_of_Z (10 ^ Z.of_nat k))).

(** [float(s)] on unsigned decimal text: digits with an optional fraction
    and at least one digit.  These are the only strings that reach [float]
    here (a match of [[\d,]+(\.\d+)?] with the commas removed); the other
    spellings Python accepts (signs, exponents, [inf], [nan], blanks,
    underscores) are outside this domain and reported as [ValueError]. *)
Definition py_float (s : str) : exc float :=
  let '(ip, rest) := span isdigit s in
  match rest with
  | [] =>
      if decide (ip = []) then raise ValueError
      else ret (decimal_to_float (int_of_digits ip) 0)
  | c :: rest' =>
      if Ascii.eqb c "."%char then
        let '(fp, rest'') := span isdigit rest' in
        match rest'' with
        | [] =>
            if decide (ip ++ fp = []) then raise ValueError
            else ret (decimal_to_float (int_of_digits (ip ++ fp)) (length fp))
        | _ :: _ => raise ValueError
        end
      else raise ValueError
  end.

(** Round [num / den] to the nearest integer, ties to even ([den > 0]). *)
Definition round_half_even (num den : Z) : Z :=
  let q := num / den in
  let r := num mod den in
  if 2 * r <? den then q
  else if den <? 2 * r then q + 1
  else if Z.even q then q else q + 1.

Definition pad2 (n : Z) : str := [digit_char (n / 10); digit_char (n mod 10)].

(** [f"{x:.2f}"] *)
Definition format_2f (x : float) : str :=
  match Prim2SF x with
  | S754_nan => $"nan"
  | S754_infinity s => if s then $"-inf" else $"inf"
  | S754_zero s => (if s then $"-" else []) ++ $"0.00"
  | S754_finite s m e =>
      let cents :=
        if 0 <=? e then Zpos m * 2 ^ e * 100
        else round_half_even (Zpos m * 100) (2 ^ (- e)) in
      (if s then $"-" else []) ++ str_nonneg (cents / 100) ++ $"." ++ pad2 (cents mod 100)
  end.

(** *** Numbers

    [float(n)] for an [int], also the conversion of the [int] operand of
    [x + n] for a [float] [x]: the nearest binary64 number (ties to even),
    and [OverflowError] when that is beyond the largest one. *)
Definition float_of_int (n : Z) : exc float :=
  let x := decimal_to_float n 0 in
  if is_infinity x then raise OverflowError else ret x.

(** *** Values of unknown type

    The values JSON text decodes to: what a raw record of an adapter is
    made of.  A [dict] is given by its items, with [str] keys. *)
#[local] Set Warnings "-register-all".

Inductive pyval : Type :=
  | PNone
  | PBool (b : bool)
  | PInt (n : Z)
  | PFloat (x : float)
  | PStr (s : str)
  | PList (l : list pyval)
  | PDict (items : list (str * pyval)).

(** The value of the first item with the key. *)
Fixpoint lookup_item (key : str) (items : list (str * pyval)) : option pyval :=
  match items with
  | [] => None
  | (k, v) :: items' =>
      if bool_decide (k = key) then Some v else lookup_item key items'
  end.

(** [v.get(key, default)]: only a [dict] has the method. *)
Definition py_get (v : pyval) (key : str) (default : pyval) : exc pyval :=
  match v with
  | PDict items =>
      ret (match lookup_item key items with
           | Some x => x
           | None => default
           end)
  | _ => raise AttributeError
  end.

(** [v[0]] *)
Definition py_getitem0 (v : pyval) : exc pyval :=
  match v with
  | PList l => item l 0
  | PStr s =>
      match s with
      | c :: _ => ret (PStr [c])
      | [] => raise IndexError
      end
  | PDict _ => raise KeyError
  | _ => raise TypeError
  end.

(** [float(v)]; [float_of_str] is the conversion of a [str], with every
    spelling Python accepts. *)
Definition py_float_of (float_of_str : str -> exc float) (v : pyval)
  : exc float :=
  match v with
  | PFloat x => ret x
  | PInt n => float_of_int n
  | PBool b => ret (if b then 1%float else 0%float)
  | PStr s => float_of_str s
  | _ => raise TypeError
  end.

End Py.

Import Py.

(* ===================================================================== *)
(** ** backend/models/travel.py *)
(* ===================================================================== *)

Module Travel.

(** [datetime.date]: a day between 0001-01-01 (ordinal 1) and 9999-12-31
    (ordinal 3652059). *)
Definition ordinal_ok (o : Z) : bool := (1 <=? o) && (o <=? 3652059).

Record date : Type := Date {
  toordinal : Z;
  date_range : Is_true (ordinal_ok toordinal)
}.

(** [(a - b).days] *)
Definition days_between (a b : date) : Z := toordinal a - toordinal b.

(** [d + timedelta(days=n)] *)
Definition date_add (d : date) (n : Z) : exc date :=
  match decide (Is_true (ordinal_ok (toordinal d + n))) with
  | left H => ret (Date (toordinal d + n) H)
  | right _ => raise OverflowError
  end.

Module FlightOption.
Record t : Type := Build {
  airline : str;
  price : float;
  origin : str;
  destination : str;
  depart_date : date;
  return_date : date;
  flight_number : option str;
  departure_time : option str;
  arrival_time : option str
}.
End FlightOption.

Module HotelOption.
Record t : Type := Build {
  name : str;
  price_per_night : float;
  stars : float;
  city : str;
  address : option str;
  hotel_id : option str;
  chain_code : option str;
  distance : option float;
  amenities : option (list str);
  description : option str;
  image_url : option str
}.
End HotelOption.

Module PointOfInterest.
Record t : Type := Build {
  name : str;
  category : str;
  rating : float;
  address : str;
  description : option str;
  price_level : option Z;
  image_url : option str;
  latitude : option float;
  longitude : option float
}.
End PointOfInterest.

Module TravelRequest.
Record t : Type := Build {
  origin : str;
  destination : str;
  depart_date : date;
  return_date : date;
  budget : float;
  preferences : list str
}.

(** The [duration] property: the trip duration in days. *)
Definition duration (self : t) : Z :=
  Z.max 1 (days_between (return_date self) (depart_date self) + 1).
End TravelRequest.

Module ItineraryDayActivity.
Record t : Type := Build {
  day : Z;
  date : Travel.date;
  description : str;
  morning : option str;
  afternoon : option str;
  evening : option str;
  accommodation : option str
}.
End ItineraryDayActivity.

Module AlternativeHotel.
Record t : Type := Build {
  name : str;
  price_per_night : float;
  stars : float;
  description : option str
}.
End AlternativeHotel.

Module Itinerary.
Record t : Type := Build {
  request_id : str;
  travel_request : TravelRequest.t;
  selected_flight : option FlightOption.t;
  selected_hotel : option HotelOption.t;
  alternative_hotels : list AlternativeHotel.t;
  points_of_interest : list PointOfInterest.t;
  daily_plan : list ItineraryDayActivity.t;
  summary : str;
  total_cost : float;
  raw_itinerary : option str;
  map_url : option str
}.
End Itinerary.

End Travel.

(* ===================================================================== *)
(** ** backend/services/cache_service.py *)
(* ===================================================================== *)

Module Cache.

(** One entry of [_cache]: the serialized payload and its absolute expiry. *)
Record entry : Type := Entry {
  value : str;
  expires_at : float
}.

(** [del d[key]] *)
Definition del_item {V} (key : str) (d : gmap str V) : exc (gmap str V) :=
  match d !! key with
  | Some _ => ret (delete key d)
  | None => raise KeyError
  end.

Section CacheService.

(** The values handed to the cache, and what [json] does with them. *)
Variable PyObj : Type.
(** [hasattr(value, '__dict__') or isinstance(value, (list, dict))] *)
Variable has_dict_or_is_collection : PyObj -> bool.
(** [json.dumps(value, default=...)] and [json.dumps(value)] *)
Variable json_dumps_default : PyObj -> exc str.
Variable json_dumps : PyObj -> exc str.
(** [json.dumps(str(value))] *)
Variable json_dumps_str : PyObj -> str.
(** [json.loads(text)] *)
Variable json_loads : str -> exc PyObj.
(** a [str] seen as an object *)
Variable of_str : str -> PyObj.

Definition _serialize (v : PyObj) : str :=
  match (if has_dict_or_is_collection v then json_dumps_default v
         else json_dumps v) with
  | inr s => s
  | inl _ => json_dumps_str v
  end.

Definition _deserialize (serialized_value : str) : PyObj :=
  match json_loads serialized_value with
  | inr v => v
  | inl _ => of_str serialized_value
  end.

(** [_cleanup_expired], run when the clock reads [current_time]. *)
Definition keys_to_remove (cache : gmap str entry) (current_time : float)
  : list str :=
  map fst
    (List.filter (fun item => (expires_at (snd item) <=? current_time)%float)
       (map_to_list cache)).

Fixpoint del_items (keys : list str) (cache : gmap str entry)
  : exc (gmap str entry) :=
  match keys with
  | [] => ret cache
  | key :: keys' => do cache' <- del_item key cache; del_items keys' cache'
  end.

Definition _cleanup_expired (cache : gmap str entry) (current_time : float)
  : exc (gmap str entry) :=
  del_items (keys_to_remove cache current_time) cache.

(** [get], run when the clock reads [now]: the returned value ([None] is
    Python's [None]) and the mapping afterwards. *)
Definition get (cache : gmap str entry) (key : str) (now : float)
  : exc (option PyObj * gmap str entry) :=
  match cache !! key with
  | None => ret (None, cache)
  | Some e =>
      if (expires_at e <=? now)%float then
        do cache' <- del_item key cache;
        ret (None, cache')
      else ret (Some (_deserialize (value e)), cache)
  end.

(** [set], run when the clock reads [now].  The sum [time.time() + expiry]
    is the sum of two binary64 numbers, the [int] being converted first. *)
Definition set (cache : gmap str entry) (key : str) (v : PyObj) (expiry : Z)
    (now : float) : exc (gmap str entry) :=
  do expiry_float <- float_of_int expiry;
  let expires_at := (now + expiry_float)%float in
  let serialized_value := _serialize v in
  ret (<[key := Entry serialized_value expires_at]> cache).

Definition delete (cache : gmap str entry) (key : str) : gmap str entry :=
  match cache !! key with
  | Some _ => base.delete key cache
  | None => cache
  end.

Definition clear (cache : gmap str entry) : gmap str entry := ∅.

End CacheService.

End Cache.

(* ===================================================================== *)
(** ** backend/services/llm_service.py *)
(* ===================================================================== *)

Module LLM.

Import Travel.

(** The line feed. *)
Definition NL : str := ["010"%char].

(** [range(a, b)] *)
Definition range (a b : Z) : list Z := seqZ a (b - a).

(** *** Effects of the pipeline

    What the pipeline does to the outside world is recorded as a log of
    events; a computation takes the log so far and returns its result, or
    the exception it raised, with the extended log. *)

Inductive event : Type :=
  | FlightSearch (origin destination : str)
  | HotelSearch (city : str)
  | PoiSearch (city : str)
  | ModelCall.

Definition M (A : Type) : Type := list event -> exc A * list event.

Definition retM {A} (x : A) : M A := fun log => (ret x, log).
Definition raiseM {A} (e : exn) : M A := fun log => (raise e, log).
Definition bindM {A B} (m : M A) (k : A -> M B) : M B :=
  fun log =>
    match m log with
    | (inl e, log') => (inl e, log')
    | (inr x, log') => k x log'
    end.
Definition lift {A} (m : exc A) : M A := fun log => (m, log).
Definition emit (ev : event) : M unit := fun log => (ret tt, log ++ [ev]).

(** [try: body except Exception as e: handler] *)
Definition try_except {A} (body : M A) (handler : exn -> M A) : M A :=
  fun log =>
    match body log with
    | (inl e, log') => handler e log'
    | (inr x, log') => (inr x, log')
    end.

Notation "'run' x <- m ; k" := (bindM m (fun x => k))
  (at level 10, x name, m at level 100, k at level 200).

(** *** The context handed to the model *)

Record flight_data : Type := {
  fd_airline : str;
  fd_price : float;
  fd_departure_time : option str;
  fd_arrival_time : option str;
  fd_flight_number : option str
}.

Record hotel_data : Type := {
  hd_name : str;
  hd_price_per_night : float;
  hd_stars : float;
  hd_address : option str;
  hd_amenities : option (list str)
}.

Record poi_data : Type := {
  pd_name : str;
  pd_category : str;
  pd_rating : float;
  pd_address : str;
  pd_description : option str;
  pd_price_level : option Z
}.

(** [start_date] and [end_date] are kept as dates: their ISO text is
    produced with the JSON text of the prompt, inside the model call. *)
Record trip_details : Type := {
  td_origin : str;
  td_destination : str;
  td_duration_days : Z;
  td_start_date : date;
  td_end_date : date;
  td_budget : float;
  td_preferences : list str
}.

Record context : Type := {
  ctx_trip_details : trip_details;
  ctx_flights : list flight_data;
  ctx_hotels : list hotel_data;
  ctx_points_of_interest : list poi_data
}.

Definition _prepare_context (travel_request : TravelRequest.t)
    (flights : list FlightOption.t) (hotels : list HotelOption.t)
    (pois : list PointOfInterest.t) : context :=
  let flight_data :=
    map (fun f => {| fd_airline := FlightOption.airline f;
                     fd_price := FlightOption.price f;
                     fd_departure_time := FlightOption.departure_time f;
                     fd_arrival_time := FlightOption.arrival_time f;
                     fd_flight_number := FlightOption.flight_number f |}) flights in
  let hotel_data :=
    map (fun h => {| hd_name := HotelOption.name h;
                     hd_price_per_night := HotelOption.price_per_night h;
                     hd_stars := HotelOption.stars h;
                     hd_address := HotelOption.address h;
                     hd_amenities := HotelOption.amenities h |}) hotels in
  let poi_data :=
    map (fun p => {| pd_name := PointOfInterest.name p;
                     pd_category := PointOfInterest.category p;
                     pd_rating := PointOfInterest.rating p;
                     pd_address := PointOfInterest.address p;
                     pd_description := PointOfInterest.description p;
                     pd_price_level := PointOfInterest.price_level p |}) pois in
  {| ctx_trip_details :=
       {| td_origin := TravelRequest.origin travel_request;
          td_destination := TravelRequest.destination travel_request;
          td_duration_days := TravelRequest.duration travel_request;
          td_start_date := TravelRequest.depart_date travel_request;
          td_end_date := TravelRequest.return_date travel_request;
          td_budget := TravelRequest.budget travel_request;
          td_preferences := TravelRequest.preferences travel_request |};
     ctx_flights := flight_data;
     ctx_hotels := hotel_data;
     ctx_points_of_interest := poi_data |}.

(** *** The fallback itinerary *)

#[local] Set Warnings "-inexact-float".

(** [budget * 0.9] *)
Definition ninety_percent (budget : float) : float := (budget * 0.9)%float.

(** The section the loop of [_generate_fallback_itinerary] adds for a day. *)
Definition fallback_day (day : Z) : str :=
  $"### Day " ++ str_int day ++ NL
  ++ $"- Morning: Breakfast at hotel, explore local area" ++ NL
  ++ $"- Afternoon: Visit main tourist attractions" ++ NL
  ++ $"- Evening: Dinner at local restaurant" ++ NL ++ NL.

Definition _generate_fallback_itinerary (travel_request : TravelRequest.t) : str :=
  let duration := TravelRequest.duration travel_request in
  let destination := TravelRequest.destination travel_request in
  let origin := TravelRequest.origin travel_request in
  let fallback := $"# Trip to " ++ destination ++ NL ++ NL in
  let fallback := fallback ++ $"## Overview" ++ NL in
  let fallback := fallback ++ $"A " ++ str_int duration ++ $"-day trip to "
                    ++ destination ++ $" from " ++ origin ++ $"." ++ NL ++ NL in
  let fallback := fallback ++ $"## Suggested Flight" ++ NL in
  let fallback := fallback ++ $"Economy class flight from " ++ origin ++ $" to "
                    ++ destination ++ $"." ++ NL ++ NL in
  let fallback := fallback ++ $"## Suggested Accommodation" ++ NL in
  let fallback := fallback ++ $"Standard hotel in " ++ destination
                    ++ $" city center." ++ NL ++ NL in
  let fallback := fallback ++ $"## Day-by-Day Itinerary" ++ NL in
  let fallback :=
    fold_left (fun fallback day => fallback ++ fallback_day day)
      (range 1 (duration + 1)) fallback in
  let fallback := fallback ++ $"## Estimated Budget" ++ NL in
  let fallback := fallback ++ $"Total estimated cost: SGD "
                    ++ format_2f (ninety_percent (TravelRequest.budget travel_request))
                    ++ NL in
  fallback.

(** *** Parsing the itinerary text *)

(** The header spellings looked for, for one day. *)
Definition day_markers (day : Z) : list str :=
  [ $"### Day " ++ str_int day;
    $"## Day " ++ str_int day;
    $"Day " ++ str_int day ++ $":";
    $"Day " ++ str_int day ++ $" -" ].

(** [marker_idx < next_day_idx], where [None] is [float('inf')]. *)
Definition lt_idx (marker_idx : Z) (next_day_idx : option Z) : bool :=
  match next_day_idx with
  | None => true
  | Some i => marker_idx <? i
  end.

(** The two loops that look for the header of a later day in [rest]
    (the text after the header of [day]). *)
Definition scan_markers (day next_day : Z) (markers : list str) (rest : str)
    (next_day_idx : option Z) : option Z :=
  fold_left
    (fun next_day_idx next_marker =>
       let next_marker := replace (str_int day) (str_int next_day) next_marker in
       if contains next_marker rest then
         let marker_idx := find next_marker rest in
         if lt_idx marker_idx next_day_idx then Some marker_idx else next_day_idx
       else next_day_idx)
    markers next_day_idx.

Definition scan_next_days (day days : Z) (markers : list str) (rest : str)
    : option Z :=
  fold_left
    (fun next_day_idx next_day => scan_markers day next_day markers rest next_day_idx)
    (range (day + 1) (days + 1)) None.

(** The loop over the markers of [day]; it stops at the first marker found
    in the text.  [markers] is what is left of [day_markers]. *)
Fixpoint find_day_content (itinerary_text : str) (day days : Z)
    (all_markers markers : list str) : exc str :=
  match markers with
  | [] => ret []
  | marker :: markers' =>
      if contains marker itinerary_text then
        let parts := split1 marker itinerary_text in
        if (1 <? length parts)%nat then
          do rest <- item parts 1;
          match scan_next_days day days all_markers rest with
          | Some next_day_idx => ret (slice_to rest next_day_idx)
          | None => ret rest
          end
        else find_day_content itinerary_text day days all_markers markers'
      else find_day_content itinerary_text day days all_markers markers'
  end.

(** The text after [label] up to the end of its line, trimmed. *)
Definition extract_part (label day_content : str) : exc (option str) :=
  if contains label day_content then
    do rest <- item (split1 label day_content) 1;
    do line <- item (split1 NL rest) 0;
    ret (Some (strip line))
  else ret None.

(** One round of the loop over the days: what it appends to [daily_plan]. *)
Definition parse_day (travel_request : TravelRequest.t) (itinerary_text : str)
    (selected_hotel : option HotelOption.t) (days day : Z)
    : exc (list ItineraryDayActivity.t) :=
  let markers := day_markers day in
  do day_content <- find_day_content itinerary_text day days markers markers;
  if decide (day_content = []) then ret []
  else
    do morning <- extract_part $"Morning:" day_content;
    do afternoon <- extract_part $"Afternoon:" day_content;
    do evening <- extract_part $"Evening:" day_content;
    do day_date <-
      (if 1 <? day
       then date_add (TravelRequest.depart_date travel_request) (day - 1)
       else ret (TravelRequest.depart_date travel_request));
    ret [ {| ItineraryDayActivity.day := day;
             ItineraryDayActivity.date := day_date;
             ItineraryDayActivity.description := strip day_content;
             ItineraryDayActivity.morning := morning;
             ItineraryDayActivity.afternoon := afternoon;
             ItineraryDayActivity.evening := evening;
             ItineraryDayActivity.accommodation :=
               match selected_hotel with
               | Some h => Some (HotelOption.name h)
               | None => None
               end |} ].

Fixpoint parse_days (travel_request : TravelRequest.t) (itinerary_text : str)
    (selected_hotel : option HotelOption.t) (days : Z) (todo : list Z)
    (daily_plan : list ItineraryDayActivity.t)
    : exc (list ItineraryDayActivity.t) :=
  match todo with
  | [] => ret daily_plan
  | day :: todo' =>
      do added <- parse_day travel_request itinerary_text selected_hotel days day;
      parse_days travel_request itinerary_text selected_hotel days todo'
        (daily_plan ++ added)
  end.

(** [re.search(r'SGD\s*([\d,]+(\.\d+)?)', s)]: group 1 of the leftmost
    match. *)
Definition is_digit_or_comma (c : ascii) : bool :=
  isdigit c || Ascii.eqb c ","%char.

Definition match_cost_here (s : str) : option str :=
  if startswith $"SGD" s then
    let '(whole, rest) := span is_digit_or_comma (lstrip (drop 3 s)) in
    if decide (whole = []) then None
    else match rest with
         | c :: rest' =>
             let '(frac, _) := span isdigit rest' in
             if Ascii.eqb c "."%char && negb (bool_decide (frac = []))
             then Some (whole ++ c :: frac)
             else Some whole
         | [] => Some whole
         end
  else None.

Fixpoint search_cost (s : str) : option str :=
  match match_cost_here s with
  | Some g => Some g
  | None => match s with
            | [] => None
            | _ :: s' => search_cost s'
            end
  end.

Definition parse_total_cost (travel_request : TravelRequest.t)
    (itinerary_text : str) : exc float :=
  let total_cost := ninety_percent (TravelRequest.budget travel_request) in
  if contains $"Total cost:" itinerary_text || contains $"Total Cost:" itinerary_text
  then
    do cost_text <-
      item (split1 (if contains $"Total cost:" itinerary_text
                    then $"Total cost:" else $"Total Cost:") itinerary_text) 1;
    match search_cost cost_text with
    | Some group1 =>
        match py_float (replace $"," [] group1) with
        | inr v => ret v
        | inl ValueError => ret total_cost
        | inl e => raise e
        end
    | None => ret total_cost
    end
  else ret total_cost.

Definition parse_summary (itinerary_text : str) : exc str :=
  if contains (NL ++ NL) itinerary_text
  then item (split1 (NL ++ NL) itinerary_text) 0
  else ret (take 200 itinerary_text).

(** [request_id] is the text of the identifier drawn by [uuid.uuid4()]. *)
Definition _parse_itinerary (request_id : str) (travel_request : TravelRequest.t)
    (itinerary_text : str) (flights : list FlightOption.t)
    (hotels : list HotelOption.t) (pois : list PointOfInterest.t)
    : exc Itinerary.t :=
  let selected_flight := head flights in
  let selected_hotel := head hotels in
  let days := TravelRequest.duration travel_request in
  do daily_plan <-
    parse_days travel_request itinerary_text selected_hotel days
      (range 1 (days + 1)) [];
  do total_cost <- parse_total_cost travel_request itinerary_text;
  do summary <- parse_summary itinerary_text;
  ret {| Itinerary.request_id := request_id;
         Itinerary.travel_request := travel_request;
         Itinerary.selected_flight := selected_flight;
         Itinerary.selected_hotel := selected_hotel;
         Itinerary.alternative_hotels := [];
         Itinerary.points_of_interest := pois;
         Itinerary.daily_plan := daily_plan;
         Itinerary.summary := summary;
         Itinerary.total_cost := total_cost;
         Itinerary.raw_itinerary := None;
         Itinerary.map_url := None |}.

(** *** The pipeline *)

Section Pipeline.

(** The Amadeus adapter: flight offers, and the raw hotel records of a
    city. *)
Variable get_flight_offers :
  str -> str -> date -> date -> exc (list FlightOption.t).
Variable search_hotels_by_city : str -> exc (list pyval).

(** [float(s)] for a [str]. *)
Variable float_of_str : str -> exc float.

(** [HotelOption(name=, price_per_night=, stars=, address=, amenities=,
    city=)]: the validation of the keyword arguments by pydantic. *)
Variable HotelOption_new :
  pyval -> float -> float -> pyval -> pyval -> str -> exc HotelOption.t.

(** The Google Places adapter. *)
Variable get_points_of_interest :
  str -> list str -> exc (list PointOfInterest.t).

(** The OpenAI client: building the user message from the request and the
    context and calling [chat.completions.create] either raises or
    returns a response, seen as the [message.content] of its choices. *)
Variable chat_completions_create :
  TravelRequest.t -> context -> exc (list (option str)).

(** [str(uuid.uuid4())] *)
Variable uuid4 : str.

Definition _generate_itinerary_text (travel_request : TravelRequest.t)
    (ctx : context) : M str :=
  try_except
    (run _ <- emit ModelCall;
     run response <- lift (chat_completions_create travel_request ctx);
     run choice <- lift (item response 0);
     match choice with
     | Some content => retM (strip content)
     | None => raiseM AttributeError
     end)
    (fun e => retM (_generate_fallback_itinerary travel_request)).

Definition create_itinerary (travel_request : TravelRequest.t)
    (flights : list FlightOption.t) (hotels : list HotelOption.t)
    (pois : list PointOfInterest.t) : M Itinerary.t :=
  let ctx := _prepare_context travel_request flights hotels pois in
  run itinerary_text <- _generate_itinerary_text travel_request ctx;
  run itinerary <-
    lift (_parse_itinerary uuid4 travel_request itinerary_text flights hotels pois);
  retM itinerary.

(** The [HotelOption] built from one raw record; the keyword arguments
    are evaluated in the order in which they are written. *)
Definition hotel_option (destination : str) (hotel : pyval)
  : exc HotelOption.t :=
  do name <- py_get hotel $"name" (PStr $"Unknown Hotel");
  do price <- py_get hotel $"price" (PDict []);
  do total <- py_get price $"total" (PInt 0);
  do price_per_night <- py_float_of float_of_str total;
  do rating <- py_get hotel $"rating" (PInt 3);
  do stars <- py_float_of float_of_str rating;
  do address <- py_get hotel $"address" (PDict []);
  do lines <- py_get address $"lines" (PList [PStr []]);
  do line <- py_getitem0 lines;
  do amenities <- py_get hotel $"amenities" (PList []);
  HotelOption_new name price_per_night stars line amenities destination.

(** The loop over [hotels_data], appending to [hotels]. *)
Fixpoint hotel_options (destination : str) (hotels_data : list pyval)
    (hotels : list HotelOption.t) : exc (list HotelOption.t) :=
  match hotels_data with
  | [] => ret hotels
  | hotel :: hotels_data' =>
      do h <- hotel_option destination hotel;
      hotel_options destination hotels_data' (hotels ++ [h])
  end.

Definition generate_itinerary (travel_request : TravelRequest.t) : M Itinerary.t :=
  let origin := TravelRequest.origin travel_request in
  let destination := TravelRequest.destination travel_request in
  run _ <- emit (FlightSearch origin destination);
  run flights <-
    lift (get_flight_offers origin destination
            (TravelRequest.depart_date travel_request)
            (TravelRequest.return_date travel_request));
  if decide (flights = []) then
    raiseM (HTTPException 404
              ($"No flights found from " ++ origin ++ $" to " ++ destination))
  else
    run _ <- emit (HotelSearch destination);
    run hotels_data <- lift (search_hotels_by_city destination);
    if decide (hotels_data = []) then
      raiseM (HTTPException 404 ($"No hotels found in " ++ destination))
    else
      run hotels <- lift (hotel_options destination hotels_data []);
      run _ <- emit (PoiSearch destination);
      run pois <-
        lift (get_points_of_interest destination
                (TravelRequest.preferences travel_request));
      create_itinerary travel_request flights hotels pois.

End Pipeline.

End LLM.

(* ===================================================================== *)
(** ** Python primitives of the cache keys *)
(* ===================================================================== *)

Module PyKeys.

Import Travel.

(** [sep.join(l)] *)
Fixpoint join (sep : str) (l : list str) : str :=
  match l with
  | [] => []
  | [x] => x
  | x :: l' => x ++ sep ++ join sep l'
  end.

(** [a <= b] on [str]: by code points, a proper prefix first. *)
Fixpoint str_le (a b : str) : bool :=
  match a, b with
  | [], _ => true
  | _ :: _, [] => false
  | x :: a', y :: b' =>
      if (code x <? code y)%N then true
      else if (code x =? code y)%N then str_le a' b'
      else false
  end.

(** [sorted(l)] for a list of [str]. *)
Definition sorted (l : list str) : list str :=
  merge_sort (fun a b => Is_true (str_le a b)) l.

(** *** [datetime.date] as text *)

Definition _DAYS_IN_MONTH : list Z :=
  [-1; 31; 28; 31; 30; 31; 30; 31; 31; 30; 31; 30; 31].

Definition _DAYS_BEFORE_MONTH : list Z :=
  [-1; 0; 31; 59; 90; 120; 151; 181; 212; 243; 273; 304; 334].

Definition table (t : list Z) (i : Z) : Z := nth (Z.to_nat i) t 0.

(** Year, month and day of the day of ordinal [n]. *)
Definition _ord2ymd (n : Z) : Z * Z * Z :=
  let n := n - 1 in
  let n400 := n / 146097 in
  let n := n mod 146097 in
  let year := n400 * 400 + 1 in
  let n100 := n / 36524 in
  let n := n mod 36524 in
  let n4 := n / 1461 in
  let n := n mod 1461 in
  let n1 := n / 365 in
  let n := n mod 365 in
  let year := year + n100 * 100 + n4 * 4 + n1 in
  if (n1 =? 4) || (n100 =? 4) then (year - 1, 12, 31)
  else
    let leapyear := (n1 =? 3) && (negb (n4 =? 24) || (n100 =? 3)) in
    let month := Z.shiftr (n + 50) 5 in
    let preceding :=
      table _DAYS_BEFORE_MONTH month
      + (if (2 <? month) && leapyear then 1 else 0) in
    if n <? preceding then
      let month := month - 1 in
      let preceding :=
        preceding - (table _DAYS_IN_MONTH month
                     + (if (month =? 2) && leapyear then 1 else 0)) in
      (year, month, n - preceding + 1)
    else (year, month, n - preceding + 1).

(** [n] in decimal on at least [w] digits ([%0wd], for [n >= 0]). *)
Definition zero_pad (w : nat) (n : Z) : str :=
  let s := str_int n in
  replicate (w - length s) "0"%char ++ s.

(** [d.isoformat()], also [str(d)]. *)
Definition isoformat (d : date) : str :=
  let '(y, m, dd) := _ord2ymd (toordinal d) in
  zero_pad 4 y ++ $"-" ++ zero_pad 2 m ++ $"-" ++ zero_pad 2 dd.

End PyKeys.

(* ===================================================================== *)
(** ** backend/routers/travel.py *)
(* ===================================================================== *)

Module Router.

Import Travel LLM PyKeys.

(** [TravelRequestCreate] of [backend/models/travel.py]: the body of a
    request for an itinerary. *)
Module TravelRequestCreate.
Record t : Type := Build {
  origin : str;
  destination : str;
  depart_date : date;
  return_date : date;
  budget : float;
  preferences : list str
}.
End TravelRequestCreate.

(** The row of the authenticated user ([UserInDB] of
    [backend/models/user.py]); [full_name] and [email] may be null. *)
Module UserInDB.
Record t : Type := Build {
  username : str;
  full_name : option str;
  email : option str;
  hashed_password : str;
  disabled : bool
}.
End UserInDB.

(** [user_itineraries]: the itineraries kept in memory, by e-mail address. *)
Definition itineraries : Type := gmap (option str) (list Itinerary.t).

(** [if email not in user_itineraries: user_itineraries[email] = []]
    followed by [user_itineraries[email].append(itinerary)]. *)
Definition append_itinerary (email : option str) (itinerary : Itinerary.t)
    (user_itineraries : itineraries) : exc itineraries :=
  let user_itineraries :=
    match user_itineraries !! email with
    | None => <[email := []]> user_itineraries
    | Some _ => user_itineraries
    end in
  match user_itineraries !! email with
  | Some l => ret (<[email := l ++ [itinerary]]> user_itineraries)
  | None => raise KeyError
  end.

Section Handlers.

(** The collaborators of the pipeline, as in [LLM.generate_itinerary]. *)
Variable get_flight_offers :
  str -> str -> date -> date -> exc (list FlightOption.t).
Variable search_hotels_by_city : str -> exc (list pyval).
Variable float_of_str : str -> exc float.
Variable HotelOption_new :
  pyval -> float -> float -> pyval -> pyval -> str -> exc HotelOption.t.
Variable get_points_of_interest :
  str -> list str -> exc (list PointOfInterest.t).
Variable chat_completions_create :
  TravelRequest.t -> context -> exc (list (option str)).
Variable uuid4 : str.

(** [str(e)] for an exception. *)
Variable exn_str : exn -> str.

(** The result of a handler: what it returns or raises, the itineraries
    kept afterwards, and the log of the calls made outside. *)
Definition outcome (A : Type) : Type := exc A * itineraries * list event.

(** [try: body except Exception as e: raise HTTPException(500, prefix + str(e))] *)
Definition internal_error {A} (prefix : str) (body : outcome A) : outcome A :=
  match body with
  | (inl e, user_itineraries, log) =>
      (inl (HTTPException 500 (prefix ++ exn_str e)), user_itineraries, log)
  | (inr x, user_itineraries, log) => (inr x, user_itineraries, log)
  end.

(** [POST /itinerary].  The duration the handler computes is passed to
    [TravelRequest], which has no such field and ignores it. *)
Definition create_itinerary (travel_req : TravelRequestCreate.t)
    (current_user : UserInDB.t) (user_itineraries : itineraries)
    (log : list event) : outcome Itinerary.t :=
  internal_error $"Failed to create itinerary: "
    (let duration :=
       days_between (TravelRequestCreate.return_date travel_req)
         (TravelRequestCreate.depart_date travel_req) + 1 in
     let travel_request :=
       {| TravelRequest.origin := TravelRequestCreate.origin travel_req;
          TravelRequest.destination := TravelRequestCreate.destination travel_req;
          TravelRequest.depart_date := TravelRequestCreate.depart_date travel_req;
          TravelRequest.return_date := TravelRequestCreate.return_date travel_req;
          TravelRequest.budget := TravelRequestCreate.budget travel_req;
          TravelRequest.preferences := TravelRequestCreate.preferences travel_req |} in
     match generate_itinerary get_flight_offers search_hotels_by_city
             float_of_str HotelOption_new get_points_of_interest
             chat_completions_create uuid4 travel_request log with
     | (inl e, log) => (inl e, user_itineraries, log)
     | (inr itinerary, log) =>
         match append_itinerary (UserInDB.email current_user) itinerary
                 user_itineraries with
         | inl e => (inl e, user_itineraries, log)
         | inr user_itineraries => (inr itinerary, user_itineraries, log)
         end
     end).

(** [GET /itineraries] *)
Definition get_itineraries (current_user : UserInDB.t)
    (user_itineraries : itineraries) (log : list event)
    : outcome (list Itinerary.t) :=
  internal_error $"Failed to fetch itineraries"
    (inr (default [] (user_itineraries !! UserInDB.email current_user)),
     user_itineraries, log).

(** [POST /itineraries].  The branch taken when the duration is zero
    assigns to the [duration] property, which cannot be set. *)
Definition save_itinerary (itinerary : Itinerary.t) (current_user : UserInDB.t)
    (user_itineraries : itineraries) (log : list event)
    : outcome Itinerary.t :=
  internal_error $"Failed to save itinerary: "
    (if decide (TravelRequest.destination (Itinerary.travel_request itinerary) = [])
     then (inl (HTTPException 400 $"Invalid itinerary data: missing destination"),
           user_itineraries, log)
     else if TravelRequest.duration (Itinerary.travel_request itinerary) =? 0
     then (inl AttributeError, user_itineraries, log)
     else
       match append_itinerary (UserInDB.email current_user) itinerary
               user_itineraries with
       | inl e => (inl e, user_itineraries, log)
       | inr user_itineraries => (inr itinerary, user_itineraries, log)
       end).

End Handlers.

(** *** The search handlers and the cache *)

(** The calls a search handler makes to an adapter. *)
Inductive call : Type :=
  | GetFlightOffers (origin destination : str) (depart_date return_date : date)
  | GetHotelOffers (city : str) (checkin_date checkout_date : date)
  | GetPointsOfInterest (city : str) (preferences : list str).

Section Search.

(** The objects handed to the cache, and [json], as in [Cache]. *)
Variable PyObj : Type.
Variable has_dict_or_is_collection : PyObj -> bool.
Variable json_dumps_default : PyObj -> exc str.
Variable json_dumps : PyObj -> exc str.
Variable json_dumps_str : PyObj -> str.
Variable json_loads : str -> exc PyObj.
Variable of_str : str -> PyObj.
(** [bool(v)], the test of [if cached_result:] on a value that is not
    [None] *)
Variable bool_of : PyObj -> bool.

(** The adapters, which may raise here, and their results as objects. *)
Variable get_flight_offers :
  str -> str -> date -> date -> exc (list FlightOption.t).
Variable of_flights : list FlightOption.t -> PyObj.
Variable get_hotel_offers : str -> date -> date -> exc (list HotelOption.t).
Variable of_hotels : list HotelOption.t -> PyObj.
Variable get_points_of_interest :
  str -> list str -> exc (list PointOfInterest.t).
Variable of_pois : list PointOfInterest.t -> PyObj.
(** [FlightSearchResponse(flights=v)], [HotelSearchResponse(hotels=v)] and
    [PoiSearchResponse(points_of_interest=v)] on a value read from the
    cache: the validation of the decoded JSON. *)
Variable validate_flights : PyObj -> exc (list FlightOption.t).
Variable validate_hotels : PyObj -> exc (list HotelOption.t).
Variable validate_pois : PyObj -> exc (list PointOfInterest.t).
Variable exn_str : exn -> str.

Definition flights_key (origin destination : str) (depart_date return_date : date)
    : str :=
  $"flights:" ++ origin ++ $":" ++ destination ++ $":"
  ++ isoformat depart_date ++ $":" ++ isoformat return_date.

Definition hotels_key (city : str) (checkin_date checkout_date : date) : str :=
  $"hotels:" ++ city ++ $":" ++ isoformat checkin_date ++ $":"
  ++ isoformat checkout_date.

Definition pois_key (city : str) (preferences : list str) : str :=
  let preferences_str := join $"," (sorted preferences) in
  $"pois:" ++ city ++ $":" ++ preferences_str.

(** The result of a search handler: what it returns or raises, the cache
    afterwards and the calls made to the adapters.  [now_get] and
    [now_set] are the readings of the clock in [get] and in [set]. *)
Definition answer (A : Type) : Type :=
  exc A * gmap str Cache.entry * list call.

(** [GET /flights] *)
Definition search_flights (origin destination : str)
    (depart_date return_date : date) (now_get now_set : float)
    (cache : gmap str Cache.entry) (log : list call)
    : answer (list FlightOption.t) :=
  let cache_key := flights_key origin destination depart_date return_date in
  match Cache.get PyObj json_loads of_str cache cache_key now_get with
  | inl e => (inl e, cache, log)
  | inr (cached_result, cache) =>
      let fresh :=
        let log :=
          log ++ [GetFlightOffers origin destination depart_date return_date] in
        match get_flight_offers origin destination depart_date return_date with
        | inr flights =>
            match Cache.set PyObj has_dict_or_is_collection json_dumps_default
                    json_dumps json_dumps_str cache cache_key (of_flights flights)
                    3600 now_set with
            | inr cache => (inr flights, cache, log)
            | inl e =>
                (inl (HTTPException 500 ($"Error searching flights: " ++ exn_str e)),
                 cache, log)
            end
        | inl e =>
            (inl (HTTPException 500 ($"Error searching flights: " ++ exn_str e)),
             cache, log)
        end in
      match cached_result with
      | Some v => if bool_of v then (validate_flights v, cache, log) else fresh
      | None => fresh
      end
  end.

(** [GET /hotels] *)
Definition search_hotels (city : str) (checkin_date checkout_date : date)
    (now_get now_set : float) (cache : gmap str Cache.entry) (log : list call)
    : answer (list HotelOption.t) :=
  let cache_key := hotels_key city checkin_date checkout_date in
  match Cache.get PyObj json_loads of_str cache cache_key now_get with
  | inl e => (inl e, cache, log)
  | inr (cached_result, cache) =>
      let fresh :=
        let log := log ++ [GetHotelOffers city checkin_date checkout_date] in
        match get_hotel_offers city checkin_date checkout_date with
        | inr hotels =>
            match Cache.set PyObj has_dict_or_is_collection json_dumps_default
                    json_dumps json_dumps_str cache cache_key (of_hotels hotels)
                    3600 now_set with
            | inr cache => (inr hotels, cache, log)
            | inl e =>
                (inl (HTTPException 500 ($"Error searching hotels: " ++ exn_str e)),
                 cache, log)
            end
        | inl e =>
            (inl (HTTPException 500 ($"Error searching hotels: " ++ exn_str e)),
             cache, log)
        end in
      match cached_result with
      | Some v => if bool_of v then (validate_hotels v, cache, log) else fresh
      | None => fresh
      end
  end.

(** [GET /points-of-interest] *)
Definition search_points_of_interest (city : str) (preferences : list str)
    (now_get now_set : float) (cache : gmap str Cache.entry) (log : list call)
    : answer (list PointOfInterest.t) :=
  let cache_key := pois_key city preferences in
  match Cache.get PyObj json_loads of_str cache cache_key now_get with
  | inl e => (inl e, cache, log)
  | inr (cached_result, cache) =>
      let fresh :=
        let log := log ++ [GetPointsOfInterest city preferences] in
        match get_points_of_interest city preferences with
        | inr pois =>
            match Cache.set PyObj has_dict_or_is_collection json_dumps_default
                    json_dumps json_dumps_str cache cache_key (of_pois pois)
                    (3600 * 24) now_set with
            | inr cache => (inr pois, cache, log)
            | inl e =>
                (inl (HTTPException 500
                        ($"Error searching points of interest: "
                         ++ exn_str e)),
                 cache, log)
            end
        | inl e =>
            (inl (HTTPException 500
                    ($"Error searching points of interest: " ++ exn_str e)),
             cache, log)
        end in
      match cached_result with
      | Some v => if bool_of v then (validate_pois v, cache, log) else fresh
      | None => fresh
      end
  end.

End Search.

End Router.

(* ===================================================================== *)
(** ** Vocabulary of the properties *)
(* ===================================================================== *)

Module Text.

(** [m] occurs somewhere in [s]. *)
Definition occurs (m s : str) : Prop := exists a b, s = a ++ m ++ b.

(** [s] is [a], then [m], then [b], and [m] occurs nowhere earlier. *)
Definition first_occurrence (m s a b : str) : Prop :=
  s = a ++ m ++ b
  /\ forall a' b', s = a' ++ m ++ b' -> (length a <= length a')%nat.

(** *** Scanning a text of which only some stretches are known

    A text is given as a list of segments: literal stretches, and stretches
    of which only the absence of the marker is known.  The scanner follows
    the lengths of the proper prefixes of the marker that end at the current
    position ([alive]); it answers [None] when the marker may occur. *)

Inductive segment : Type :=
  | Lit (s : str)
  | Any (u : str).

Definition segment_text (g : segment) : str :=
  match g with
  | Lit s => s
  | Any u => u
  end.

Definition text_of (segs : list segment) : str :=
  concat (map segment_text segs).

Definition advance (m : str) (alive : list nat) (c : ascii) : list nat :=
  map S (List.filter (fun k => bool_decide (m !! k = Some c)) (0%nat :: alive)).

Fixpoint scan_lit (m : str) (alive : list nat) (s : str) : option (list nat) :=
  match s with
  | [] => Some alive
  | c :: s' =>
      let alive' := advance m alive c in
      if bool_decide (length m ∈ alive') then None
      else scan_lit m alive' s'
  end.

Fixpoint scan (m : str) (alive : list nat) (segs : list segment)
  : option (list nat) :=
  match segs with
  | [] => Some alive
  | Lit s :: segs' =>
      match scan_lit m alive s with
      | Some alive' => scan m alive' segs'
      | None => None
      end
  | Any _ :: segs' =>
      match alive with
      | [] => scan m (seq 1 (length m - 1)) segs'
      | _ :: _ => None
      end
  end.

(** What the scanner knows after reading [t]: the marker is not in [t], and
    [alive] holds the length of every proper prefix of the marker that [t]
    ends with. *)
Definition tracked (m t : str) (alive : list nat) : Prop :=
  ~ occurs m t
  /\ forall k, (0 < k < length m)%nat -> take k m `suffix_of` t -> k ∈ alive.

(** What is known of the unknown stretches: the marker is not in them. *)
Definition clean (m : str) (g : segment) : Prop :=
  match g with
  | Lit _ => True
  | Any u => ~ occurs m u
  end.

End Text.

(** *** Vocabulary of the parser's properties *)

Module ParseSpec.

Import Travel LLM.

(** [h] is a header spelling of a day after [day], up to [days]. *)
Definition later_header (day days : Z) (h : str) : Prop :=
  exists d, day < d <= days /\ h ∈ day_markers d.

(** Position [i] of [s] starts a match of [SGD\s*[\d,]+]: the currency
    code, optional blanks, then a digit or a comma. *)
Definition cost_at (s : str) (i : nat) : Prop :=
  exists blanks c rest,
    drop i s = $"SGD" ++ blanks ++ c :: rest
    /\ Forall (fun b => isspace b = true) blanks
    /\ is_digit_or_comma c = true.

(** One step of the search for a later header: [h] is found in [rest]
    before the position held so far. *)
Definition earlier (rest : str) (next_day_idx : option Z) (h : str) : option Z :=
  if contains h rest then
    let marker_idx := find h rest in
    if lt_idx marker_idx next_day_idx then Some marker_idx else next_day_idx
  else next_day_idx.

(** The passage of the header example, and the content it gives day 2. *)
Definition day2_content : str :=
  NL ++ $"Morning: Museum" ++ NL ++ $"Afternoon: Park" ++ NL.

Definition day2_passage : str := $"### Day 2" ++ day2_content ++ $"### Day 3".

(** [post] does not go on with a digit. *)
Definition no_digit_ahead (post : str) : Prop :=
  forall c post', post = c :: post' -> isdigit c = false.

(** The content the parser finds for a day (empty when it finds none). *)
Definition day_content (itinerary_text : str) (days day : Z) : str :=
  match find_day_content itinerary_text day days (day_markers day)
          (day_markers day) with
  | inr c => c
  | inl _ => []
  end.

Definition has_content (itinerary_text : str) (days day : Z) : Prop :=
  day_content itinerary_text days day <> [].

(** The day numbers of a plan, in its order. *)
Definition days_of (plan : list ItineraryDayActivity.t) : list Z :=
  map ItineraryDayActivity.day plan.

(** What one round of the loop over the days appends. *)
Definition day_entry_spec req (sel : option HotelOption.t) (day : Z)
    (c : str) (x : ItineraryDayActivity.t) : Prop :=
  ItineraryDayActivity.day x = day
  /\ toordinal (ItineraryDayActivity.date x)
     = toordinal (TravelRequest.depart_date req) + (day - 1)
  /\ ItineraryDayActivity.description x = strip c
  /\ extract_part $"Morning:" c = inr (ItineraryDayActivity.morning x)
  /\ extract_part $"Afternoon:" c = inr (ItineraryDayActivity.afternoon x)
  /\ extract_part $"Evening:" c = inr (ItineraryDayActivity.evening x)
  /\ ItineraryDayActivity.accommodation x = HotelOption.name <$> sel.

(** The parts of the fallback text: what precedes the day sections, the
    placeholder lines of a day section, and what follows the sections. *)
Definition fallback_head (req : TravelRequest.t) : str :=
  $"# Trip to " ++ TravelRequest.destination req ++ NL ++ NL
  ++ $"## Overview" ++ NL
  ++ $"A " ++ str_int (TravelRequest.duration req) ++ $"-day trip to "
  ++ TravelRequest.destination req ++ $" from " ++ TravelRequest.origin req
  ++ $"." ++ NL ++ NL
  ++ $"## Suggested Flight" ++ NL
  ++ $"Economy class flight from " ++ TravelRequest.origin req ++ $" to "
  ++ TravelRequest.destination req ++ $"." ++ NL ++ NL
  ++ $"## Suggested Accommodation" ++ NL
  ++ $"Standard hotel in " ++ TravelRequest.destination req
  ++ $" city center." ++ NL ++ NL
  ++ $"## Day-by-Day Itinerary" ++ NL.

Definition fallback_placeholder : str :=
  $"- Morning: Breakfast at hotel, explore local area" ++ NL
  ++ $"- Afternoon: Visit main tourist attractions" ++ NL
  ++ $"- Evening: Dinner at local restaurant" ++ NL ++ NL.

Definition fallback_tail (amount : str) : str :=
  $"## Estimated Budget" ++ NL
  ++ $"Total estimated cost: SGD " ++ amount ++ NL.

(** The fallback text of a three-day trip costing 1800.00, cut into the
    stretches the template fixes and the names it embeds. *)
Definition fallback_segments (origin destination : str) : list Text.segment :=
  [ Text.Lit $"# Trip to "; Text.Any destination;
    Text.Lit (NL ++ NL ++ $"## Overview" ++ NL ++ $"A 3-day trip to ");
    Text.Any destination; Text.Lit $" from "; Text.Any origin;
    Text.Lit ($"." ++ NL ++ NL ++ $"## Suggested Flight" ++ NL
              ++ $"Economy class flight from ");
    Text.Any origin; Text.Lit $" to "; Text.Any destination;
    Text.Lit ($"." ++ NL ++ NL ++ $"## Suggested Accommodation" ++ NL
              ++ $"Standard hotel in ");
    Text.Any destination;
    Text.Lit ($" city center." ++ NL ++ NL ++ $"## Day-by-Day Itinerary" ++ NL
              ++ fallback_day 1 ++ fallback_day 2 ++ fallback_day 3
              ++ fallback_tail $"1800.00") ].

(** The head of that text, up to and with the first eight characters of
    its first day section. *)
Definition fallback_opening (origin destination : str) : list Text.segment :=
  [ Text.Lit $"# Trip to "; Text.Any destination;
    Text.Lit (NL ++ NL ++ $"## Overview" ++ NL ++ $"A 3-day trip to ");
    Text.Any destination; Text.Lit $" from "; Text.Any origin;
    Text.Lit ($"." ++ NL ++ NL ++ $"## Suggested Flight" ++ NL
              ++ $"Economy class flight from ");
    Text.Any origin; Text.Lit $" to "; Text.Any destination;
    Text.Lit ($"." ++ NL ++ NL ++ $"## Suggested Accommodation" ++ NL
              ++ $"Standard hotel in ");
    Text.Any destination;
    Text.Lit ($" city center." ++ NL ++ NL ++ $"## Day-by-Day Itinerary" ++ NL
              ++ $"### Day ") ].

(** A text starts with the header of a day section: [### Day ] and a
    digit. *)
Definition starts_day_header (s : str) : bool :=
  startswith $"### Day " s
  && match drop 8 s with
     | c :: _ => isdigit c
     | [] => false
     end.

(** The positions of a text at which a day section starts. *)
Definition day_headers (text : str) : list nat :=
  List.filter (fun i => starts_day_header (drop i text)) (seq 0 (length text)).

End ParseSpec.

(** *** Sample data *)

Module Samples.

Import Travel LLM.

(** A three-day trip, 2023-08-03 to 2023-08-05 by the ordinals, with a
    budget of 2000. *)
Definition depart : date := Date 738735 I.
Definition back : date := Date 738737 I.

Definition request : TravelRequest.t :=
  TravelRequest.Build $"Singapore" $"Tokyo" depart back 2000%float [$"Food"].

(** The same trip with a destination that reads like a day header
    followed by a cost line. *)
Definition odd_request : TravelRequest.t :=
  TravelRequest.Build $"Singapore" $"### Day 9 Total cost: SGD 5" depart back
    2000%float [].

(** A trip that leaves and returns on the same day. *)
Definition day_trip : TravelRequest.t :=
  TravelRequest.Build $"Singapore" $"Tokyo" depart depart 2000%float [].

Definition flight : FlightOption.t :=
  FlightOption.Build $"SQ" 650%float $"Singapore" $"Tokyo" depart back
    (Some $"SQ638") None None.

Definition hotel : HotelOption.t :=
  HotelOption.Build $"Park Hotel" 180%float 4%float $"Tokyo" None None None
    None None None None.

(** Raw hotel records: a complete one, one whose address has no line,
    and one whose rating is null. *)
Definition hotel_record : pyval :=
  PDict [ ($"name", PStr $"Park Hotel");
          ($"price", PDict [($"total", PStr $"180")]);
          ($"rating", PInt 4) ].

Definition record_without_lines : pyval :=
  PDict [ ($"name", PStr $"Park Hotel");
          ($"address", PDict [($"lines", PList [])]) ].

Definition record_without_rating : pyval :=
  PDict [ ($"name", PStr $"Park Hotel"); ($"rating", PNone) ].

(** A validation for the samples: the name must be a text, an address
    that is a text is kept. *)
Definition hotel_option_new (name : pyval) (price_per_night stars : float)
    (address amenities : pyval) (city : str) : exc HotelOption.t :=
  match name with
  | PStr n =>
      ret (HotelOption.Build n price_per_night stars city
             (match address with
              | PStr a => Some a
              | _ => None
              end)
             None None None None None None)
  | _ => raise ValidationError
  end.

(** A text that gives days 1 and 3 and skips day 2. *)
Definition gap_text : str :=
  $"### Day 1" ++ NL ++ $"Morning: Walk" ++ NL
  ++ $"### Day 3" ++ NL ++ $"Morning: Zoo".

(** A text with two headers for day 2. *)
Definition two_headers_text : str :=
  $"### Day 2 Morning: Zoo" ++ NL ++ ParseSpec.day2_passage.

(** A text with a daily subtotal before the total. *)
Definition two_totals_text : str :=
  $"Day 1 Total cost: SGD 80" ++ NL ++ $"Total Cost: SGD 1,250.50".

(** A cache client whose values are texts and need no encoding. *)
Definition cache_key : str := $"flights:Singapore:Tokyo".

(** The mapping after [set(cache_key, "[]", 3600)] on an empty cache when
    the clock reads 0. *)
Definition cache_after_set : gmap str Cache.entry :=
  <[cache_key := Cache.Entry $"[]" (0 + 3600)%float]> ∅.

End Samples.
(* ===================================================================== *)
(** ** Vocabulary of the further properties *)
(* ===================================================================== *)

Module CacheSpec.

(** What a reader can see of [key] when the clock reads [now]. *)
Definition visible (cache : gmap str Cache.entry) (now : float) (key : str)
  : option Cache.entry :=
  match cache !! key with
  | Some e => if (Cache.expires_at e <=? now)%float then None else Some e
  | None => None
  end.

Inductive op (PyObj : Type) : Type :=
  | CallGet (key : str)
  | CallSet (key : str) (value : PyObj) (expiry : Z)
  | CallDelete (key : str)
  | CallClear
  | CallSweep.

Arguments CallGet {PyObj}.
Arguments CallSet {PyObj}.
Arguments CallDelete {PyObj}.
Arguments CallClear {PyObj}.
Arguments CallSweep {PyObj}.

Definition is_sweep {PyObj} (o : op PyObj) : bool :=
  match o with
  | CallSweep => true
  | _ => false
  end.

Section Replay.

Variable PyObj : Type.
Variable has_dict_or_is_collection : PyObj -> bool.
Variables json_dumps_default json_dumps : PyObj -> exc str.
Variable json_dumps_str : PyObj -> str.
Variable json_loads : str -> exc PyObj.
Variable of_str : str -> PyObj.

(** A history of calls on one cache, each with the clock reading at which
    it runs; the answers of the [get]s, in order, and the mapping left. *)
Fixpoint replay (ops : list (float * op PyObj)) (cache : gmap str Cache.entry)
  : exc (list (option PyObj) * gmap str Cache.entry) :=
  match ops with
  | [] => ret ([], cache)
  | (now, o) :: ops' =>
      match o with
      | CallGet key =>
          do r <- Cache.get PyObj json_loads of_str cache key now;
          do rs <- replay ops' (snd r);
          ret (fst r :: fst rs, snd rs)
      | CallSet key v expiry =>
          do cache' <- Cache.set PyObj has_dict_or_is_collection
                         json_dumps_default json_dumps json_dumps_str cache
                         key v expiry now;
          replay ops' cache'
      | CallDelete key => replay ops' (Cache.delete cache key)
      | CallClear => replay ops' (Cache.clear cache)
      | CallSweep =>
          do cache' <- Cache._cleanup_expired cache now;
          replay ops' cache'
      end
  end.

End Replay.

(** Two mappings that show the same to a reader at [now]. *)
Definition same_view (now : float) (c1 c2 : gmap str Cache.entry) : Prop :=
  forall k, visible c1 now k = visible c2 now k.

(** The clock does not go back from [a] to [b]. *)
Definition not_before (a b : float) : Prop := (a <=? b)%float = true.

(** The expiry of a [set] is within the range of the binary64 numbers. *)
Definition expiry_in_range {PyObj} (o : op PyObj) : Prop :=
  match o with
  | CallSet _ _ expiry => exists x, float_of_int expiry = inr x
  | _ => True
  end.

(** Two runs of a history end alike: with the same answers, or with the
    same exception. *)
Definition same_answers {A B C : Type} (r1 : exc (A * B)) (r2 : exc (A * C))
  : Prop :=
  match r1, r2 with
  | inr (rs1, _), inr (rs2, _) => rs1 = rs2
  | inl e1, inl e2 => e1 = e2
  | _, _ => False
  end.

End CacheSpec.

Module AmountSpec.

Import LLM.

(** The shape of a match of [[\d,]+(\.\d+)?]: digits and commas, then
    possibly a point and digits. *)
Definition amount_shape (g whole frac : str) : Prop :=
  whole <> [] /\ forallb is_digit_or_comma whole = true
  /\ forallb isdigit frac = true
  /\ g = whole ++ (if decide (frac = []) then [] else "."%char :: frac).

Definition not_comma (c : ascii) : bool := negb (Ascii.eqb c ","%char).

End AmountSpec.

Module FallbackSpec.

Import Travel Text LLM ParseSpec.

(** The header and the body of a day section of the fallback text. *)
Definition header (day : Z) : str := $"### Day " ++ str_int day.

Definition body : str := NL ++ fallback_placeholder.

(** The day sections of the fallback text of a request. *)
Definition fallback_days (req : TravelRequest.t) : str :=
  concat (map fallback_day (range 1 (TravelRequest.duration req + 1))).

(** The head of the fallback text, cut into the stretches the template
    fixes and the stretches it embeds. *)
Definition head_segments (origin destination days : str) : list segment :=
  [ Lit $"# Trip to "; Any destination; Lit NL; Lit NL;
    Lit $"## Overview"; Lit NL;
    Lit $"A "; Any days; Lit $"-day trip to "; Any destination;
    Lit $" from "; Any origin; Lit $"."; Lit NL; Lit NL;
    Lit $"## Suggested Flight"; Lit NL;
    Lit $"Economy class flight from "; Any origin; Lit $" to ";
    Any destination; Lit $"."; Lit NL; Lit NL;
    Lit $"## Suggested Accommodation"; Lit NL;
    Lit $"Standard hotel in "; Any destination; Lit $" city center.";
    Lit NL; Lit NL;
    Lit $"## Day-by-Day Itinerary"; Lit NL ].

(** What follows the header of a day in the fallback text. *)
Definition after_header (req : TravelRequest.t) (day : Z) : str :=
  body
  ++ concat (map fallback_day (range (day + 1) (TravelRequest.duration req + 1)))
  ++ fallback_tail (format_2f (ninety_percent (TravelRequest.budget req))).

(** A name that brings no day header, no cost marker and no line feed
    into the fallback text. *)
Definition plain (name : str) : Prop :=
  ~ occurs $"### Day " name
  /\ ~ occurs $"Total cost:" name
  /\ ~ occurs $"Total Cost:" name
  /\ ("010"%char ∉ name).

(** The placeholder activities of the fallback text. *)
Definition placeholder_day (x : ItineraryDayActivity.t) : Prop :=
  ItineraryDayActivity.morning x
  = Some $"Breakfast at hotel, explore local area"
  /\ ItineraryDayActivity.afternoon x = Some $"Visit main tourist attractions"
  /\ ItineraryDayActivity.evening x = Some $"Dinner at local restaurant".

End FallbackSpec.


Module DateSpec.

Import PyKeys.

(** The number of days before January 1st of the year [y]. *)
Definition days_before_year (y : Z) : Z :=
  (y - 1) * 365 + (y - 1) / 4 - (y - 1) / 100 + (y - 1) / 400.

Definition is_leap (y : Z) : bool :=
  (y mod 4 =? 0) && (negb (y mod 100 =? 0) || (y mod 400 =? 0)).

(** The number of days of the year [y] before the first day of month [m]. *)
Definition days_before_month (y m : Z) : Z :=
  table _DAYS_BEFORE_MONTH m + (if (2 <? m) && is_leap y then 1 else 0).

(** The ordinal of the day given by year, month and day. *)
Definition ymd2ord (ymd : Z * Z * Z) : Z :=
  let '(y, m, d) := ymd in
  days_before_year y + days_before_month y m + d.

(** Month and day of the day of index [n] in a year, as [_ord2ymd] finds
    them. *)
Definition month_day (leapyear : bool) (n : Z) : Z * Z :=
  let month := Z.shiftr (n + 50) 5 in
  let preceding :=
    table _DAYS_BEFORE_MONTH month
    + (if (2 <? month) && leapyear then 1 else 0) in
  if n <? preceding then
    let month := month - 1 in
    let preceding :=
      preceding - (table _DAYS_IN_MONTH month
                   + (if (month =? 2) && leapyear then 1 else 0)) in
    (month, n - preceding + 1)
  else (month, n - preceding + 1).

(** [month_day] gives a month and a day of the calendar, and the days
    before them are [n]. *)
Definition month_day_ok (leapyear : bool) (n : Z) : bool :=
  let '(m, d) := month_day leapyear n in
  (1 <=? m) && (m <=? 12) && (1 <=? d) && (d <=? 31)
  && (table _DAYS_BEFORE_MONTH m
      + (if (2 <? m) && leapyear then 1 else 0) + d =? n + 1).

End DateSpec.

(** The vocabulary of rounding to binary64, for what [x + n] gives when
    [n] is not positive. *)
Module Binary64.

(** The number of binary digits of a mantissa. *)
Definition digits (m : positive) : Z := Zpos (digits2_pos m).

Definition fexp64 (e : Z) : Z := Z.max (e - 53) (-1074).

Definition digitsZ (m : Z) : Z := Zdigits2 m.

(** The outcome of a rounding, by its mantissa and exponent. *)
Definition outcome (s : bool) (m e : Z) : spec_float :=
  match m with
  | Z0 => S754_zero s
  | Zpos p => if e <=? 971 then S754_finite s p e else S754_infinity s
  | Zneg _ => S754_nan
  end.

(** A mantissa and an exponent as binary64 numbers have them. *)
Definition canonical (m : positive) (e : Z) : Prop :=
  fexp64 (digits m + e) = e /\ e <= 971.

(** What a rounding gives, against a binary64 number of mantissa [mx]
    and exponent [ex]: its sign, and that its magnitude is not above,
    or not below. *)
Definition signed (s : bool) (r : spec_float) : Prop :=
  match r with
  | S754_nan => False
  | S754_zero s' | S754_infinity s' | S754_finite s' _ _ => s' = s
  end.

Definition below (s : bool) (mx : positive) (ex : Z) (r : spec_float) : Prop :=
  match r with
  | S754_zero s' => s' = s
  | S754_finite s' m e =>
      s' = s /\ (e < ex \/ (e = ex /\ Zpos m <= Zpos mx))
  | _ => False
  end.

Definition above (s : bool) (mx : positive) (ex : Z) (r : spec_float) : Prop :=
  match r with
  | S754_finite s' m e =>
      s' = s /\ (ex < e \/ (e = ex /\ Zpos mx <= Zpos m))
  | S754_infinity s' => s' = s
  | _ => False
  end.

(** Zero, or a negative number. *)
Definition nonpositive (r : spec_float) : Prop :=
  match r with
  | S754_zero _ => True
  | S754_finite s _ _ => s = true
  | _ => False
  end.

End Binary64.
(** *** Further sample data *)

Module MoreSamples.

Import Travel LLM Router CacheSpec.

(** A cost line with a thousands separator and one decimal. *)
Definition amount_text : str := $"Total cost: SGD 1,234.5 approx".

(** A text whose only header is the one of day 12. *)
Definition day12_text : str := $"### Day 12" ++ NL ++ $"Morning: Hike".

(** A reply of the model, with blanks around it. *)
Definition reply : str := $" ### Day 1" ++ NL ++ $"Morning: Walk ".

(** A history of calls on a cache of texts: a write, two sweeps, a read. *)
Definition history : list (float * op str) :=
  [ (0, CallSet Samples.cache_key $"[]" 3600); (1, CallSweep);
    (3600, CallSweep); (3600, CallGet Samples.cache_key) ]%float.

(** For a cache of texts: every text is truthy but the empty list. *)
Definition truthy (v : str) : bool := negb (bool_decide (v = $"[]")).

Definition flights_text (l : list FlightOption.t) : str :=
  match l with
  | [] => $"[]"
  | _ :: _ => $"[flight]"
  end.

Definition travel_req : TravelRequestCreate.t :=
  TravelRequestCreate.Build $"Singapore" $"Tokyo" Samples.depart Samples.back
    2000%float [$"Food"].

Definition user : UserInDB.t :=
  UserInDB.Build $"ana" None (Some $"ana@example.com") $"hash" false.

(** The text of an exception, as Starlette writes an [HTTPException]. *)
Definition exn_text (e : exn) : str :=
  match e with
  | HTTPException status_code detail => str_int status_code ++ $": " ++ detail
  | _ => $"error"
  end.

(** An itinerary with an empty destination. *)
Definition nowhere : Itinerary.t :=
  Itinerary.Build $"id"
    (TravelRequest.Build $"Singapore" [] Samples.depart Samples.back
       2000%float [])
    None None [] [] [] $"" 0%float None None.

End MoreSamples.

(* ===================================================================== *)
(** * Properties *)
(* ===================================================================== *)

Import Travel.

(** ** Searching in texts *)

Section TextFacts.

Import Text.

Implicit Types m s a b p t : str.

Lemma startswith_spec p s : startswith p s = true <-> exists b, s = p ++ b.
Proof.
  revert s. induction p as [|x p IH]; intros s; cbn.
  - split; [intros _; exists s; reflexivity|reflexivity].
  - destruct s as [|y s].
    + split; [discriminate|intros [b Hb]; discriminate].
    + destruct (Ascii.eqb x y) eqn:E.
      * apply Ascii.eqb_eq in E as ->. rewrite IH. split.
        -- intros [b ->]. exists b. reflexivity.
        -- intros [b [= ->]]. exists b. reflexivity.
      * apply Ascii.eqb_neq in E. split; [discriminate|].
        intros [b [= -> _]]. contradiction.
Qed.

Lemma index_of_Some m s i :
  index_of m s = Some i ->
  exists a b, first_occurrence m s a b /\ length a = i.
Proof.
  revert i. induction s as [|c s IH]; intros i; cbn.
  - destruct (startswith m []) eqn:E; [|discriminate].
    intros [= <-]. apply startswith_spec in E as [b Hb].
    exists [], b. repeat split; [exact Hb|cbn; lia].
  - destruct (startswith m (c :: s)) eqn:E.
    + intros [= <-]. apply startswith_spec in E as [b Hb].
      exists [], b. repeat split; [exact Hb|cbn; lia].
    + destruct (index_of m s) as [j|] eqn:Ej; [|discriminate].
      intros [= <-]. destruct (IH j eq_refl) as (a & b & [Hs Hmin] & Hlen).
      exists (c :: a), b. split; [split|cbn; lia].
      * rewrite Hs. reflexivity.
      * intros a' b' Heq. destruct a' as [|c' a'].
        -- assert (startswith m (c :: s) = true) as Hst
             by (apply startswith_spec; exists b'; exact Heq).
           congruence.
        -- injection Heq as <- Heq. specialize (Hmin a' b' Heq). cbn. lia.
Qed.

Lemma index_of_None m s : index_of m s = None -> ~ occurs m s.
Proof.
  induction s as [|c s IH]; cbn.
  - destruct (startswith m []) eqn:E; [discriminate|]. intros _ (a & b & Heq).
    destruct a; [|discriminate].
    assert (startswith m [] = true)
      by (apply startswith_spec; exists b; exact Heq).
    congruence.
  - destruct (startswith m (c :: s)) eqn:E; [discriminate|].
    destruct (index_of m s) eqn:Ej; [discriminate|].
    intros _ (a & b & Heq). destruct a as [|c' a].
    + assert (startswith m (c :: s) = true)
        by (apply startswith_spec; exists b; exact Heq).
      congruence.
    + injection Heq as <- Heq. apply IH; [reflexivity|]. exists a, b. exact Heq.
Qed.

Lemma index_of_first m s a b :
  first_occurrence m s a b -> index_of m s = Some (length a).
Proof.
  intros [Hs Hmin]. destruct (index_of m s) as [i|] eqn:E.
  - destruct (index_of_Some _ _ _ E) as (a' & b' & [Hs' Hmin'] & Hlen).
    specialize (Hmin a' b' Hs'). specialize (Hmin' a b Hs).
    f_equal. lia.
  - exfalso. apply (index_of_None _ _ E). exists a, b. exact Hs.
Qed.

Lemma contains_occurs m s : contains m s = true <-> occurs m s.
Proof.
  unfold contains. destruct (index_of m s) as [i|] eqn:E.
  - split; [intros _|reflexivity].
    destruct (index_of_Some _ _ _ E) as (a & b & [Hs _] & _).
    exists a, b. exact Hs.
  - split; [discriminate|]. intros H. exfalso.
    exact (index_of_None _ _ E H).
Qed.

Lemma contains_absent m s : contains m s = false <-> ~ occurs m s.
Proof.
  rewrite <- contains_occurs. destruct (contains m s); split; intros H;
    congruence.
Qed.

Lemma split1_first m s a b :
  first_occurrence m s a b -> split1 m s = [a; b].
Proof.
  intros H. unfold split1. rewrite (index_of_first _ _ _ _ H).
  destruct H as [-> _]. f_equal.
  - rewrite take_app_length. reflexivity.
  - f_equal. rewrite app_assoc, <- length_app. rewrite drop_app_length.
    reflexivity.
Qed.

Lemma split1_contains m s :
  contains m s = true ->
  exists a b, first_occurrence m s a b /\ split1 m s = [a; b].
Proof.
  unfold contains. destruct (index_of m s) as [i|] eqn:E; [|discriminate].
  intros _. destruct (index_of_Some _ _ _ E) as (a & b & Hf & _).
  exists a, b. split; [exact Hf|]. apply split1_first. exact Hf.
Qed.

Lemma split1_head m s : exists a rest, split1 m s = a :: rest.
Proof. unfold split1. destruct (index_of m s); eauto. Qed.

Lemma find_first m s a b :
  first_occurrence m s a b -> find m s = Z.of_nat (length a).
Proof. intros H. unfold find. rewrite (index_of_first _ _ _ _ H). reflexivity. Qed.

(** An occurrence that ends inside a known prefix is an occurrence in the
    prefix. *)
Lemma occurs_in_prefix m s a b n :
  s = a ++ m ++ b -> (length a + length m <= n)%nat -> occurs m (take n s).
Proof.
  intros -> Hn. exists a, (take (n - length a - length m) b).
  rewrite take_app_ge by lia. f_equal.
  rewrite take_app_ge by lia. reflexivity.
Qed.

Lemma first_occurrence_intro m a b :
  ~ occurs m (a ++ removelast m) -> first_occurrence m (a ++ m ++ b) a b.
Proof.
  intros Habs. split; [reflexivity|]. intros a' b' Heq.
  destruct (decide (length a <= length a')%nat) as [|Hlt]; [assumption|].
  exfalso. apply Habs.
  destruct m as [|x m'] using rev_ind.
  - exists a, []. cbn. rewrite app_nil_r. reflexivity.
  - rewrite removelast_last.
    assert (occurs (m' ++ [x])
              (take (length a + length m') (a ++ (m' ++ [x]) ++ b))) as Hocc.
    { apply (occurs_in_prefix _ _ a' b'); [exact Heq|].
      rewrite length_app. cbn. lia. }
    rewrite take_app_ge in Hocc by lia.
    replace (length a + length m' - length a)%nat with (length m') in Hocc
      by lia.
    rewrite <- app_assoc, take_app_length in Hocc. exact Hocc.
Qed.

(** No occurrence starts before position [n] when none lies within the
    first [n + |m| - 1] characters. *)
Lemma index_of_lower_bound m s n i :
  index_of m (take (n + length m - 1) s) = None ->
  index_of m s = Some i -> (n <= i)%nat.
Proof.
  intros Hnone Hsome.
  destruct (index_of_Some _ _ _ Hsome) as (a & b & [Hs _] & <-).
  destruct (decide (n <= length a)%nat) as [|Hlt]; [assumption|].
  exfalso. apply (index_of_None _ _ Hnone).
  apply (occurs_in_prefix m s a b); [exact Hs|lia].
Qed.

(** *** Soundness of the scanner *)

Lemma advance_spec m alive c k :
  S k ∈ advance m alive c <-> (k = 0%nat \/ k ∈ alive) /\ m !! k = Some c.
Proof.
  unfold advance. rewrite list_elem_of_In, in_map_iff. split.
  - intros (j & [= ->] & Hin). apply filter_In in Hin as [Hin Hc].
    apply bool_decide_eq_true in Hc. split; [|exact Hc].
    destruct Hin as [<-|Hin]; [left; reflexivity|right].
    apply list_elem_of_In. exact Hin.
  - intros [Hk Hc]. exists k. split; [reflexivity|]. apply filter_In. split.
    + destruct Hk as [->|Hk]; [left; reflexivity|right].
      apply list_elem_of_In. exact Hk.
    + apply bool_decide_eq_true. exact Hc.
Qed.

Lemma tracked_nil m : (0 < length m)%nat -> tracked m [] [].
Proof.
  intros Hm. split.
  - intros (a & b & Heq). destruct a; [|discriminate]. destruct m; [cbn in Hm; lia|discriminate].
  - intros k Hk [l Hl]. symmetry in Hl. apply app_eq_nil in Hl as [_ Hl].
    apply (f_equal length) in Hl. rewrite length_take in Hl. cbn in Hl. lia.
Qed.

Lemma tracked_step m t alive c :
  tracked m t alive ->
  length m ∉ advance m alive c ->
  tracked m (t ++ [c]) (advance m alive c).
Proof.
  intros [Habs Hal] Hhit. split.
  - intros (a & b & Heq).
    destruct b as [|y b _] using rev_ind.
    + rewrite app_nil_r in Heq.
      destruct m as [|x m0 _] using rev_ind.
      * apply Habs. exists t, []. rewrite app_nil_r. reflexivity.
      * rewrite app_assoc in Heq. apply app_inj_tail in Heq as [Ht ->].
        apply Hhit. rewrite length_app, Nat.add_comm. cbn.
        apply advance_spec. split.
        -- destruct (decide (length m0 = 0%nat)) as [|Hne]; [left; assumption|].
           right. apply Hal; [rewrite length_app; cbn; lia|].
           rewrite take_app_length. exists a. exact Ht.
        -- rewrite lookup_app_r by lia. rewrite Nat.sub_diag. reflexivity.
    + rewrite !app_assoc in Heq. apply app_inj_tail in Heq as [Ht _].
      apply Habs. exists a, b. rewrite Ht, <- app_assoc. reflexivity.
  - intros k Hk Hsuf. destruct k as [|k]; [lia|].
    destruct (lookup_lt_is_Some_2 m k) as [x Hx]; [lia|].
    rewrite (take_S_r _ _ _ Hx) in Hsuf.
    pose proof (suffix_snoc_inv_1 _ _ _ _ Hsuf) as ->.
    apply suffix_snoc_inv_2 in Hsuf.
    apply advance_spec. split; [|exact Hx].
    destruct k as [|k]; [left; reflexivity|right].
    apply Hal; [lia|exact Hsuf].
Qed.

Lemma scan_lit_sound m s :
  forall t alive alive',
  tracked m t alive -> scan_lit m alive s = Some alive' ->
  tracked m (t ++ s) alive'.
Proof.
  induction s as [|c s IH]; intros t alive alive' Ht; cbn.
  - intros [= <-]. rewrite app_nil_r. exact Ht.
  - case_bool_decide as Hhit; [discriminate|]. intros Hscan.
    replace (t ++ c :: s) with ((t ++ [c]) ++ s) by (rewrite <- app_assoc; reflexivity).
    apply (IH _ _ _ (tracked_step _ _ _ _ Ht Hhit) Hscan).
Qed.

Lemma tracked_any m t u :
  tracked m t [] -> ~ occurs m u ->
  tracked m (t ++ u) (seq 1 (length m - 1)).
Proof.
  intros [Habs Hal] Hu. split.
  - intros (a & b & Heq).
    destruct (decide (length t <= length a)%nat) as [Hle|Hgt].
    + apply Hu. exists (drop (length t) a), b.
      apply (f_equal (drop (length t))) in Heq.
      rewrite drop_app_length in Heq. rewrite Heq.
      rewrite drop_app_le by lia. reflexivity.
    + destruct (decide (length a + length m <= length t)%nat) as [Hin|Hout].
      * apply Habs.
        pose proof (occurs_in_prefix m _ a b (length t) Heq Hin) as Hocc.
        rewrite take_app_length in Hocc. exact Hocc.
      * assert ((length t - length a)%nat ∈ @nil nat) as Hk; [|inversion Hk].
        apply Hal; [lia|]. exists a.
        apply (f_equal (take (length t))) in Heq.
        rewrite take_app_length in Heq.
        rewrite take_app_ge in Heq by lia.
        rewrite take_app_le in Heq by lia. exact Heq.
  - intros k Hk _. apply elem_of_seq. lia.
Qed.

Lemma scan_sound m segs :
  forall t alive alive',
  tracked m t alive -> Forall (clean m) segs ->
  scan m alive segs = Some alive' ->
  tracked m (t ++ text_of segs) alive'.
Proof.
  induction segs as [|g segs IH]; intros t alive alive' Ht Hclean; cbn.
  - intros [= <-]. unfold text_of. cbn. rewrite app_nil_r. exact Ht.
  - apply Forall_cons in Hclean as [Hg Hclean].
    unfold text_of. cbn. rewrite app_assoc. fold (text_of segs).
    destruct g as [s|u]; cbn.
    + destruct (scan_lit m alive s) as [alive1|] eqn:E; [|discriminate].
      intros Hscan.
      apply (IH _ _ _ (scan_lit_sound _ _ _ _ _ Ht E) Hclean Hscan).
    + destruct alive; [|discriminate]. intros Hscan.
      apply (IH _ _ _ (tracked_any _ _ _ Ht Hg) Hclean Hscan).
Qed.

(** The marker is not in a text the scanner accepts. *)
Lemma scan_absent m segs alive :
  (0 < length m)%nat ->
  scan m [] segs = Some alive ->
  Forall (clean m) segs ->
  ~ occurs m (text_of segs).
Proof.
  intros Hm Hscan Hclean.
  apply (scan_sound m segs [] [] alive (tracked_nil m Hm) Hclean Hscan).
Qed.

(** With a marker that does not overlap itself, the first occurrence in
    [a ++ m ++ b] is the one after [a] as soon as [m] is not in [a]. *)
Lemma first_occurrence_scan m a b alive :
  (0 < length m)%nat ->
  scan m [] [Any a; Lit (removelast m)] = Some alive ->
  ~ occurs m a ->
  first_occurrence m (a ++ m ++ b) a b.
Proof.
  intros Hm Hscan Ha. apply first_occurrence_intro.
  replace (a ++ removelast m) with (text_of [Any a; Lit (removelast m)])
    by (unfold text_of; cbn; rewrite app_nil_r; reflexivity).
  apply (scan_absent m _ alive Hm Hscan).
  repeat constructor. exact Ha.
Qed.

End TextFacts.
(** ** The order of the clock readings *)

Section FloatOrder.

Lemma SFleb_trans (x y z : spec_float) :
  SFleb x y = true -> SFleb y z = true -> SFleb x z = true.
Proof.
  unfold SFleb.
  destruct x as [[]|[]| |[] mx ex], y as [[]|[]| |[] my ey],
    z as [[]|[]| |[] mz ez]; cbn; try reflexivity; try discriminate;
    rewrite ?Pos.compare_cont_spec; cbn [Pos.switch_Eq];
    repeat match goal with
           | |- context [(?a ?= ?b)%Z] => destruct (Z.compare_spec a b)
           | |- context [(?a ?= ?b)%positive] => destruct (Pos.compare_spec a b)
           end; cbn; try reflexivity; try discriminate; intros; lia.
Qed.

Lemma SFltb_leb (x y : spec_float) : SFltb x y = true -> SFleb y x = false.
Proof.
  unfold SFltb, SFleb.
  destruct x as [[]|[]| |[] mx ex], y as [[]|[]| |[] my ey];
    cbn; try reflexivity; try discriminate;
    rewrite ?Pos.compare_cont_spec; cbn [Pos.switch_Eq];
    repeat match goal with
           | |- context [(?a ?= ?b)%Z] => destruct (Z.compare_spec a b)
           | |- context [(?a ?= ?b)%positive] => destruct (Pos.compare_spec a b)
           end; cbn; try reflexivity; try discriminate; intros; lia.
Qed.

(** [a <= b] and [b <= c] give [a <= c], for binary64 numbers. *)
Lemma float_leb_trans (a b c : float) :
  (a <=? b)%float = true -> (b <=? c)%float = true -> (a <=? c)%float = true.
Proof. rewrite !leb_spec. apply SFleb_trans. Qed.

(** [a < b] excludes [b <= a]. *)
Lemma float_ltb_leb (a b : float) :
  (a <? b)%float = true -> (b <=? a)%float = false.
Proof. rewrite ltb_spec, leb_spec. apply SFltb_leb. Qed.

(** The expiries the handlers ask for are binary64 numbers. *)
Lemma float_of_int_hour : float_of_int 3600 = inr 3600%float.
Proof. vm_compute. reflexivity. Qed.

Lemma float_of_int_day : float_of_int (3600 * 24) = inr 86400%float.
Proof. vm_compute. reflexivity. Qed.

End FloatOrder.

(** ** Rounding to binary64 *)

Section Rounding64.

Import Binary64.

Lemma digits_pos m : 1 <= digits m.
Proof. unfold digits. lia. Qed.

Lemma digits_bounds m : 2 ^ (digits m - 1) <= Zpos m < 2 ^ digits m.
Proof.
  unfold digits. induction m as [m IH|m IH|]; cbn [digits2_pos].
  - rewrite Pos2Z.inj_succ.
    replace (Z.succ (Zpos (digits2_pos m)) - 1)
      with (Z.succ (Zpos (digits2_pos m) - 1)) by lia.
    rewrite !Z.pow_succ_r by lia. lia.
  - rewrite Pos2Z.inj_succ.
    replace (Z.succ (Zpos (digits2_pos m)) - 1)
      with (Z.succ (Zpos (digits2_pos m) - 1)) by lia.
    rewrite !Z.pow_succ_r by lia. lia.
  - cbn. lia.
Qed.

Lemma digits_unique m k : 2 ^ (k - 1) <= Zpos m < 2 ^ k -> digits m = k.
Proof.
  intros [Hlo Hhi]. pose proof (digits_bounds m) as [Dlo Dhi].
  pose proof (digits_pos m).
  assert (0 < k).
  { destruct (Z.le_gt_cases k 0) as [Hk|Hk]; [|exact Hk].
    assert (2 ^ k <= 2 ^ 0) by (apply Z.pow_le_mono_r; lia).
    cbn in *. lia. }
  destruct (Z.lt_trichotomy (digits m) k) as [Hlt|[Heq|Hgt]]; [|exact Heq|].
  - assert (2 ^ digits m <= 2 ^ (k - 1)) by (apply Z.pow_le_mono_r; lia). lia.
  - assert (2 ^ k <= 2 ^ (digits m - 1)) by (apply Z.pow_le_mono_r; lia). lia.
Qed.

Lemma digits_le m m' : (m <= m')%positive -> digits m <= digits m'.
Proof.
  intros Hle. pose proof (digits_bounds m) as [Dlo Dhi].
  pose proof (digits_bounds m') as [Dlo' Dhi'].
  pose proof (digits_pos m'). 
  destruct (Z.le_gt_cases (digits m) (digits m')) as [H'|H']; [exact H'|].
  assert (2 ^ digits m' <= 2 ^ (digits m - 1)) by (apply Z.pow_le_mono_r; lia).
  lia.
Qed.

Lemma iter_xO m k : Zpos (Pos.iter xO m k) = Zpos m * 2 ^ Zpos k.
Proof.
  induction k as [|k IH] using Pos.peano_ind.
  - cbn. lia.
  - rewrite Pos.iter_succ, Pos2Z.inj_succ, Z.pow_succ_r by lia.
    rewrite Pos2Z.inj_xO, IH. lia.
Qed.

Lemma digits_shift m k : digits (Pos.iter xO m k) = digits m + Zpos k.
Proof.
  apply digits_unique. rewrite iter_xO.
  pose proof (digits_bounds m) as [Dlo Dhi]. pose proof (digits_pos m).
  replace (digits m + Zpos k - 1) with ((digits m - 1) + Zpos k) by lia.
  rewrite !Z.pow_add_r by lia.
  assert (0 < 2 ^ Zpos k) by (apply Z.pow_pos_nonneg; lia).
  nia.
Qed.

(** Shifting to the right. *)
Lemma shr_1_m r :
  0 <= shr_m r -> shr_m (shr_1 r) = shr_m r / 2 /\ 0 <= shr_m (shr_1 r).
Proof.
  destruct r as [m rb sb]. cbn [shr_m]. intros Hm.
  destruct m as [|[p|p|]|p]; cbn [shr_1 shr_m]; [| | | |lia].
  - split; [reflexivity|lia].
  - split; [|lia]. apply (Z.div_unique _ 2 _ 1); lia.
  - split; [|lia]. apply (Z.div_unique _ 2 _ 0); lia.
  - split; [reflexivity|lia].
Qed.

Lemma iter_shr_m p : forall r,
  0 <= shr_m r ->
  shr_m (SpecFloat.iter_pos shr_1 p r) = shr_m r / 2 ^ Zpos p
  /\ 0 <= shr_m (SpecFloat.iter_pos shr_1 p r).
Proof.
  induction p as [p IH|p IH|]; intros r Hr; cbn [SpecFloat.iter_pos].
  - destruct (shr_1_m r Hr) as [E1 P1].
    destruct (IH (shr_1 r) P1) as [E2 P2].
    destruct (IH _ P2) as [E3 P3]. split; [|exact P3].
    assert (0 < 2 ^ Zpos p) by (apply Z.pow_pos_nonneg; lia).
    rewrite E3, E2, E1. rewrite !Z.div_div by lia.
    f_equal. replace (Zpos p~1) with (Zpos p + Zpos p + 1) by lia.
    rewrite !Z.pow_add_r by lia. change (2 ^ 1) with 2. ring.
  - destruct (IH r Hr) as [E2 P2].
    destruct (IH _ P2) as [E3 P3]. split; [|exact P3].
    assert (0 < 2 ^ Zpos p) by (apply Z.pow_pos_nonneg; lia).
    rewrite E3, E2. rewrite !Z.div_div by lia.
    f_equal. replace (Zpos p~0) with (Zpos p + Zpos p) by lia.
    rewrite !Z.pow_add_r by lia. ring.
  - destruct (shr_1_m r Hr) as [E1 P1]. split; [|exact P1].
    rewrite E1. reflexivity.
Qed.

Lemma round_bounds m l :
  m <= round_nearest_even m l <= m + 1.
Proof.
  destruct l as [|[]]; cbn; try lia. destruct (Z.even m); lia.
Qed.

Lemma fexp_64 e : fexp 53 1024 e = fexp64 e.
Proof. reflexivity. Qed.

Lemma digitsZ_pos p : digitsZ (Zpos p) = digits p.
Proof. reflexivity. Qed.

Lemma shr_shape r e n :
  0 <= shr_m r ->
  exists r', shr r e n = (r', if 0 <? n then e + n else e)
             /\ 0 <= shr_m r'
             /\ (n <= 0 -> r' = r)
             /\ (0 < n -> shr_m r' = shr_m r / 2 ^ n).
Proof.
  intros Hr. destruct n as [|p|p]; cbn [shr Z.ltb Z.compare].
  - exists r. repeat split; auto; lia.
  - destruct (iter_shr_m p r Hr) as [E P].
    eexists. split; [reflexivity|]. split; [exact P|]. split; [lia|].
    intros _. exact E.
  - exists r. repeat split; auto; lia.
Qed.

Lemma binary_round_aux_shape s m e :
  0 <= m ->
  let n := fexp64 (digitsZ m + e) - e in
  let e1 := if 0 <? n then e + n else e in
  exists m2,
    0 <= m2
    /\ (n <= 0 -> m2 = m)
    /\ (0 < n -> m / 2 ^ n <= m2 <= m / 2 ^ n + 1)
    /\ let n2 := fexp64 (digitsZ m2 + e1) - e1 in
       binary_round_aux 53 1024 s m e loc_Exact
       = outcome s (if 0 <? n2 then m2 / 2 ^ n2 else m2)
           (if 0 <? n2 then e1 + n2 else e1).
Proof.
  intros Hm n e1.
  destruct (shr_shape (shr_record_of_loc m loc_Exact) e n Hm)
    as (r1 & E1 & P1 & Hsame & Hdiv).
  set (m2 := round_nearest_even (shr_m r1) (loc_of_shr_record r1)).
  pose proof (round_bounds (shr_m r1) (loc_of_shr_record r1)) as Hb.
  fold m2 in Hb.
  assert (0 <= m2) as Hm2 by lia.
  exists m2. split; [exact Hm2|]. split; [|split].
  - intros Hn. unfold m2. rewrite (Hsame Hn). reflexivity.
  - intros Hn. rewrite (Hdiv Hn) in Hb. exact Hb.
  - intros n2.
    destruct (shr_shape (shr_record_of_loc m2 loc_Exact) e1 n2 Hm2)
      as (r2 & E2 & P2 & Hsame2 & Hdiv2).
    unfold binary_round_aux, shr_fexp.
    change (fexp 53 1024 (Zdigits2 m + e) - e) with n. rewrite E1.
    fold e1. fold m2.
    change (fexp 53 1024 (Zdigits2 m2 + e1) - e1) with n2. rewrite E2.
    unfold outcome.
    destruct (0 <? n2) eqn:En2.
    + apply Z.ltb_lt in En2. rewrite (Hdiv2 En2). cbn [shr_m shr_record_of_loc].
      reflexivity.
    + apply Z.ltb_ge in En2. rewrite (Hsame2 En2). cbn [shr_m shr_record_of_loc].
      reflexivity.
Qed.

Lemma digits_of_lt m j : Zpos m < 2 ^ j -> digits m <= j.
Proof.
  intros H. pose proof (digits_bounds m) as [Dlo _]. pose proof (digits_pos m).
  destruct (Z.le_gt_cases (digits m) j) as [|Hgt]; [assumption|].
  assert (2 ^ j <= 2 ^ (digits m - 1)).
  { destruct (Z.le_gt_cases 0 j).
    - apply Z.pow_le_mono_r; lia.
    - rewrite (Z.pow_neg_r 2 j) by lia. apply Z.pow_nonneg. lia. }
  lia.
Qed.

Lemma lt_of_digits m j : digits m <= j -> Zpos m < 2 ^ j.
Proof.
  intros H. pose proof (digits_bounds m) as [_ Dhi]. pose proof (digits_pos m).
  assert (2 ^ digits m <= 2 ^ j) by (apply Z.pow_le_mono_r; lia). lia.
Qed.

Lemma ge_of_digits m j : j <= digits m -> 2 ^ (j - 1) <= Zpos m.
Proof.
  intros H. pose proof (digits_bounds m) as [Dlo _]. pose proof (digits_pos m).
  destruct (Z.le_gt_cases 0 (j - 1)).
  - assert (2 ^ (j - 1) <= 2 ^ (digits m - 1)) by (apply Z.pow_le_mono_r; lia).
    lia.
  - rewrite (Z.pow_neg_r 2 (j - 1)) by lia. lia.
Qed.

Lemma valid_canonical s m e :
  valid_binary (S754_finite s m e) = true -> canonical m e.
Proof.
  cbn [valid_binary]. unfold bounded, canonical_mantissa.
  rewrite andb_true_iff, Z.eqb_eq, Z.leb_le. intros [H1 H2].
  split; [exact H1|exact H2].
Qed.

(** [binary_round] on a mantissa that needs no rounding, and on one that
    is shifted to the right. *)
Lemma binary_round_shape s (M : positive) e :
  let e1 := fexp64 (digits M + e) in
  (e1 < e
   /\ binary_round 53 1024 s M e
      = outcome s (Zpos M * 2 ^ (e - e1)) e1)
  \/ (e1 = e /\ binary_round 53 1024 s M e = outcome s (Zpos M) e)
  \/ (e < e1
      /\ exists m2,
           Zpos M / 2 ^ (e1 - e) <= m2 <= Zpos M / 2 ^ (e1 - e) + 1
           /\ let n2 := fexp64 (digitsZ m2 + e1) - e1 in
              binary_round 53 1024 s M e
              = outcome s (if 0 <? n2 then m2 / 2 ^ n2 else m2)
                  (if 0 <? n2 then e1 + n2 else e1)).
Proof.
  intros e1. unfold binary_round.
  change (fexp 53 1024 (Zpos (digits2_pos M) + e)) with e1.
  assert (shl_align M e e1
          = if e1 <? e then (Pos.iter xO M (Z.to_pos (e - e1)), e1)
            else (M, e)) as ->.
  { unfold shl_align.
    destruct (e1 - e) as [|p|p] eqn:Ed, (e1 <? e) eqn:El;
      try apply Z.ltb_lt in El; try apply Z.ltb_ge in El; try lia;
      try reflexivity.
    replace (e - e1) with (Zpos p) by lia. reflexivity. }
  destruct (Z.lt_trichotomy e1 e) as [Hlt|[Heq|Hgt]].
  - left. split; [exact Hlt|].
    rewrite (proj2 (Z.ltb_lt e1 e) Hlt).
    set (p := Z.to_pos (e - e1)).
    assert (Zpos p = e - e1) as Hp by (unfold p; lia).
    destruct (binary_round_aux_shape s (Zpos (Pos.iter xO M p)) e1 ltac:(lia))
      as (m2 & _ & Hsame & _ & Hres).
    cbn zeta in Hsame, Hres. rewrite digitsZ_pos, digits_shift in Hsame, Hres.
    replace (digits M + Zpos p + e1) with (digits M + e) in Hsame, Hres by lia.
    fold e1 in Hsame, Hres.
    replace (e1 - e1) with 0 in Hsame, Hres by lia.
    specialize (Hsame ltac:(lia)). subst m2.
    change (0 <? 0) with false in Hres. cbn iota in Hres.
    rewrite digitsZ_pos, digits_shift in Hres.
    replace (digits M + Zpos p + e1) with (digits M + e) in Hres by lia.
    fold e1 in Hres. replace (e1 - e1) with 0 in Hres by lia.
    change (0 <? 0) with false in Hres.
    rewrite Hres, iter_xO, Hp. reflexivity.
  - right. left. split; [exact Heq|].
    rewrite (proj2 (Z.ltb_ge e1 e)) by lia.
    destruct (binary_round_aux_shape s (Zpos M) e ltac:(lia))
      as (m2 & _ & Hsame & _ & Hres).
    cbn zeta in Hsame, Hres. rewrite digitsZ_pos in Hsame, Hres.
    fold e1 in Hsame, Hres. rewrite Heq in Hsame, Hres.
    replace (e - e) with 0 in Hsame, Hres by lia.
    specialize (Hsame ltac:(lia)). subst m2.
    change (0 <? 0) with false in Hres. cbn iota in Hres.
    rewrite digitsZ_pos in Hres. fold e1 in Hres. rewrite Heq in Hres.
    replace (e - e) with 0 in Hres by lia.
    change (0 <? 0) with false in Hres. exact Hres.
  - right. right. split; [exact Hgt|].
    rewrite (proj2 (Z.ltb_ge e1 e)) by lia.
    destruct (binary_round_aux_shape s (Zpos M) e ltac:(lia))
      as (m2 & _ & _ & Hdiv & Hres).
    cbn zeta in Hdiv, Hres. rewrite digitsZ_pos in Hdiv, Hres.
    fold e1 in Hdiv, Hres.
    assert ((0 <? e1 - e) = true) as Hn by (apply Z.ltb_lt; lia).
    rewrite Hn in Hres. replace (e + (e1 - e)) with e1 in Hres by lia.
    exists m2. split; [apply Hdiv; lia|]. exact Hres.
Qed.

Lemma outcome_signed s m e : 0 <= m -> signed s (outcome s m e).
Proof.
  intros Hm. unfold outcome. destruct m as [|p|p]; [reflexivity| |lia].
  destruct (e <=? 971); reflexivity.
Qed.

Lemma outcome_below s mx ex m e :
  ex <= 971 -> 0 <= m -> (e < ex \/ (e = ex /\ m <= Zpos mx)) ->
  below s mx ex (outcome s m e).
Proof.
  intros Hex Hm H. unfold outcome. destruct m as [|p|p]; [reflexivity| |lia].
  assert ((e <=? 971) = true) as -> by (apply Z.leb_le; lia).
  split; [reflexivity|exact H].
Qed.

Lemma outcome_above s mx ex m e :
  0 < m -> (ex < e \/ (e = ex /\ Zpos mx <= m)) ->
  above s mx ex (outcome s m e).
Proof.
  intros Hm H. unfold outcome. destruct m as [|p|p]; [lia| |lia].
  destruct (e <=? 971); [split; [reflexivity|exact H]|reflexivity].
Qed.

Lemma pow2_53 : 2 ^ 53 = 9007199254740992.
Proof. reflexivity. Qed.

Lemma pow2_52 : 2 ^ 52 = 4503599627370496.
Proof. reflexivity. Qed.

(** The second shift of a rounding: none for a mantissa of at most 53
    digits, one digit for the mantissa 2^53. *)
Lemma second_shift m2 e1 :
  -1074 <= e1 -> 0 <= m2 <= 2 ^ 53 ->
  let n2 := fexp64 (digitsZ m2 + e1) - e1 in
  (m2 < 2 ^ 53
   /\ (if 0 <? n2 then m2 / 2 ^ n2 else m2) = m2
   /\ (if 0 <? n2 then e1 + n2 else e1) = e1)
  \/ (m2 = 2 ^ 53
      /\ (if 0 <? n2 then m2 / 2 ^ n2 else m2) = 2 ^ 52
      /\ (if 0 <? n2 then e1 + n2 else e1) = e1 + 1).
Proof.
  intros He1 [Hlo Hhi] n2.
  destruct (Z.eq_dec m2 (2 ^ 53)) as [->|Hne].
  - right. split; [reflexivity|].
    assert (n2 = 1) as ->.
    { unfold n2. rewrite pow2_53.
      change (digitsZ 9007199254740992) with 54. unfold fexp64. lia. }
    change (0 <? 1) with true. cbn iota.
    split; [|reflexivity]. reflexivity.
  - left. split; [lia|].
    assert (n2 <= 0) as Hn2.
    { unfold n2, fexp64. destruct m2 as [|p|p]; [cbn; lia| |lia].
      rewrite digitsZ_pos.
      assert (digits p <= 53) by (apply digits_of_lt; lia). lia. }
    assert ((0 <? n2) = false) as -> by (apply Z.ltb_ge; exact Hn2).
    split; reflexivity.
Qed.

(** The shifted mantissa has at most 53 digits, and is rounded to at
    most 2^53. *)
Lemma shifted_small (M : positive) e e1 m2 :
  e1 = fexp64 (digits M + e) -> e < e1 ->
  Zpos M / 2 ^ (e1 - e) <= m2 <= Zpos M / 2 ^ (e1 - e) + 1 ->
  0 <= m2 <= 2 ^ 53.
Proof.
  intros He1 Hlt [Hlo Hhi].
  assert (0 < 2 ^ (e1 - e)) as Hpow by (apply Z.pow_pos_nonneg; lia).
  assert (0 <= Zpos M / 2 ^ (e1 - e)) by (apply Z.div_pos; lia).
  split; [lia|].
  assert (Zpos M / 2 ^ (e1 - e) < 2 ^ 53); [|lia].
  apply Z.div_lt_upper_bound; [exact Hpow|].
  rewrite <- Z.pow_add_r by lia.
  apply lt_of_digits. unfold fexp64 in He1. lia.
Qed.

Lemma round_below s (M mx : positive) ez ex :
  canonical mx ex -> ez <= ex -> Zpos M < Zpos mx * 2 ^ (ex - ez) ->
  below s mx ex (binary_round 53 1024 s M ez).
Proof.
  intros [Hc Hex] Hez HM.
  assert (0 < 2 ^ (ex - ez)) as Hk by (apply Z.pow_pos_nonneg; lia).
  assert (digits M <= digits mx + (ex - ez)) as Hd.
  { apply digits_of_lt. pose proof (digits_pos mx).
    rewrite Z.pow_add_r by lia.
    pose proof (digits_bounds mx) as [_ Hhi]. nia. }
  assert (-1074 <= ex /\ digits mx <= 53) as [Hexlo Hdmx]
    by (unfold fexp64 in Hc; lia).
  destruct (binary_round_shape s M ez)
    as [[Hlt ->]|[[Heq ->]|(Hlt & m2 & Hm2 & ->)]].
  - apply outcome_below; [exact Hex| |].
    + assert (0 < 2 ^ (ez - fexp64 (digits M + ez)))
        by (apply Z.pow_pos_nonneg; lia). lia.
    + left. lia.
  - apply outcome_below; [exact Hex|lia|].
    destruct (Z.eq_dec ez ex) as [->|Hne]; [|left; lia].
    right. split; [reflexivity|].
    replace (ex - ex) with 0 in HM by lia. change (2 ^ 0) with 1 in HM. lia.
  - set (e1 := fexp64 (digits M + ez)) in *.
    assert (e1 <= ex) as He1 by (unfold e1, fexp64 in *; lia).
    assert (-1074 <= e1) as He1lo by (unfold e1, fexp64; lia).
    pose proof (shifted_small M ez e1 m2 eq_refl Hlt Hm2) as Hsmall.
    destruct (second_shift m2 e1 He1lo Hsmall) as [(Hm & -> & ->)|(Hm & -> & ->)].
    + apply outcome_below; [exact Hex|lia|].
      destruct (Z.eq_dec e1 ex) as [Heq|Hne]; [|left; lia].
      right. split; [exact Heq|].
      assert (Zpos M / 2 ^ (e1 - ez) < Zpos mx); [|lia].
      apply Z.div_lt_upper_bound; [apply Z.pow_pos_nonneg; lia|].
      rewrite Heq. lia.
    + assert (e1 < ex) as Hlt'.
      { destruct (Z.eq_dec e1 ex) as [Heq|Hne]; [|lia]. exfalso.
        assert (Zpos M / 2 ^ (e1 - ez) < Zpos mx).
        { apply Z.div_lt_upper_bound; [apply Z.pow_pos_nonneg; lia|].
          rewrite Heq. lia. }
        pose proof (lt_of_digits mx 53 Hdmx). lia. }
      apply outcome_below; [exact Hex|rewrite pow2_52; lia|].
      destruct (Z.eq_dec (e1 + 1) ex) as [Heq|Hne]; [|left; lia].
      right. split; [exact Heq|].
      assert (digits mx = 53) as Hd53 by (unfold fexp64 in Hc; lia).
      apply (ge_of_digits mx 53). lia.
Qed.

Lemma round_above s (M mx : positive) ez ex :
  canonical mx ex -> ez <= ex -> Zpos mx * 2 ^ (ex - ez) <= Zpos M ->
  above s mx ex (binary_round 53 1024 s M ez).
Proof.
  intros [Hc Hex] Hez HM.
  assert (0 < 2 ^ (ex - ez)) as Hk by (apply Z.pow_pos_nonneg; lia).
  assert (digits mx + (ex - ez) <= digits M) as Hd.
  { pose proof (digits_pos mx). pose proof (digits_pos M).
    destruct (Z.le_gt_cases (digits mx + (ex - ez)) (digits M)) as [|Hgt];
      [assumption|exfalso].
    pose proof (lt_of_digits M (digits mx + (ex - ez) - 1) ltac:(lia)) as Hlt.
    replace (digits mx + (ex - ez) - 1) with ((digits mx - 1) + (ex - ez))
      in Hlt by lia.
    rewrite Z.pow_add_r in Hlt by lia.
    pose proof (digits_bounds mx) as [Hlo _]. nia. }
  assert (-1074 <= ex /\ digits mx <= 53) as [Hexlo Hdmx]
    by (unfold fexp64 in Hc; lia).
  destruct (binary_round_shape s M ez)
    as [[Hlt ->]|[[Heq ->]|(Hlt & m2 & Hm2 & ->)]].
  - exfalso. unfold fexp64 in *. lia.
  - assert (ez = ex) as -> by (unfold fexp64 in *; lia).
    apply outcome_above; [lia|]. right. split; [reflexivity|].
    replace (ex - ex) with 0 in HM by lia. change (2 ^ 0) with 1 in HM. lia.
  - set (e1 := fexp64 (digits M + ez)) in *.
    assert (ex <= e1) as He1 by (unfold e1, fexp64 in *; lia).
    assert (-1074 <= e1) as He1lo by lia.
    pose proof (shifted_small M ez e1 m2 eq_refl Hlt Hm2) as Hsmall.
    assert (0 < 2 ^ (e1 - ez)) as Hpow by (apply Z.pow_pos_nonneg; lia).
    assert ((e1 = ex /\ Zpos mx <= m2) \/ (ex < e1 /\ 2 ^ 52 <= m2)) as Hcase.
    { destruct (Z.eq_dec e1 ex) as [Heq|Hne].
      - left. split; [exact Heq|].
        assert (Zpos mx <= Zpos M / 2 ^ (e1 - ez)); [|lia].
        apply Z.div_le_lower_bound; [exact Hpow|]. rewrite Heq. lia.
      - right. split; [lia|].
        assert (e1 = digits M + ez - 53) as He1' by (unfold e1, fexp64 in *; lia).
        assert (2 ^ 52 <= Zpos M / 2 ^ (e1 - ez)); [|lia].
        apply Z.div_le_lower_bound; [exact Hpow|].
        rewrite <- Z.pow_add_r by lia.
        replace (e1 - ez + 52) with (digits M - 1) by lia.
        apply (ge_of_digits M (digits M)). lia. }
    rewrite pow2_52 in Hcase.
    destruct (second_shift m2 e1 He1lo Hsmall) as [(Hm & -> & ->)|(Hm & -> & ->)].
    + apply outcome_above; [lia|].
      destruct Hcase as [[Heq Hge]|[Hgt _]]; [right; auto|left; exact Hgt].
    + apply outcome_above; [rewrite pow2_52; lia|]. left. lia.
Qed.

Lemma round_signed s (M : positive) e :
  signed s (binary_round 53 1024 s M e).
Proof.
  destruct (binary_round_shape s M e)
    as [[Hlt ->]|[[Heq ->]|(Hlt & m2 & Hm2 & ->)]].
  - apply outcome_signed.
    assert (0 < 2 ^ (e - fexp64 (digits M + e)))
      by (apply Z.pow_pos_nonneg; lia). lia.
  - apply outcome_signed. lia.
  - set (e1 := fexp64 (digits M + e)) in *.
    assert (-1074 <= e1) as He1lo by (unfold e1, fexp64; lia).
    pose proof (shifted_small M e e1 m2 eq_refl Hlt Hm2) as Hsmall.
    destruct (second_shift m2 e1 He1lo Hsmall) as [(Hm & -> & ->)|(Hm & -> & ->)];
      apply outcome_signed; [lia|rewrite pow2_52; lia].
Qed.

Lemma binary_round_aux_signed s m e l :
  0 <= m -> signed s (binary_round_aux 53 1024 s m e l).
Proof.
  intros Hm. unfold binary_round_aux, shr_fexp.
  assert (0 <= shr_m (shr_record_of_loc m l)) as Hr
    by (destruct l as [|[]]; exact Hm).
  destruct (shr_shape (shr_record_of_loc m l) e
              (fexp 53 1024 (Zdigits2 m + e) - e) Hr)
    as (r1 & -> & P1 & _ & _).
  set (e1 := if 0 <? fexp 53 1024 (Zdigits2 m + e) - e
             then e + (fexp 53 1024 (Zdigits2 m + e) - e) else e).
  set (m2 := round_nearest_even (shr_m r1) (loc_of_shr_record r1)).
  pose proof (round_bounds (shr_m r1) (loc_of_shr_record r1)) as Hb.
  fold m2 in Hb.
  assert (0 <= shr_m (shr_record_of_loc m2 loc_Exact)) as Hr2 by (cbn; lia).
  destruct (shr_shape (shr_record_of_loc m2 loc_Exact) e1
              (fexp 53 1024 (Zdigits2 m2 + e1) - e1) Hr2)
    as (r2 & -> & P2 & _ & _).
  destruct (shr_m r2) as [|p|p]; [reflexivity| |lia].
  match goal with |- context [if ?b then _ else _] => destruct b end;
    reflexivity.
Qed.

Lemma binary_normalize_signed m e :
  0 <= m -> signed false (binary_normalize 53 1024 m e false).
Proof.
  intros Hm. destruct m as [|p|p]; [reflexivity| |lia].
  apply round_signed.
Qed.

Lemma SFopp_signed s r : signed s r -> signed (negb s) (SFopp r).
Proof. destruct r; cbn; congruence. Qed.

(** The binary64 number of a signed value has the sign. *)
Lemma SF2Prim_signed s r : signed s r -> signed s (Prim2SF (SF2Prim r)).
Proof.
  destruct r as [s'|s'| |s' m e]; cbn [signed]; intros H; subst.
  - destruct s; vm_compute; reflexivity.
  - destruct s; vm_compute; reflexivity.
  - destruct H.
  - unfold SF2Prim.
    assert (signed false (Prim2SF (Z.ldexp (of_uint63 (Uint63.of_Z (Zpos m))) e)))
      as Hpos.
    { rewrite Z_ldexp_spec, of_uint63_spec.
      pose proof (binary_normalize_signed
                    (Uint63.to_Z (Uint63.of_Z (Zpos m))) 0) as Hn.
      pose proof (Uint63.to_Z_bounded (Uint63.of_Z (Zpos m))) as Hb.
      specialize (Hn ltac:(lia)).
      change (binary_normalize prec emax) with (binary_normalize 53 1024).
      destruct (binary_normalize 53 1024 _ 0 false) as [s1|s1| |s1 m1 e1];
        cbn [SFldexp]; try exact Hn.
      cbn [signed] in Hn. subst s1. apply round_signed. }
    destruct s; cbn iota; [|exact Hpos].
    rewrite opp_spec. apply (SFopp_signed false), Hpos.
Qed.

Lemma SFdiv_core_nonneg (p : positive) e1 e2 :
  0 <= fst (fst (SFdiv_core_binary 53 1024 (Zpos p) e1 1 e2)).
Proof.
  unfold SFdiv_core_binary.
  set (s := e1 - e2 - Z.min _ _).
  set (m' := match s with Z0 => Zpos p | Zpos _ => Z.shiftl (Zpos p) s | Zneg _ => 0 end).
  assert (0 <= m') as Hm.
  { unfold m'. destruct s; [lia| |lia]. apply Z.shiftl_nonneg. lia. }
  pose proof (Z_div_mod m' 1 ltac:(lia)) as Hd.
  destruct (Z.div_eucl m' 1) as [q r]. cbn [fst]. lia.
Qed.

(** The binary64 number of an integer that is not positive. *)
Lemma decimal_to_float_nonpositive (t : Z) :
  t <= 0 -> is_infinity (decimal_to_float t 0) = false ->
  nonpositive (Prim2SF (decimal_to_float t 0)).
Proof.
  intros Ht Hinf.
  destruct t as [|p|p]; [vm_compute; exact I|lia|].
  assert (signed true (Prim2SF (decimal_to_float (Zneg p) 0))) as Hs.
  { unfold decimal_to_float.
    change (float_of_Z (10 ^ Z.of_nat 0)) with (S754_finite false 1 0).
    apply SF2Prim_signed. cbn [float_of_Z SFdiv xorb].
    pose proof (SFdiv_core_nonneg p 0 0) as Hq.
    change prec with 53 in *. change emax with 1024 in *.
    destruct (SFdiv_core_binary 53 1024 (Zpos p) 0 1 0) as [[mz ez] lz].
    cbn [fst] in Hq. apply binary_round_aux_signed, Hq. }
  unfold is_infinity in Hinf. rewrite FloatAxioms.eqb_spec, abs_spec in Hinf.
  destruct (Prim2SF (decimal_to_float (Zneg p) 0)) as [s'|s'| |s' m e];
    cbn [signed nonpositive] in *.
  - exact I.
  - vm_compute in Hinf. discriminate.
  - exact Hs.
  - exact Hs.
Qed.

Lemma shl_align_fst m e e' :
  e' <= e -> Zpos (fst (shl_align m e e')) = Zpos m * 2 ^ (e - e').
Proof.
  intros He. unfold shl_align.
  destruct (e' - e) as [|p|p] eqn:Ed; cbn [fst]; [|lia|].
  - replace (e - e') with 0 by lia. cbn. lia.
  - rewrite iter_xO. replace (e - e') with (Zpos p) by lia. reflexivity.
Qed.

Lemma SFleb_finite_refl s m e :
  SFleb (S754_finite s m e) (S754_finite s m e) = true.
Proof.
  unfold SFleb. cbn [SFcompare].
  rewrite Z.compare_refl, Pos.compare_cont_refl. destruct s; reflexivity.
Qed.

Lemma below_leb mx ex r :
  below false mx ex r -> SFleb r (S754_finite false mx ex) = true.
Proof.
  destruct r as [s|s| |s m e]; cbn [below]; try contradiction.
  - intros _. reflexivity.
  - intros [-> H]. unfold SFleb. cbn [SFcompare].
    rewrite Pos.compare_cont_spec. cbn [Pos.switch_Eq].
    destruct (Z.compare_spec e ex); [|reflexivity|lia].
    destruct (Pos.compare_spec m mx); [reflexivity|reflexivity|lia].
Qed.

Lemma above_leb mx ex r :
  above true mx ex r -> SFleb r (S754_finite true mx ex) = true.
Proof.
  destruct r as [s|s| |s m e]; cbn [above]; try contradiction.
  - intros ->. reflexivity.
  - intros [-> H]. unfold SFleb. cbn [SFcompare].
    rewrite Pos.compare_cont_spec. cbn [Pos.switch_Eq].
    destruct (Z.compare_spec e ex); [|lia|reflexivity].
    destruct (Pos.compare_spec m mx); [reflexivity|lia|reflexivity].
Qed.

Lemma negative_leb mx ex r :
  signed true r -> SFleb r (S754_finite false mx ex) = true.
Proof.
  destruct r as [s|s| |s m e]; cbn [signed]; try contradiction;
    intros ->; reflexivity.
Qed.

(** Adding zero or a negative number gives no more, at the level of the
    specification of binary64. *)
Lemma SFadd_nonpositive (X Y : spec_float) :
  valid_binary X = true -> X <> S754_nan ->
  valid_binary Y = true -> nonpositive Y ->
  SFleb (SFadd 53 1024 X Y) X = true.
Proof.
  intros HvX HX HvY HY.
  destruct Y as [sy|sy| |sy my ey]; cbn [nonpositive] in HY; try contradiction.
  - destruct X as [sx|sx| |sx mx ex]; cbn [SFadd].
    + destruct sx, sy; reflexivity.
    + destruct sx; reflexivity.
    + congruence.
    + apply SFleb_finite_refl.
  - subst sy.
    destruct X as [sx|sx| |sx mx ex]; cbn [SFadd].
    + destruct sx; reflexivity.
    + destruct sx; reflexivity.
    + congruence.
    + pose proof (valid_canonical _ _ _ HvX) as Hc.
      set (ez := Z.min ex ey).
      assert (ez <= ex) as Hez by (unfold ez; lia).
      assert (ez <= ey) as Hez' by (unfold ez; lia).
      pose proof (shl_align_fst mx ex ez Hez) as Hx.
      pose proof (shl_align_fst my ey ez Hez') as Hy.
      set (Mx := fst (shl_align mx ex ez)) in *.
      set (My := fst (shl_align my ey ez)) in *.
      assert (0 < 2 ^ (ey - ez)) by (apply Z.pow_pos_nonneg; lia).
      destruct sx; cbn [cond_Zopp].
      * destruct (- Zpos Mx + - Zpos My) as [|M|M] eqn:Es; [lia|lia|].
        cbn [binary_normalize]. apply above_leb, round_above; [exact Hc|exact Hez|].
        lia.
      * destruct (Zpos Mx + - Zpos My) as [|M|M] eqn:Es; cbn [binary_normalize].
        -- reflexivity.
        -- apply below_leb, round_below; [exact Hc|exact Hez|]. lia.
        -- apply negative_leb, round_signed.
Qed.

(** [x + y] for a [y] that is zero or negative stays below what [x] is
    below. *)
Lemma float_add_below (x x' y : float) :
  nonpositive (Prim2SF y) ->
  (x <=? x')%float = true -> (x + y <=? x')%float = true.
Proof.
  rewrite !leb_spec, add_spec. intros Hy Hle.
  apply (SFleb_trans _ (Prim2SF x)); [|exact Hle].
  apply SFadd_nonpositive;
    [apply Prim2SF_valid| |apply Prim2SF_valid|exact Hy].
  intros E. rewrite E in Hle. discriminate.
Qed.

(** [x + n] for an [int] [n] that is not positive stays below what [x]
    is below. *)
Lemma float_add_nonpositive (x x' y : float) (t : Z) :
  t <= 0 -> float_of_int t = inr y ->
  (x <=? x')%float = true -> (x + y <=? x')%float = true.
Proof.
  intros Ht Hy. apply float_add_below.
  unfold float_of_int in Hy. cbn zeta in Hy.
  destruct (is_infinity (decimal_to_float t 0)) eqn:Hinf; [discriminate|].
  injection Hy as <-. apply decimal_to_float_nonpositive; assumption.
Qed.

End Rounding64.

(** ** Trip duration *)

(** C8. For every travel request, [duration] is
    [max(1, (return_date - depart_date).days + 1)], so it is at least 1;
    when the departure is not after the return it is
    [(return_date - depart_date).days + 1], and equal dates give 1. *)
Theorem duration_spec (r : TravelRequest.t) :
  let depart := TravelRequest.depart_date r in
  let back := TravelRequest.return_date r in
  TravelRequest.duration r = Z.max 1 (days_between back depart + 1)
  /\ 1 <= TravelRequest.duration r
  /\ (toordinal depart <= toordinal back ->
      TravelRequest.duration r = days_between back depart + 1)
  /\ (toordinal depart = toordinal back -> TravelRequest.duration r = 1).
Proof.
  unfold TravelRequest.duration, days_between; cbn zeta.
  repeat split; intros; lia.
Qed.

Lemma duration_spec_witness :
  toordinal (TravelRequest.depart_date Samples.day_trip)
  = toordinal (TravelRequest.return_date Samples.day_trip)
  /\ TravelRequest.duration Samples.day_trip = 1.
Proof.
  split; [reflexivity|].
  destruct (duration_spec Samples.day_trip) as (_ & _ & _ & Heq).
  apply Heq. reflexivity.
Defined.

(** ** The expiring cache *)

Section CacheProperties.

Context {PyObj : Type}.
Variable has_dict_or_is_collection : PyObj -> bool.
Variables json_dumps_default json_dumps : PyObj -> exc str.
Variable json_dumps_str : PyObj -> str.
Variable json_loads : str -> exc PyObj.
Variable of_str : str -> PyObj.

Let serialize :=
  Cache._serialize PyObj has_dict_or_is_collection json_dumps_default
    json_dumps json_dumps_str.
Let deserialize := Cache._deserialize PyObj json_loads of_str.
Let cache_get := Cache.get PyObj json_loads of_str.
Let cache_set :=
  Cache.set PyObj has_dict_or_is_collection json_dumps_default json_dumps
    json_dumps_str.

Lemma get_live (cache : gmap str Cache.entry) key e now :
  cache !! key = Some e ->
  (Cache.expires_at e <=? now)%float = false ->
  cache_get cache key now = inr (Some (deserialize (Cache.value e)), cache).
Proof.
  intros Hk Hlt. unfold cache_get, Cache.get. rewrite Hk, Hlt. reflexivity.
Qed.

Lemma get_expired (cache : gmap str Cache.entry) key e now :
  cache !! key = Some e ->
  (Cache.expires_at e <=? now)%float = true ->
  cache_get cache key now = inr (None, delete key cache).
Proof.
  intros Hk Hle. unfold cache_get, Cache.get. rewrite Hk, Hle.
  unfold Cache.del_item. rewrite Hk. reflexivity.
Qed.

Lemma get_returns_live (cache cache' : gmap str Cache.entry) key now v :
  cache_get cache key now = inr (Some v, cache') ->
  exists e, cache !! key = Some e
            /\ (Cache.expires_at e <=? now)%float = false
            /\ v = deserialize (Cache.value e) /\ cache' = cache.
Proof.
  unfold cache_get, Cache.get. destruct (cache !! key) as [e|] eqn:Hk.
  - destruct (Cache.expires_at e <=? now)%float eqn:E.
    + unfold Cache.del_item. rewrite Hk. cbn. discriminate.
    + intros [= <- <-]. exists e. auto.
  - cbn. discriminate.
Qed.

(** [set] stores the entry when the expiry converts to a binary64 number,
    and raises and stores nothing otherwise. *)
Lemma set_spec (cache : gmap str Cache.entry) k (v : PyObj) (t : Z) now :
  match float_of_int t with
  | inr ft =>
      cache_set cache k v t now
      = inr (<[k := Cache.Entry (serialize v) (now + ft)%float]> cache)
  | inl e => cache_set cache k v t now = inl e /\ e = OverflowError
  end.
Proof.
  unfold cache_set, Cache.set.
  destruct (float_of_int t) as [e|ft] eqn:E; [|reflexivity].
  split; [reflexivity|]. unfold float_of_int in E.
  destruct (is_infinity _); [|discriminate]. injection E as <-. reflexivity.
Qed.

(** C1. After [set(k, v, t)] at the clock reading [now] the mapping holds,
    for [k], the serialized [v] with [expires_at = now + t], the sum the
    code computes: the binary64 sum of the reading and of the expiry
    converted to a binary64 number.  A [get(k)] at a reading strictly
    before [expires_at] returns the deserialized stored value and leaves
    the mapping alone; a [get(k)] at a reading at or after [expires_at]
    returns [None] and removes the entry; and whatever the mapping, [get]
    only ever returns the value of an entry that has not expired. *)
Theorem set_then_get (cache : gmap str Cache.entry) (k : str) (v : PyObj)
    (t : Z) (t_float now : float) :
  0 < t ->
  float_of_int t = inr t_float ->
  let expiresAt := (now + t_float)%float in
  exists cache',
    cache_set cache k v t now = inr cache'
    /\ cache' !! k = Some (Cache.Entry (serialize v) expiresAt)
    /\ (forall now', (now' <? expiresAt)%float = true ->
          cache_get cache' k now'
          = inr (Some (deserialize (serialize v)), cache'))
    /\ (forall now', (expiresAt <=? now')%float = true ->
          cache_get cache' k now' = inr (None, delete k cache')
          /\ delete k cache' !! k = None)
    /\ (forall (c c' : gmap str Cache.entry) key now' r,
          cache_get c key now' = inr (Some r, c') ->
          exists e, c !! key = Some e
                    /\ (Cache.expires_at e <=? now')%float = false).
Proof.
  intros _ Ht expiresAt.
  pose proof (set_spec cache k v t now) as Hset. rewrite Ht in Hset.
  eexists. split; [exact Hset|].
  assert (Hk : <[k := Cache.Entry (serialize v) expiresAt]> cache !! k
               = Some (Cache.Entry (serialize v) expiresAt))
    by apply lookup_insert_eq.
  split; [exact Hk|]. split; [|split].
  - intros now' Hlt. apply (get_live _ _ _ _ Hk).
    apply float_ltb_leb. exact Hlt.
  - intros now' Hle. split.
    + apply (get_expired _ _ _ _ Hk). exact Hle.
    + apply lookup_delete_eq.
  - intros c c' key now' r Hget.
    destruct (get_returns_live _ _ _ _ _ Hget) as (e & He & Hlt & _).
    exists e. auto.
Qed.

(** *** The sweep *)

Lemma del_items_spec (keys : list str) :
  forall cache : gmap str Cache.entry,
  NoDup keys ->
  (forall key, key ∈ keys -> is_Some (cache !! key)) ->
  exists cache', Cache.del_items keys cache = inr cache'
    /\ forall key, cache' !! key
                   = if decide (key ∈ keys) then None else cache !! key.
Proof.
  induction keys as [|k keys IH]; intros cache Hnd Hin.
  - exists cache. split; [reflexivity|]. intros key.
    destruct (decide (key ∈ [])) as [H|_]; [inversion H|reflexivity].
  - apply NoDup_cons in Hnd as [Hk Hnd].
    destruct (Hin k) as [e He]; [left|].
    cbn. unfold Cache.del_item. rewrite He. cbn.
    destruct (IH (delete k cache) Hnd) as (cache' & Hrun & Hlook).
    { intros key Hkey. rewrite lookup_delete_ne.
      - apply Hin. right. exact Hkey.
      - intros ->. contradiction. }
    exists cache'. split; [exact Hrun|]. intros key. rewrite Hlook.
    destruct (decide (key = k)) as [->|Hne].
    + destruct (decide (k ∈ keys)); [contradiction|].
      rewrite lookup_delete_eq.
      destruct (decide (k ∈ k :: keys)) as [|Hn]; [reflexivity|].
      exfalso. apply Hn. left.
    + rewrite lookup_delete_ne by congruence.
      destruct (decide (key ∈ keys)) as [Hi|Hi];
        destruct (decide (key ∈ k :: keys)) as [Hj|Hj]; try reflexivity.
      * exfalso. apply Hj. right. exact Hi.
      * apply elem_of_cons in Hj as [?|?]; contradiction.
Qed.

Lemma NoDup_fst_filter {A B} (f : A * B -> bool) (l : list (A * B)) :
  NoDup (map fst l) -> NoDup (map fst (List.filter f l)).
Proof.
  induction l as [|x l IH]; cbn; intros Hnd; [constructor|].
  apply NoDup_cons in Hnd as [Hx Hnd].
  destruct (f x); cbn; [|auto].
  apply NoDup_cons. split; [|auto].
  intros Hin. apply Hx.
  apply list_elem_of_In, in_map_iff in Hin as (y & Hy & Hin).
  apply list_elem_of_In, in_map_iff. exists y. split; [exact Hy|].
  apply filter_In in Hin. tauto.
Qed.

Lemma elem_of_keys_to_remove (cache : gmap str Cache.entry) now key :
  key ∈ Cache.keys_to_remove cache now
  <-> exists e, cache !! key = Some e
                /\ (Cache.expires_at e <=? now)%float = true.
Proof.
  unfold Cache.keys_to_remove. rewrite list_elem_of_In, in_map_iff. split.
  - intros ([k e] & <- & Hin). apply filter_In in Hin as [Hin Hexp].
    apply list_elem_of_In, elem_of_map_to_list in Hin.
    exists e. split; [exact Hin|exact Hexp].
  - intros (e & He & Hexp). exists (key, e). split; [reflexivity|].
    apply filter_In. split.
    + apply list_elem_of_In, elem_of_map_to_list. exact He.
    + exact Hexp.
Qed.

(** C9. One pass of the sweep completes, removes exactly the entries with
    [expires_at <= now], and leaves every other entry as it was: same
    key, same serialized value, same expiry. *)
Theorem cleanup_expired_spec (cache : gmap str Cache.entry) (now : float) :
  exists cache',
    Cache._cleanup_expired cache now = inr cache'
    /\ (forall key e, cache !! key = Some e ->
          (Cache.expires_at e <=? now)%float = true -> cache' !! key = None)
    /\ (forall key e, cache !! key = Some e ->
          (Cache.expires_at e <=? now)%float <> true ->
          cache' !! key = Some e)
    /\ (forall key, cache !! key = None -> cache' !! key = None).
Proof.
  unfold Cache._cleanup_expired.
  destruct (del_items_spec (Cache.keys_to_remove cache now) cache)
    as (cache' & Hrun & Hlook).
  - apply NoDup_ListNoDup. unfold Cache.keys_to_remove.
    apply NoDup_ListNoDup, NoDup_fst_filter, NoDup_fst_map_to_list.
  - intros key Hin. apply elem_of_keys_to_remove in Hin as (e & He & _).
    rewrite He. eauto.
  - exists cache'. split; [exact Hrun|].
    split; [|split].
    + intros key e He Hexp. rewrite Hlook.
      destruct (decide (key ∈ Cache.keys_to_remove cache now)) as [|Hn];
        [reflexivity|].
      exfalso. apply Hn, elem_of_keys_to_remove. eauto.
    + intros key e He Hexp. rewrite Hlook.
      destruct (decide (key ∈ Cache.keys_to_remove cache now)) as [Hi|];
        [|exact He].
      apply elem_of_keys_to_remove in Hi as (e' & He' & Hexp').
      rewrite He in He'. injection He' as <-. contradiction.
    + intros key He. rewrite Hlook.
      destruct (decide (key ∈ Cache.keys_to_remove cache now)) as [Hi|];
        [reflexivity|exact He].
Qed.

End CacheProperties.

(** ** The parser returns, and what it returns *)

Section ParserFacts.

Import Text LLM ParseSpec.

Implicit Types (m s a b text : str) (req : TravelRequest.t).

Lemma item_split1_found m s :
  contains m s = true ->
  exists a b, first_occurrence m s a b /\ item (split1 m s) 1 = inr b.
Proof.
  intros H. destruct (split1_contains _ _ H) as (a & b & Hf & Hs).
  exists a, b. split; [exact Hf|]. rewrite Hs. reflexivity.
Qed.

Lemma item_split1_head m s : exists a, item (split1 m s) 0 = inr a.
Proof.
  destruct (split1_head m s) as (a & rest & ->). exists a. reflexivity.
Qed.

Lemma find_day_content_total text day days all markers :
  exists c, find_day_content text day days all markers = inr c.
Proof.
  induction markers as [|m markers IH]; cbn; [eauto|].
  destruct (contains m text) eqn:E; [|exact IH].
  destruct (split1_contains _ _ E) as (a & b & _ & ->). cbn.
  destruct (scan_next_days day days all b); eauto.
Qed.

Lemma find_day_content_eq text days day :
  find_day_content text day days (day_markers day) (day_markers day)
  = inr (day_content text days day).
Proof.
  unfold day_content.
  destruct (find_day_content_total text day days (day_markers day)
              (day_markers day)) as [c ->].
  reflexivity.
Qed.

Lemma extract_part_total label dc : exists r, extract_part label dc = inr r.
Proof.
  unfold extract_part. destruct (contains label dc) eqn:E; [|eauto].
  destruct (item_split1_found _ _ E) as (a & b & _ & ->). cbn.
  destruct (item_split1_head NL b) as [l ->]. cbn. eauto.
Qed.

Lemma date_add_ok (d : date) n :
  1 <= toordinal d + n <= 3652059 ->
  exists d', date_add d n = inr d' /\ toordinal d' = toordinal d + n.
Proof.
  intros H. unfold date_add.
  destruct (decide (Is_true (ordinal_ok (toordinal d + n)))) as [Hok|Hno].
  - eexists. split; reflexivity.
  - exfalso. apply Hno. unfold ordinal_ok.
    apply Is_true_true, andb_true_iff. split; apply Z.leb_le; lia.
Qed.

Lemma date_in_range (d : date) : 1 <= toordinal d <= 3652059.
Proof.
  destruct d as [o H]. cbn. unfold ordinal_ok in H.
  apply Is_true_true, andb_true_iff in H as [H1 H2].
  apply Z.leb_le in H1, H2. lia.
Qed.

Lemma parse_day_spec req text sel day :
  1 <= day <= TravelRequest.duration req ->
  let c := day_content text (TravelRequest.duration req) day in
  exists l,
    parse_day req text sel (TravelRequest.duration req) day = inr l
    /\ ((c = [] /\ l = [])
        \/ (c <> [] /\ exists x, l = [x] /\ day_entry_spec req sel day c x)).
Proof.
  intros Hday c. unfold parse_day.
  rewrite find_day_content_eq. fold c. cbn [bind].
  destruct (decide (c = [])) as [Hc|Hc]; [eauto|].
  destruct (extract_part_total $"Morning:" c) as [mo Hmo].
  destruct (extract_part_total $"Afternoon:" c) as [af Haf].
  destruct (extract_part_total $"Evening:" c) as [ev Hev].
  rewrite Hmo, Haf, Hev. cbn [bind].
  assert (exists d', (if 1 <? day
                      then date_add (TravelRequest.depart_date req) (day - 1)
                      else ret (TravelRequest.depart_date req)) = inr d'
                     /\ toordinal d' = toordinal (TravelRequest.depart_date req)
                                       + (day - 1)) as (d' & -> & Hd').
  { destruct (1 <? day) eqn:E.
    - apply Z.ltb_lt in E. apply date_add_ok.
      pose proof (date_in_range (TravelRequest.depart_date req)).
      pose proof (date_in_range (TravelRequest.return_date req)).
      unfold TravelRequest.duration, days_between in Hday. lia.
    - apply Z.ltb_ge in E. eexists. split; [reflexivity|]. lia. }
  cbn [bind]. eexists. split; [reflexivity|]. right. split; [exact Hc|].
  eexists. split; [reflexivity|].
  unfold day_entry_spec. cbn. repeat split; try assumption.
Qed.

Lemma parse_days_spec req text sel todo :
  forall plan,
  Forall (fun day => 1 <= day <= TravelRequest.duration req) todo ->
  exists added,
    parse_days req text sel (TravelRequest.duration req) todo plan
    = inr (plan ++ added)
    /\ days_of added
       = filter (has_content text (TravelRequest.duration req)) todo
    /\ forall x, x ∈ added ->
         day_entry_spec req sel (ItineraryDayActivity.day x)
           (day_content text (TravelRequest.duration req)
              (ItineraryDayActivity.day x)) x.
Proof.
  induction todo as [|day todo IH]; intros plan Hall; cbn [parse_days].
  - exists []. rewrite app_nil_r. split; [reflexivity|]. split; [reflexivity|].
    intros x Hx. inversion Hx.
  - apply Forall_cons in Hall as [Hday Hall].
    destruct (parse_day_spec req text sel day Hday) as (l & -> & Hl).
    cbn [bind].
    destruct (IH (plan ++ l) Hall) as (added & -> & Hdays & Hspec).
    exists (l ++ added). rewrite app_assoc. split; [reflexivity|].
    unfold days_of. rewrite map_app. fold (days_of added). rewrite Hdays.
    rewrite filter_cons. unfold has_content at 2.
    destruct Hl as [[Hc ->]|(Hc & x & -> & Hx)].
    + destruct (decide _) as [Hne|_]; [contradiction|].
      split; [reflexivity|]. exact Hspec.
    + destruct (decide _) as [_|Hne]; [|contradiction].
      split.
      * cbn. f_equal. apply Hx.
      * intros y Hy. apply elem_of_cons in Hy as [->|Hy]; [|auto].
        destruct Hx as [Hd Hrest]. rewrite Hd. split; [exact Hd|exact Hrest].
Qed.

Lemma py_float_error s e : py_float s = inl e -> e = ValueError.
Proof.
  unfold py_float, raise, ret. destruct (span isdigit s) as [ip rest].
  destruct rest as [|c rest].
  - destruct (decide (ip = [])); intros [= <-] || discriminate; reflexivity.
  - destruct (Ascii.eqb c "."); [|intros [= <-]; reflexivity].
    destruct (span isdigit rest) as [fp rest'].
    destruct rest'; [|intros [= <-]; reflexivity].
    destruct (decide (ip ++ fp = [])); intros [= <-] || discriminate;
      reflexivity.
Qed.

Lemma parse_total_cost_total req text :
  exists v, parse_total_cost req text = inr v.
Proof.
  unfold parse_total_cost.
  destruct (contains $"Total cost:" text) eqn:E1; cbn.
  - destruct (item_split1_found _ _ E1) as (a & b & _ & ->). cbn.
    destruct (search_cost b); [|eauto].
    destruct (py_float _) as [e|v] eqn:Ef; [|eauto].
    apply py_float_error in Ef as ->. eauto.
  - destruct (contains $"Total Cost:" text) eqn:E2; [|eauto].
    destruct (item_split1_found _ _ E2) as (a & b & _ & ->). cbn.
    destruct (search_cost b); [|eauto].
    destruct (py_float _) as [e|v] eqn:Ef; [|eauto].
    apply py_float_error in Ef as ->. eauto.
Qed.

Lemma parse_summary_total text : exists s, parse_summary text = inr s.
Proof.
  unfold parse_summary. destruct (contains (NL ++ NL) text); [|eauto].
  apply item_split1_head.
Qed.

Lemma range_bounds (lo hi d : Z) : d ∈ range lo hi <-> lo <= d < hi.
Proof.
  unfold range. rewrite list_elem_of_lookup. split.
  - intros [i Hi]. apply lookup_seqZ in Hi. lia.
  - intros H. exists (Z.to_nat (d - lo)). apply lookup_seqZ. lia.
Qed.

(** The parser always returns an itinerary; its plan is read off the days
    with a non-empty content, in the order of the days. *)
Lemma parse_itinerary_spec request_id req text flights hotels pois :
  exists it,
    _parse_itinerary request_id req text flights hotels pois = inr it
    /\ days_of (Itinerary.daily_plan it)
       = filter (has_content text (TravelRequest.duration req))
           (range 1 (TravelRequest.duration req + 1))
    /\ (forall x, x ∈ Itinerary.daily_plan it ->
          day_entry_spec req (head hotels) (ItineraryDayActivity.day x)
            (day_content text (TravelRequest.duration req)
               (ItineraryDayActivity.day x)) x)
    /\ parse_total_cost req text = inr (Itinerary.total_cost it)
    /\ parse_summary text = inr (Itinerary.summary it)
    /\ Itinerary.selected_flight it = head flights
    /\ Itinerary.selected_hotel it = head hotels
    /\ Itinerary.travel_request it = req.
Proof.
  unfold _parse_itinerary.
  destruct (parse_days_spec req text (head hotels)
              (range 1 (TravelRequest.duration req + 1)) [])
    as (plan & -> & Hdays & Hspec).
  { apply Forall_forall. intros d Hd. apply range_bounds in Hd. lia. }
  destruct (parse_total_cost_total req text) as [v Hv].
  destruct (parse_summary_total text) as [s Hs].
  rewrite Hv, Hs. cbn [bind]. eexists. split; [reflexivity|]. cbn.
  split; [exact Hdays|]. split; [exact Hspec|]. repeat split.
Qed.

End ParserFacts.

(** ** The pipeline: NotFound and the absorbed model failures *)

Section PipelineProperties.

Import LLM ParseSpec.

Variable get_flight_offers :
  str -> str -> date -> date -> exc (list FlightOption.t).
Variable search_hotels_by_city : str -> exc (list pyval).
Variable float_of_str : str -> exc float.
Variable HotelOption_new :
  pyval -> float -> float -> pyval -> pyval -> str -> exc HotelOption.t.
Variable get_points_of_interest :
  str -> list str -> exc (list PointOfInterest.t).
Variable chat_completions_create :
  TravelRequest.t -> context -> exc (list (option str)).
Variable uuid4 : str.

Let text_step := _generate_itinerary_text chat_completions_create.
Let create := create_itinerary chat_completions_create uuid4.
Let convert := hotel_options float_of_str HotelOption_new.
Let generate :=
  generate_itinerary get_flight_offers search_hotels_by_city float_of_str
    HotelOption_new get_points_of_interest chat_completions_create uuid4.

(** The text step calls the model once and always returns a text. *)
Lemma generate_text_returns req ctx log :
  exists text, text_step req ctx log = (inr text, log ++ [ModelCall]).
Proof.
  unfold text_step, _generate_itinerary_text, try_except, bindM, emit, lift,
    retM, raiseM. cbn.
  destruct (chat_completions_create req ctx) as [e|response]; [eauto|].
  destruct response as [|[content|] rest]; cbn; eauto.
Qed.

Lemma generate_text_fallback req ctx log :
  (forall response content rest,
     chat_completions_create req ctx = inr response ->
     response <> Some content :: rest) ->
  text_step req ctx log
  = (inr (_generate_fallback_itinerary req), log ++ [ModelCall]).
Proof.
  intros Hfail.
  unfold text_step, _generate_itinerary_text, try_except, bindM, emit, lift,
    retM, raiseM. cbn.
  destruct (chat_completions_create req ctx) as [e|response]; [reflexivity|].
  destruct response as [|[content|] rest]; cbn; try reflexivity.
  exfalso. apply (Hfail _ content rest eq_refl). reflexivity.
Qed.

Lemma create_itinerary_returns req flights hotels pois log :
  exists it, create req flights hotels pois log = (inr it, log ++ [ModelCall]).
Proof.
  unfold create, create_itinerary, bindM.
  destruct (generate_text_returns req
              (_prepare_context req flights hotels pois) log) as [text Ht].
  unfold text_step in Ht. rewrite Ht.
  destruct (parse_itinerary_spec uuid4 req text flights hotels pois)
    as (it & Hit & _).
  unfold lift, retM. rewrite Hit. eauto.
Qed.

(** The ways [generate_itinerary] ends, by what the adapters and the
    conversion of the hotel records give. *)
Lemma generate_itinerary_cases req log :
  let origin := TravelRequest.origin req in
  let destination := TravelRequest.destination req in
  generate req log
  = match get_flight_offers origin destination
            (TravelRequest.depart_date req) (TravelRequest.return_date req) with
    | inl e => (inl e, log ++ [FlightSearch origin destination])
    | inr flights =>
        if decide (flights = []) then
          (inl (HTTPException 404
                  ($"No flights found from " ++ origin ++ $" to "
                   ++ destination)),
           log ++ [FlightSearch origin destination])
        else
          match search_hotels_by_city destination with
          | inl e =>
              (inl e,
               log ++ [FlightSearch origin destination;
                       HotelSearch destination])
          | inr hotels_data =>
              if decide (hotels_data = []) then
                (inl (HTTPException 404
                        ($"No hotels found in " ++ destination)),
                 log ++ [FlightSearch origin destination;
                         HotelSearch destination])
              else
                match convert destination hotels_data [] with
                | inl e =>
                    (inl e,
                     log ++ [FlightSearch origin destination;
                             HotelSearch destination])
                | inr hotels =>
                    match get_points_of_interest destination
                            (TravelRequest.preferences req) with
                    | inl e =>
                        (inl e,
                         log ++ [FlightSearch origin destination;
                                 HotelSearch destination;
                                 PoiSearch destination])
                    | inr pois =>
                        create req flights hotels pois
                          (log ++ [FlightSearch origin destination;
                                   HotelSearch destination;
                                   PoiSearch destination])
                    end
                end
          end
    end.
Proof.
  intros origin destination.
  unfold generate, generate_itinerary, bindM, emit, raiseM, lift. cbn.
  fold origin destination.
  destruct (get_flight_offers _ _ _ _) as [e|flights]; [reflexivity|].
  destruct (decide (flights = [])); [reflexivity|]. cbn.
  destruct (search_hotels_by_city destination) as [e|hotels_data];
    [rewrite <- app_assoc; reflexivity|].
  destruct (decide (hotels_data = [])); [rewrite <- app_assoc; reflexivity|].
  fold convert. cbn.
  destruct (convert destination hotels_data []) as [e|hotels];
    [rewrite <- app_assoc; reflexivity|]. cbn.
  destruct (get_points_of_interest _ _) as [e|pois];
    rewrite <- !app_assoc; reflexivity.
Qed.

Lemma not_a_model_call (events : list event) :
  events = [] \/ (exists a, events = [a] /\ a <> ModelCall)
  \/ (exists a b, events = [a; b] /\ a <> ModelCall /\ b <> ModelCall)
  \/ (exists a b c, events = [a; b; c]
                    /\ a <> ModelCall /\ b <> ModelCall /\ c <> ModelCall) ->
  ModelCall ∉ events.
Proof.
  intros [->|[(a & -> & Ha)|[(a & b & -> & Ha & Hb)
                            |(a & b & c & -> & Ha & Hb & Hc)]]] Hin;
    repeat (apply elem_of_cons in Hin as [Hin|Hin]; [congruence|]);
    inversion Hin.
Qed.

(** Whenever the pipeline fails, it fails before the model call. *)
Lemma generate_fails_early req log e log' :
  generate req log = (inl e, log') ->
  exists events, log' = log ++ events /\ ModelCall ∉ events.
Proof.
  rewrite generate_itinerary_cases. cbn zeta.
  destruct (get_flight_offers _ _ _ _) as [e1|flights].
  { intros [= <- <-]. eexists. split; [reflexivity|].
    apply not_a_model_call. right. left. eexists. split; [reflexivity|].
    discriminate. }
  destruct (decide (flights = [])).
  { intros [= <- <-]. eexists. split; [reflexivity|].
    apply not_a_model_call. right. left. eexists. split; [reflexivity|].
    discriminate. }
  destruct (search_hotels_by_city _) as [e1|hotels_data].
  { intros [= <- <-]. eexists. split; [reflexivity|].
    apply not_a_model_call. right. right. left. eexists _, _.
    split; [reflexivity|]. split; discriminate. }
  destruct (decide (hotels_data = [])).
  { intros [= <- <-]. eexists. split; [reflexivity|].
    apply not_a_model_call. right. right. left. eexists _, _.
    split; [reflexivity|]. split; discriminate. }
  destruct (convert _ _ _) as [e1|hotels].
  { intros [= <- <-]. eexists. split; [reflexivity|].
    apply not_a_model_call. right. right. left. eexists _, _.
    split; [reflexivity|]. split; discriminate. }
  destruct (get_points_of_interest _ _) as [e1|pois].
  { intros [= <- <-]. eexists. split; [reflexivity|].
    apply not_a_model_call. right. right. right. eexists _, _, _.
    split; [reflexivity|]. repeat split; discriminate. }
  destruct (create_itinerary_returns req flights hotels pois
              (log ++ [FlightSearch (TravelRequest.origin req)
                         (TravelRequest.destination req);
                       HotelSearch (TravelRequest.destination req);
                       PoiSearch (TravelRequest.destination req)]))
    as [it ->].
  discriminate.
Qed.

(** C4, as the code has it.  Whatever exception the model invocation
    raises, and also when its response has no choice or no content, the
    text step returns the fallback text and raises nothing; hence the
    pipeline proper ([create_itinerary]) always returns an itinerary, and
    so does [generate_itinerary] once the adapters have returned their
    lists, both lists being non-empty, and the hotel records have been
    converted; and a failure of [generate_itinerary] never follows a model
    call. *)
Theorem model_failure_absorbed (req : TravelRequest.t) :
  let origin := TravelRequest.origin req in
  let destination := TravelRequest.destination req in
  (forall ctx log e,
     chat_completions_create req ctx = inl e ->
     text_step req ctx log
     = (inr (_generate_fallback_itinerary req), log ++ [ModelCall]))
  /\ (forall ctx log rest,
        chat_completions_create req ctx = inr []
        \/ chat_completions_create req ctx = inr (None :: rest) ->
        text_step req ctx log
        = (inr (_generate_fallback_itinerary req), log ++ [ModelCall]))
  /\ (forall candidates hotels pois log,
        exists it, create req candidates hotels pois log
                   = (inr it, log ++ [ModelCall]))
  /\ (forall log flights hotels_data hotels pois,
        get_flight_offers origin destination (TravelRequest.depart_date req)
          (TravelRequest.return_date req) = inr flights ->
        flights <> [] ->
        search_hotels_by_city destination = inr hotels_data ->
        hotels_data <> [] ->
        convert destination hotels_data [] = inr hotels ->
        get_points_of_interest destination (TravelRequest.preferences req)
        = inr pois ->
        exists it,
          generate req log
          = (inr it,
             log ++ [FlightSearch origin destination; HotelSearch destination;
                     PoiSearch destination; ModelCall]))
  /\ (forall log e log',
        generate req log = (inl e, log') ->
        exists events, log' = log ++ events /\ ModelCall ∉ events).
Proof.
  intros origin destination. split; [|split; [|split; [|split]]].
  - intros ctx log e He. apply generate_text_fallback.
    intros response content rest Hr. congruence.
  - intros ctx log rest [Hr|Hr]; apply generate_text_fallback;
      intros response content rest' Hr'; congruence.
  - intros. apply create_itinerary_returns.
  - intros log flights hotels_data hotels pois Hf Hfne Hh Hhne Hc Hp.
    rewrite generate_itinerary_cases. cbn zeta. fold origin destination.
    rewrite Hf. destruct (decide (flights = [])); [contradiction|].
    rewrite Hh. destruct (decide (hotels_data = [])); [contradiction|].
    rewrite Hc, Hp.
    destruct (create_itinerary_returns req flights hotels pois
                (log ++ [FlightSearch origin destination;
                         HotelSearch destination; PoiSearch destination]))
      as [it ->].
    exists it. rewrite <- app_assoc. reflexivity.
  - intros log e log'. apply generate_fails_early.
Qed.

(** C3, as the code has it.  When the flight search returns an empty list
    the pipeline raises the 404 error that names the route, and when,
    flights being found, the hotel search returns an empty list, the 404
    error that names the city; in both cases nothing but the searches has
    happened.  The pipeline raises in four more cases, each time passing
    on the exception as it is: when the flight search, the hotel search or
    the search for points of interest raises, and when the conversion of
    a raw hotel record raises.  Every failure is one of these six, and
    none follows a model call. *)
Theorem not_found_before_model_call (req : TravelRequest.t)
    (log : list event) :
  let origin := TravelRequest.origin req in
  let destination := TravelRequest.destination req in
  let found :=
    get_flight_offers origin destination
      (TravelRequest.depart_date req) (TravelRequest.return_date req) in
  let no_flights :=
    HTTPException 404
      ($"No flights found from " ++ origin ++ $" to " ++ destination) in
  let no_hotels :=
    HTTPException 404 ($"No hotels found in " ++ destination) in
  (found = inr [] ->
     generate req log
     = (inl no_flights, log ++ [FlightSearch origin destination]))
  /\ (forall flights,
        found = inr flights -> flights <> [] ->
        search_hotels_by_city destination = inr [] ->
        generate req log
        = (inl no_hotels,
           log ++ [FlightSearch origin destination; HotelSearch destination]))
  /\ (forall e log',
        generate req log = (inl e, log') ->
        (exists events, log' = log ++ events /\ ModelCall ∉ events)
        /\ ((found = inr [] /\ e = no_flights)
            \/ (exists flights,
                  found = inr flights /\ flights <> []
                  /\ search_hotels_by_city destination = inr []
                  /\ e = no_hotels)
            \/ found = inl e
            \/ search_hotels_by_city destination = inl e
            \/ (exists hotels_data,
                  search_hotels_by_city destination = inr hotels_data
                  /\ convert destination hotels_data [] = inl e)
            \/ get_points_of_interest destination
                 (TravelRequest.preferences req) = inl e)).
Proof.
  intros origin destination found no_flights no_hotels.
  split; [|split].
  - intros Hf. rewrite generate_itinerary_cases. cbn zeta.
    fold origin destination found. rewrite Hf. reflexivity.
  - intros flights Hf Hne Hh. rewrite generate_itinerary_cases. cbn zeta.
    fold origin destination found. rewrite Hf.
    destruct (decide (flights = [])); [contradiction|].
    rewrite Hh. reflexivity.
  - intros e log' Hrun.
    split; [exact (generate_fails_early req log e log' Hrun)|].
    rewrite generate_itinerary_cases in Hrun. cbn zeta in Hrun.
    fold origin destination found in Hrun.
    destruct found as [e1|flights] eqn:Hf.
    { injection Hrun as <- _. auto. }
    destruct (decide (flights = [])) as [->|Hne].
    { injection Hrun as <- _. auto. }
    destruct (search_hotels_by_city destination) as [e1|hotels_data] eqn:Hh.
    { injection Hrun as <- _. auto. }
    destruct (decide (hotels_data = [])) as [->|Hhne].
    { injection Hrun as <- _. right. left. exists flights. auto. }
    destruct (convert destination hotels_data []) as [e1|hotels] eqn:Hc.
    { injection Hrun as <- _. do 4 right. left. exists hotels_data. auto. }
    destruct (get_points_of_interest _ _) as [e1|pois] eqn:Hp.
    { injection Hrun as <- _. do 5 right. reflexivity. }
    destruct (create_itinerary_returns req flights hotels pois
                (log ++ [FlightSearch origin destination;
                         HotelSearch destination; PoiSearch destination]))
      as [it Hit].
    rewrite Hit in Hrun. discriminate.
Qed.

End PipelineProperties.

(** ** The daily plan *)

Section PlanProperties.

Import Text LLM ParseSpec.

Lemma StronglySorted_seqZ (lo : Z) (n : nat) :
  StronglySorted Z.lt (seqZ lo (Z.of_nat n)).
Proof.
  revert lo. induction n as [|n IH]; intros lo.
  - rewrite seqZ_nil by lia. constructor.
  - rewrite seqZ_cons by lia. constructor.
    + replace (Z.pred (Z.of_nat (S n))) with (Z.of_nat n) by lia. apply IH.
    + apply Forall_forall. intros d Hd.
      apply list_elem_of_lookup in Hd as [i Hi].
      apply lookup_seqZ in Hi. lia.
Qed.

Lemma StronglySorted_range (lo hi : Z) : StronglySorted Z.lt (range lo hi).
Proof.
  unfold range. destruct (decide (0 <= hi - lo)) as [H|H].
  - rewrite <- (Z2Nat.id (hi - lo)) by exact H. apply StronglySorted_seqZ.
  - rewrite seqZ_nil by lia. constructor.
Qed.

Lemma StronglySorted_filter {A} (R : relation A) (P : A -> Prop)
    `{forall x, Decision (P x)} (l : list A) :
  StronglySorted R l -> StronglySorted R (filter P l).
Proof.
  induction 1 as [|x l Hs IH Hall]; [constructor|].
  rewrite filter_cons. destruct (decide (P x)); [|exact IH].
  constructor; [exact IH|].
  apply Forall_forall. intros y Hy. apply list_elem_of_filter in Hy as [_ Hy].
  rewrite Forall_forall in Hall. auto.
Qed.

Lemma find_day_content_no_marker text day days all markers :
  (forall m, m ∈ markers -> ~ occurs m text) ->
  find_day_content text day days all markers = inr [].
Proof.
  induction markers as [|m markers IH]; intros Hno; cbn; [reflexivity|].
  assert (contains m text = false) as ->.
  { apply contains_absent, Hno. left. }
  apply IH. intros m' Hm'. apply Hno. right. exact Hm'.
Qed.

Lemma no_header_no_content text days day :
  (forall m, m ∈ day_markers day -> ~ occurs m text) ->
  ~ has_content text days day.
Proof.
  intros Hno Hc. apply Hc. unfold day_content.
  rewrite find_day_content_no_marker by exact Hno. reflexivity.
Qed.

(** C2, as the code has it.  The parser returns an itinerary whose plan
    lists days in strictly increasing order, each between 1 and the
    duration, so at most one entry per trip day; a day has an entry exactly
    when the text gives it a non-empty content, and a day none of whose
    header spellings is in the text has none: the plan may have gaps. *)
Theorem daily_plan_days request_id (req : TravelRequest.t) (text : str)
    flights hotels pois :
  exists it,
    _parse_itinerary request_id req text flights hotels pois = inr it
    /\ StronglySorted Z.lt (days_of (Itinerary.daily_plan it))
    /\ (forall d, d ∈ days_of (Itinerary.daily_plan it)
                  <-> 1 <= d <= TravelRequest.duration req
                      /\ has_content text (TravelRequest.duration req) d)
    /\ (forall d, (forall m, m ∈ day_markers d -> ~ occurs m text) ->
                  d ∉ days_of (Itinerary.daily_plan it)).
Proof.
  destruct (parse_itinerary_spec request_id req text flights hotels pois)
    as (it & Hit & Hdays & _).
  exists it. split; [exact Hit|]. rewrite Hdays.
  assert (forall d,
            d ∈ filter (has_content text (TravelRequest.duration req))
                  (range 1 (TravelRequest.duration req + 1))
            <-> 1 <= d <= TravelRequest.duration req
                /\ has_content text (TravelRequest.duration req) d) as Hmem.
  { intros d. rewrite list_elem_of_filter, range_bounds. split.
    - intros [Hc Hd]. split; [lia|exact Hc].
    - intros [Hd Hc]. split; [exact Hc|lia]. }
  split; [|split].
  - apply StronglySorted_filter, StronglySorted_range.
  - exact Hmem.
  - intros d Hno Hd. apply Hmem in Hd as [_ Hc].
    exact (no_header_no_content _ _ _ Hno Hc).
Qed.

(** C10. The parser returns an itinerary in whose plan every entry is
    dated [day - 1] days after the departure date, so that the entry of
    day 1 is dated on the departure date and dates advance by one day per
    day number, and names the first hotel of the candidate list as its
    accommodation when the list is not empty. *)
Theorem plan_dates_and_accommodation request_id (req : TravelRequest.t)
    (text : str) flights hotels pois :
  exists it,
    _parse_itinerary request_id req text flights hotels pois = inr it
    /\ forall x, x ∈ Itinerary.daily_plan it ->
         toordinal (ItineraryDayActivity.date x)
         = toordinal (TravelRequest.depart_date req)
           + (ItineraryDayActivity.day x - 1)
         /\ (ItineraryDayActivity.day x = 1 ->
             toordinal (ItineraryDayActivity.date x)
             = toordinal (TravelRequest.depart_date req))
         /\ (forall y, y ∈ Itinerary.daily_plan it ->
             toordinal (ItineraryDayActivity.date y)
             - toordinal (ItineraryDayActivity.date x)
             = ItineraryDayActivity.day y - ItineraryDayActivity.day x)
         /\ (forall h rest, hotels = h :: rest ->
             ItineraryDayActivity.accommodation x = Some (HotelOption.name h)).
Proof.
  destruct (parse_itinerary_spec request_id req text flights hotels pois)
    as (it & Hit & _ & Hspec & _).
  exists it. split; [exact Hit|]. intros x Hx.
  destruct (Hspec x Hx) as (_ & Hdate & _ & _ & _ & _ & Hacc).
  split; [exact Hdate|]. split; [|split].
  - intros H1. rewrite Hdate, H1. lia.
  - intros y Hy. destruct (Hspec y Hy) as (_ & Hdate' & _). lia.
  - intros h rest ->. exact Hacc.
Qed.

End PlanProperties.

(** ** The total cost *)

Section CostProperties.

Import Text LLM ParseSpec.

Implicit Types (s post : str) (p : ascii -> bool).

Lemma span_all p (a b : str) :
  forallb p a = true ->
  span p (a ++ b) = (a ++ (span p b).1, (span p b).2).
Proof.
  induction a as [|c a IH]; cbn; intros H.
  - destruct (span p b); reflexivity.
  - apply andb_true_iff in H as [-> H]. rewrite (IH H). reflexivity.
Qed.

Lemma span_stop p c s : p c = false -> span p (c :: s) = ([], c :: s).
Proof. intros H. cbn. rewrite H. reflexivity. Qed.

Lemma span_no_digit_ahead post :
  no_digit_ahead post -> span isdigit post = ([], post).
Proof.
  intros H. destruct post as [|c post']; [reflexivity|].
  apply span_stop, (H c post'). reflexivity.
Qed.

Lemma lstrip_blanks (blanks s : str) :
  forallb isspace blanks = true -> lstrip (blanks ++ s) = lstrip s.
Proof.
  induction blanks as [|c blanks IH]; cbn; intros H; [reflexivity|].
  apply andb_true_iff in H as [-> H]. exact (IH H).
Qed.

Lemma lstrip_spec s :
  exists blanks, s = blanks ++ lstrip s /\ Forall (fun b => isspace b = true) blanks.
Proof.
  induction s as [|c s (blanks & Hs & Hb)]; cbn.
  - exists []. split; [reflexivity|constructor].
  - destruct (isspace c) eqn:E.
    + exists (c :: blanks). split; [cbn; f_equal; exact Hs|].
      constructor; assumption.
    + exists []. split; [reflexivity|constructor].
Qed.

Lemma digit_or_comma_not_space c :
  is_digit_or_comma c = true -> isspace c = false.
Proof.
  destruct c as [[] [] [] [] [] [] [] []]; vm_compute; congruence.
Qed.

(** The pattern reads back a written amount: after the currency code and
    blanks, digits and commas, a point and digits, and no further digit. *)
Lemma match_cost_here_amount (blanks whole frac post : str) :
  forallb isspace blanks = true ->
  forallb is_digit_or_comma whole = true -> whole <> [] ->
  forallb isdigit frac = true -> frac <> [] ->
  no_digit_ahead post ->
  match_cost_here ($"SGD" ++ blanks ++ whole ++ "."%char :: frac ++ post)
  = Some (whole ++ "."%char :: frac).
Proof.
  intros Hb Hw Hw0 Hf Hf0 Hpost. unfold match_cost_here.
  assert (startswith $"SGD"
            ($"SGD" ++ blanks ++ whole ++ "."%char :: frac ++ post) = true)
    as -> by (apply startswith_spec; eauto).
  change (drop 3 ($"SGD" ++ ?x)) with x.
  rewrite (lstrip_blanks _ _ Hb).
  assert (lstrip (whole ++ "."%char :: frac ++ post)
          = whole ++ "."%char :: frac ++ post) as ->.
  { destruct whole as [|c whole]; [contradiction|]. cbn in Hw |- *.
    apply andb_true_iff in Hw as [Hc _].
    rewrite (digit_or_comma_not_space _ Hc). reflexivity. }
  rewrite (span_all _ _ _ Hw).
  rewrite (span_stop is_digit_or_comma "."%char) by reflexivity. cbn [fst snd].
  rewrite app_nil_r.
  destruct (decide (whole = [])) as [|_]; [contradiction|].
  rewrite (span_all _ _ _ Hf), (span_no_digit_ahead _ Hpost). cbn [fst snd].
  rewrite app_nil_r.
  rewrite Ascii.eqb_refl. rewrite bool_decide_eq_false_2 by exact Hf0.
  reflexivity.
Qed.

Lemma search_cost_here s g :
  match_cost_here s = Some g -> search_cost s = Some g.
Proof. intros H. destruct s; cbn; rewrite H; reflexivity. Qed.

Lemma search_cost_skip c s :
  match_cost_here (c :: s) = None -> search_cost (c :: s) = search_cost s.
Proof. intros H. cbn. rewrite H. reflexivity. Qed.

Lemma match_cost_here_cost_at s g :
  match_cost_here s = Some g -> cost_at s 0.
Proof.
  unfold match_cost_here. destruct (startswith $"SGD" s) eqn:E; [|discriminate].
  apply startswith_spec in E as [r ->].
  change (drop 3 ($"SGD" ++ r)) with r.
  destruct (lstrip_spec r) as (blanks & Hr & Hb).
  destruct (lstrip r) as [|c r'] eqn:El.
  - cbn. destruct (decide (@nil ascii = [])); [discriminate|contradiction].
  - cbn [span]. destruct (is_digit_or_comma c) eqn:Ec.
    + intros _. exists blanks, c, r'. rewrite Hr.
      split; [reflexivity|]. split; assumption.
    + destruct (decide (@nil ascii = [])); [discriminate|contradiction].
Qed.

Lemma search_cost_cost_at s g :
  search_cost s = Some g -> exists i, cost_at s i.
Proof.
  induction s as [|c s IH].
  - cbn. destruct (match_cost_here []) eqn:E; [|discriminate].
    intros _. exists 0%nat. exact (match_cost_here_cost_at _ _ E).
  - cbn. destruct (match_cost_here (c :: s)) eqn:E.
    + intros _. exists 0%nat. exact (match_cost_here_cost_at _ _ E).
    + intros H. destruct (IH H) as [i (blanks & d & rest & Hd & Hb & Hc)].
      exists (S i), blanks, d, rest. auto.
Qed.

Lemma search_cost_none s :
  (forall i, ~ cost_at s i) -> search_cost s = None.
Proof.
  intros H. destruct (search_cost s) as [g|] eqn:E; [|reflexivity].
  destruct (search_cost_cost_at _ _ E) as [i Hi]. destruct (H i Hi).
Qed.

(** The text after the marker the parser picks: the first [Total cost:],
    or the first [Total Cost:] in a text without a [Total cost:]. *)
Lemma parse_total_cost_after req text marker pre post :
  marker = $"Total cost:"
  \/ (marker = $"Total Cost:" /\ ~ occurs $"Total cost:" text) ->
  first_occurrence marker text pre post ->
  parse_total_cost req text
  = match search_cost post with
    | Some group1 =>
        match py_float (replace $"," [] group1) with
        | inr v => ret v
        | inl ValueError =>
            ret (ninety_percent (TravelRequest.budget req))
        | inl e => raise e
        end
    | None => ret (ninety_percent (TravelRequest.budget req))
    end.
Proof.
  intros Hm Hfirst. unfold parse_total_cost.
  assert (contains marker text = true) as Hc.
  { apply contains_occurs. destruct Hfirst as [-> _]. eexists _, _. reflexivity. }
  destruct Hm as [->|[-> Hlow]].
  - rewrite Hc. cbn [orb]. rewrite (split1_first _ _ _ _ Hfirst). reflexivity.
  - apply contains_absent in Hlow. rewrite Hlow, Hc. cbn [orb].
    rewrite (split1_first _ _ _ _ Hfirst). reflexivity.
Qed.

Lemma parse_total_cost_no_marker req text :
  ~ occurs $"Total cost:" text -> ~ occurs $"Total Cost:" text ->
  parse_total_cost req text = inr (ninety_percent (TravelRequest.budget req)).
Proof.
  intros H1 H2. unfold parse_total_cost.
  apply contains_absent in H1, H2. rewrite H1, H2. reflexivity.
Qed.

Lemma parse_itinerary_total_cost request_id req text flights hotels pois v :
  parse_total_cost req text = inr v ->
  exists it, _parse_itinerary request_id req text flights hotels pois = inr it
             /\ Itinerary.total_cost it = v.
Proof.
  intros Hv.
  destruct (parse_itinerary_spec request_id req text flights hotels pois)
    as (it & Hit & _ & _ & Hcost & _).
  exists it. split; [exact Hit|]. congruence.
Qed.

(** C7, as the code has it.  Parsing a text in which
    [Total Cost: SGD 1,250.50] comes with no [Total cost:] or [Total Cost:]
    before it, no [Total cost:] after it and no digit right after it yields
    a total cost of 1250.50; parsing a text with neither [Total cost:] nor
    [Total Cost:] yields [budget * 0.9]; and so does parsing a text where
    no currency-prefixed number follows the marker the parser picks (the
    first [Total cost:], or the first [Total Cost:] when the text has no
    [Total cost:]). *)
Theorem total_cost_extraction request_id (req : TravelRequest.t)
    flights hotels pois :
  (forall pre post,
     ~ occurs $"Total cost:" pre -> ~ occurs $"Total Cost:" pre ->
     ~ occurs $"Total cost:" post -> no_digit_ahead post ->
     exists it,
       _parse_itinerary request_id req
         (pre ++ $"Total Cost: SGD 1,250.50" ++ post) flights hotels pois
       = inr it
       /\ Itinerary.total_cost it = 1250.5%float)
  /\ (forall text,
        ~ occurs $"Total cost:" text -> ~ occurs $"Total Cost:" text ->
        exists it,
          _parse_itinerary request_id req text flights hotels pois = inr it
          /\ Itinerary.total_cost it
             = ninety_percent (TravelRequest.budget req))
  /\ (forall text marker pre post,
        marker = $"Total cost:"
        \/ (marker = $"Total Cost:" /\ ~ occurs $"Total cost:" text) ->
        first_occurrence marker text pre post ->
        (forall i, ~ cost_at post i) ->
        exists it,
          _parse_itinerary request_id req text flights hotels pois = inr it
          /\ Itinerary.total_cost it
             = ninety_percent (TravelRequest.budget req)).
Proof.
  split; [|split].
  - intros pre post Hlow Hup Hlow' Hpost.
    apply parse_itinerary_total_cost.
    assert (~ occurs $"Total cost:" (pre ++ $"Total Cost: SGD 1,250.50" ++ post))
      as Habs.
    { replace (pre ++ $"Total Cost: SGD 1,250.50" ++ post)
        with (text_of [Any pre; Lit $"Total Cost: SGD 1,250.50"; Any post])
        by (unfold text_of; cbn; rewrite app_nil_r; reflexivity).
      eapply scan_absent; [unfold lit; cbn; lia|vm_compute; reflexivity|].
      repeat constructor; assumption. }
    assert (first_occurrence $"Total Cost:"
              (pre ++ $"Total Cost: SGD 1,250.50" ++ post) pre
              ($" SGD 1,250.50" ++ post)) as Hfirst.
    { change ($"Total Cost: SGD 1,250.50" ++ post)
        with ($"Total Cost:" ++ $" SGD 1,250.50" ++ post).
      eapply first_occurrence_scan; [unfold lit; cbn; lia|vm_compute; reflexivity|exact Hup]. }
    rewrite (parse_total_cost_after req _ _ _ _ (or_intror (conj eq_refl Habs))
               Hfirst).
    change ($" SGD 1,250.50" ++ post)
      with (" "%char :: $"SGD" ++ $" " ++ $"1,250" ++ "."%char :: $"50" ++ post).
    rewrite search_cost_skip by reflexivity.
    rewrite (search_cost_here _ ($"1,250" ++ "."%char :: $"50")).
    + vm_compute. reflexivity.
    + apply match_cost_here_amount; try reflexivity; try discriminate.
      exact Hpost.
  - intros text H1 H2. apply parse_itinerary_total_cost.
    apply parse_total_cost_no_marker; assumption.
  - intros text marker pre post Hm Hfirst Hno.
    apply parse_itinerary_total_cost.
    rewrite (parse_total_cost_after req _ _ _ _ Hm Hfirst).
    rewrite (search_cost_none _ Hno). reflexivity.
Qed.

End CostProperties.

(** ** The content of a day *)

Section DayContent.

Import Text LLM ParseSpec.

Implicit Types (s old new pre suf rest text : str).

(** *** Day numbers as text, and the rewriting of the markers *)

Lemma isdigit_digit_char d : 0 <= d < 10 -> isdigit (digit_char d) = true.
Proof.
  intros H.
  assert (d = 0 \/ d = 1 \/ d = 2 \/ d = 3 \/ d = 4 \/ d = 5 \/ d = 6
          \/ d = 7 \/ d = 8 \/ d = 9) as Hd by lia.
  repeat (destruct Hd as [->|Hd]; [reflexivity|]). subst. reflexivity.
Qed.

Lemma digits_of_spec fuel :
  forall n acc, 0 <= n ->
  exists o ds, digits_of (S fuel) n acc = o :: ds ++ acc
               /\ forallb isdigit (o :: ds) = true.
Proof.
  induction fuel as [|fuel IH]; intros n acc Hn.
  - cbn [digits_of]. exists (digit_char (n mod 10)), [].
    split; [destruct (n <? 10); reflexivity|].
    cbn. rewrite isdigit_digit_char by (apply Z.mod_pos_bound; lia).
    reflexivity.
  - change (digits_of (S (S fuel)) n acc)
      with (if n <? 10 then digit_char (n mod 10) :: acc
            else digits_of (S fuel) (n / 10) (digit_char (n mod 10) :: acc)).
    destruct (n <? 10).
    + exists (digit_char (n mod 10)), []. split; [reflexivity|].
      cbn. rewrite isdigit_digit_char by (apply Z.mod_pos_bound; lia).
      reflexivity.
    + destruct (IH (n / 10) (digit_char (n mod 10) :: acc))
        as (o & ds & -> & Hds); [apply Z.div_pos; lia|].
      exists o, (ds ++ [digit_char (n mod 10)]).
      split; [rewrite <- app_assoc; reflexivity|].
      cbn in Hds |- *. apply andb_true_iff in Hds as [-> Hds]. cbn.
      rewrite forallb_app, Hds. cbn.
      rewrite isdigit_digit_char by (apply Z.mod_pos_bound; lia).
      reflexivity.
Qed.

(** The text of a non-negative number: one digit at least, digits only. *)
Lemma str_int_digits n :
  0 <= n -> exists o ds, str_int n = o :: ds /\ forallb isdigit (o :: ds) = true.
Proof.
  intros Hn. unfold str_int. destruct (n <? 0) eqn:E; [apply Z.ltb_lt in E; lia|].
  unfold str_nonneg.
  destruct (digits_of_spec (Z.to_nat (Z.log2 n)) n [] Hn) as (o & ds & -> & H).
  exists o, ds. rewrite app_nil_r. auto.
Qed.

Lemma startswith_app old s : startswith old (old ++ s) = true.
Proof. apply startswith_spec. eauto. Qed.

Lemma replace_from_skip old new (a : str) s :
  replace_from old new (length a) (a ++ s) = replace_from old new 0 s.
Proof.
  induction a as [|c a IH]; cbn [length app]; [reflexivity|].
  cbn [replace_from]. exact IH.
Qed.

Lemma replace_from_plain o old new pre s :
  isdigit o = true -> forallb (fun c => negb (isdigit c)) pre = true ->
  replace_from (o :: old) new 0 (pre ++ s)
  = pre ++ replace_from (o :: old) new 0 s.
Proof.
  intros Ho. induction pre as [|c pre IH]; intros Hpre; [reflexivity|].
  cbn in Hpre. apply andb_true_iff in Hpre as [Hc Hpre].
  cbn [app replace_from startswith].
  destruct (Ascii.eqb o c) eqn:E.
  - apply Ascii.eqb_eq in E as ->. rewrite Ho in Hc. discriminate.
  - f_equal. exact (IH Hpre).
Qed.

Lemma replace_number o old new pre suf :
  forallb isdigit (o :: old) = true ->
  forallb (fun c => negb (isdigit c)) pre = true ->
  forallb (fun c => negb (isdigit c)) suf = true ->
  replace (o :: old) new (pre ++ (o :: old) ++ suf) = pre ++ new ++ suf.
Proof.
  intros Hold Hpre Hsuf. cbn in Hold. apply andb_true_iff in Hold as [Ho _].
  unfold replace. rewrite (replace_from_plain _ _ _ _ _ Ho Hpre). f_equal.
  change ((o :: old) ++ suf) with (o :: old ++ suf).
  cbn [replace_from].
  change (o :: old ++ suf) with ((o :: old) ++ suf).
  rewrite startswith_app. f_equal.
  cbn [length]. rewrite Nat.sub_succ, Nat.sub_0_r.
  rewrite replace_from_skip.
  rewrite <- (app_nil_r suf) at 1.
  rewrite (replace_from_plain _ _ _ _ _ Ho Hsuf). apply app_nil_r.
Qed.

Lemma replace_number_end o old new pre :
  forallb isdigit (o :: old) = true ->
  forallb (fun c => negb (isdigit c)) pre = true ->
  replace (o :: old) new (pre ++ o :: old) = pre ++ new.
Proof.
  intros Hold Hpre.
  pose proof (replace_number o old new pre [] Hold Hpre eq_refl) as H.
  rewrite !app_nil_r in H. exact H.
Qed.

(** The header spellings of a later day are the spellings of [day] with
    the number replaced. *)
Lemma replace_day_markers day next_day :
  0 <= day ->
  map (replace (str_int day) (str_int next_day)) (day_markers day)
  = day_markers next_day.
Proof.
  intros Hday. destruct (str_int_digits day Hday) as (o & ds & Hs & Hd).
  unfold day_markers. rewrite Hs. cbn [map].
  rewrite !replace_number_end by (exact Hd || reflexivity).
  rewrite !replace_number by (exact Hd || reflexivity).
  reflexivity.
Qed.


(** *** The search for the header of a later day *)

Lemma fold_left_fmap {A B C} (f : A -> C -> A) (g : B -> C) (l : list B) :
  forall a, fold_left (fun a x => f a (g x)) l a = fold_left f (map g l) a.
Proof. induction l as [|x l IH]; intros a; cbn; [reflexivity|apply IH]. Qed.

Lemma fold_left_concat {A B} (f : A -> B -> A) (ls : list (list B)) :
  forall a,
  fold_left (fun a l => fold_left f l a) ls a = fold_left f (concat ls) a.
Proof.
  induction ls as [|l ls IH]; intros a; cbn; [reflexivity|].
  rewrite fold_left_app. apply IH.
Qed.

Lemma fold_left_pointwise {A B} (f g : A -> B -> A) (l : list B) :
  (forall a x, f a x = g a x) ->
  forall a, fold_left f l a = fold_left g l a.
Proof.
  intros Hfg. induction l as [|x l IH]; intros a; cbn; [reflexivity|].
  rewrite Hfg. apply IH.
Qed.

Lemma scan_next_days_eq day days rest :
  0 <= day ->
  scan_next_days day days (day_markers day) rest
  = fold_left (earlier rest)
      (concat (map day_markers (range (day + 1) (days + 1)))) None.
Proof.
  intros Hday. unfold scan_next_days.
  rewrite <- fold_left_concat, <- fold_left_fmap.
  apply fold_left_pointwise. intros idx next_day. unfold scan_markers.
  rewrite <- (replace_day_markers day next_day Hday).
  rewrite <- fold_left_fmap. reflexivity.
Qed.

Lemma fold_earlier_spec rest (hs : list str) :
  forall init,
  match fold_left (earlier rest) hs init with
  | None => init = None /\ forall h, h ∈ hs -> index_of h rest = None
  | Some i =>
      (init = Some i
       \/ exists h, h ∈ hs /\ index_of h rest = Some (Z.to_nat i) /\ 0 <= i)
      /\ (forall j, init = Some j -> i <= j)
      /\ (forall h j, h ∈ hs -> index_of h rest = Some j -> i <= Z.of_nat j)
  end.
Proof.
  induction hs as [|h hs IH]; intros init; cbn [fold_left].
  - destruct init as [i|].
    + split; [left; reflexivity|]. split; [intros j [= ->]; lia|].
      intros h j Hh. inversion Hh.
    + split; [reflexivity|]. intros h Hh. inversion Hh.
  - specialize (IH (earlier rest init h)).
    destruct (fold_left (earlier rest) hs (earlier rest init h)) as [i|].
    + destruct IH as (Hsrc & Hinit & Hmin).
      unfold earlier, contains, find in Hsrc, Hinit.
      destruct (index_of h rest) as [j|] eqn:Ej.
      * destruct (lt_idx (Z.of_nat j) init) eqn:Elt.
        -- split; [|split].
           ++ right. destruct Hsrc as [[= <-]|(h' & Hh' & Hidx & Hi)].
              ** exists h. split; [left|]. rewrite Nat2Z.id. split; [exact Ej|lia].
              ** exists h'. split; [right; exact Hh'|]. auto.
           ++ intros j' ->. specialize (Hinit _ eq_refl). cbn in Elt.
              apply Z.ltb_lt in Elt. lia.
           ++ intros h' j' Hh' Hj'. apply elem_of_cons in Hh' as [->|Hh'].
              ** rewrite Ej in Hj'. injection Hj' as <-. apply Hinit. reflexivity.
              ** exact (Hmin _ _ Hh' Hj').
        -- destruct init as [j0|]; [|discriminate]. cbn in Elt.
           apply Z.ltb_ge in Elt. split; [|split].
           ++ destruct Hsrc as [Hs|(h' & Hh' & Hidx & Hi)]; [left; exact Hs|].
              right. exists h'. split; [right; exact Hh'|]. auto.
           ++ exact Hinit.
           ++ intros h' j' Hh' Hj'. apply elem_of_cons in Hh' as [->|Hh'].
              ** rewrite Ej in Hj'. injection Hj' as <-.
                 specialize (Hinit _ eq_refl). lia.
              ** exact (Hmin _ _ Hh' Hj').
      * split; [|split].
        -- destruct Hsrc as [Hs|(h' & Hh' & Hidx & Hi)]; [left; exact Hs|].
           right. exists h'. split; [right; exact Hh'|]. auto.
        -- exact Hinit.
        -- intros h' j' Hh' Hj'. apply elem_of_cons in Hh' as [->|Hh'].
           ** congruence.
           ** exact (Hmin _ _ Hh' Hj').
    + destruct IH as (Hinit & Hnone).
      unfold earlier, contains, find in Hinit.
      destruct (index_of h rest) as [j|] eqn:Ej.
      * destruct (lt_idx (Z.of_nat j) init) eqn:Elt; [discriminate|].
        subst init. discriminate.
      * split; [exact Hinit|]. intros h' Hh'.
        apply elem_of_cons in Hh' as [->|Hh']; [exact Ej|auto].
Qed.

Lemma later_header_elem day days h :
  h ∈ concat (map day_markers (range (day + 1) (days + 1)))
  <-> later_header day days h.
Proof.
  unfold later_header. rewrite list_elem_of_In, in_concat. split.
  - intros (l & Hl & Hh). apply in_map_iff in Hl as (d & <- & Hd).
    apply list_elem_of_In, range_bounds in Hd. exists d.
    split; [lia|]. apply list_elem_of_In. exact Hh.
  - intros (d & Hd & Hh). exists (day_markers d). split.
    + apply in_map_iff. exists d. split; [reflexivity|].
      apply list_elem_of_In, range_bounds. lia.
    + apply list_elem_of_In. exact Hh.
Qed.

(** What follows the header of [day] is cut at the earliest header of a
    later day, and kept whole when there is none. *)
Lemma scan_next_days_none day days rest :
  0 <= day ->
  (forall h, later_header day days h -> ~ occurs h rest) ->
  scan_next_days day days (day_markers day) rest = None.
Proof.
  intros Hday Hno. rewrite (scan_next_days_eq _ _ _ Hday).
  pose proof (fold_earlier_spec rest
                (concat (map day_markers (range (day + 1) (days + 1)))) None)
    as Hspec.
  destruct (fold_left _ _ None) as [i|]; [|reflexivity]. exfalso.
  destruct Hspec as ([Hs|(h & Hh & Hidx & _)] & _); [discriminate|].
  apply later_header_elem in Hh.
  destruct (index_of_Some _ _ _ Hidx) as (a & b & [Hab _] & _).
  apply (Hno h Hh). exists a, b. exact Hab.
Qed.

Lemma scan_next_days_earliest day days rest h c tail :
  0 <= day ->
  later_header day days h ->
  rest = c ++ h ++ tail ->
  (forall h' c' tail',
     later_header day days h' -> rest = c' ++ h' ++ tail' ->
     (length c <= length c')%nat) ->
  scan_next_days day days (day_markers day) rest
  = Some (Z.of_nat (length c)).
Proof.
  intros Hday Hh Hrest Hmin. rewrite (scan_next_days_eq _ _ _ Hday).
  assert (index_of h rest = Some (length c)) as Hidx.
  { apply (index_of_first _ _ _ tail). split; [exact Hrest|].
    intros c' tail' Hr. exact (Hmin h c' tail' Hh Hr). }
  pose proof (fold_earlier_spec rest
                (concat (map day_markers (range (day + 1) (days + 1)))) None)
    as Hspec.
  destruct (fold_left _ _ None) as [i|].
  - destruct Hspec as ([Hs|(h' & Hh' & Hidx' & Hi)] & _ & Hle); [discriminate|].
    f_equal.
    pose proof (Hle h _ (proj2 (later_header_elem _ _ _) Hh) Hidx) as Hup.
    apply later_header_elem in Hh'.
    destruct (index_of_Some _ _ _ Hidx') as (c' & tail' & [Hr _] & Hlen).
    pose proof (Hmin h' c' tail' Hh' Hr). lia.
  - destruct Hspec as [_ Hnone].
    rewrite (Hnone h (proj2 (later_header_elem _ _ _) Hh)) in Hidx.
    discriminate.
Qed.

(** The marker the parser settles on: the first spelling, in the order of
    [day_markers], that is in the text. *)
Lemma find_day_content_at text day days all (markers : list str) :
  forall k m pre rest,
  markers !! k = Some m ->
  (forall j m', (j < k)%nat -> markers !! j = Some m' -> ~ occurs m' text) ->
  first_occurrence m text pre rest ->
  find_day_content text day days all markers
  = match scan_next_days day days all rest with
    | Some next_day_idx => ret (slice_to rest next_day_idx)
    | None => ret rest
    end.
Proof.
  induction markers as [|m0 markers IH]; intros k m pre rest Hk Hbefore Hfirst.
  - rewrite lookup_nil in Hk. discriminate.
  - destruct k as [|k]; cbn [find_day_content].
    + injection Hk as ->.
      assert (contains m text = true) as ->.
      { apply contains_occurs. destruct Hfirst as [-> _]. eexists _, _.
        reflexivity. }
      rewrite (split1_first _ _ _ _ Hfirst). reflexivity.
    + assert (contains m0 text = false) as ->.
      { apply contains_absent. apply (Hbefore 0%nat); [lia|reflexivity]. }
      apply (IH k m pre rest Hk); [|exact Hfirst].
      intros j m' Hj Hm'. apply (Hbefore (S j)); [lia|exact Hm'].
Qed.

Lemma slice_to_length (c tail : str) :
  slice_to (c ++ tail) (Z.of_nat (length c)) = c.
Proof.
  unfold slice_to. destruct (0 <=? Z.of_nat (length c)) eqn:E.
  - rewrite Nat2Z.id. apply take_app_length.
  - apply Z.leb_gt in E. lia.
Qed.

(** The rule of the content of a day. *)
Lemma day_content_rule text days day :
  0 <= day ->
  ((forall m, m ∈ day_markers day -> ~ occurs m text) ->
   find_day_content text day days (day_markers day) (day_markers day) = inr [])
  /\ (forall k m pre rest,
        day_markers day !! k = Some m ->
        (forall j m', (j < k)%nat -> day_markers day !! j = Some m' ->
                      ~ occurs m' text) ->
        first_occurrence m text pre rest ->
        ((forall h, later_header day days h -> ~ occurs h rest) ->
         find_day_content text day days (day_markers day) (day_markers day)
         = inr rest)
        /\ (forall h c tail,
              later_header day days h ->
              rest = c ++ h ++ tail ->
              (forall h' c' tail',
                 later_header day days h' -> rest = c' ++ h' ++ tail' ->
                 (length c <= length c')%nat) ->
              find_day_content text day days (day_markers day) (day_markers day)
              = inr c)).
Proof.
  intros Hday. split.
  - apply find_day_content_no_marker.
  - intros k m pre rest Hk Hbefore Hfirst. split.
    + intros Hno.
      rewrite (find_day_content_at _ _ _ _ _ _ _ _ _ Hk Hbefore Hfirst).
      rewrite (scan_next_days_none _ _ _ Hday Hno). reflexivity.
    + intros h c tail Hh Hrest Hmin.
      rewrite (find_day_content_at _ _ _ _ _ _ _ _ _ Hk Hbefore Hfirst).
      rewrite (scan_next_days_earliest _ _ _ _ _ _ Hday Hh Hrest Hmin).
      rewrite Hrest. rewrite slice_to_length. reflexivity.
Qed.

End DayContent.

(** ** The header example *)

Section HeaderExample.

Import Text LLM ParseSpec.

(** [Hocc n] says that the marker, which starts before position 33, occurs
    within the first [n] characters; they are known, and it does not. *)
Ltac not_within n Hocc :=
  specialize (Hocc n);
  lazymatch type of Hocc with
  | _ -> occurs ?h (take n ?s) =>
      apply (index_of_None h (take n s));
      [vm_compute; reflexivity
      |apply Hocc; change (length h) with (n - 32)%nat; lia]
  end.

Lemma later_header_2_3 h :
  later_header 2 3 h ->
  h = $"### Day 3" \/ h = $"## Day 3" \/ h = $"Day 3:" \/ h = $"Day 3 -".
Proof.
  intros (d & Hd & Hh). assert (d = 3) as -> by lia.
  change (day_markers 3)
    with [$"### Day 3"; $"## Day 3"; $"Day 3:"; $"Day 3 -"] in Hh.
  repeat (apply elem_of_cons in Hh as [Hh|Hh]; [auto|]). inversion Hh.
Qed.

Lemma day2_content_found pre post :
  ~ occurs $"### Day 2" pre ->
  find_day_content (pre ++ day2_passage ++ post) 2 3 (day_markers 2)
    (day_markers 2)
  = inr day2_content.
Proof.
  intros Hpre.
  assert (first_occurrence $"### Day 2" (pre ++ day2_passage ++ post) pre
            (day2_content ++ $"### Day 3" ++ post)) as Hfirst.
  { replace (pre ++ day2_passage ++ post)
      with (pre ++ $"### Day 2" ++ day2_content ++ $"### Day 3" ++ post)
      by (unfold day2_passage; rewrite <- !app_assoc; reflexivity).
    eapply first_occurrence_scan;
      [unfold lit; cbn; lia|vm_compute; reflexivity|exact Hpre]. }
  destruct (day_content_rule (pre ++ day2_passage ++ post) 3 2) as [_ Hrule];
    [lia|].
  destruct (Hrule 0%nat $"### Day 2" pre
              (day2_content ++ $"### Day 3" ++ post) eq_refl) as [_ Hcut];
    [intros j m' Hj; lia|exact Hfirst|].
  apply (Hcut $"### Day 3" day2_content post).
  - exists 3. split; [lia|]. left.
  - reflexivity.
  - intros h' c' tail' Hh' Hrest.
    change (length day2_content) with 33%nat.
    destruct (decide (33 <= length c')%nat) as [|Hlt]; [assumption|].
    exfalso.
    pose proof (fun n => occurs_in_prefix h' _ c' tail' n Hrest) as Hocc.
    apply later_header_2_3 in Hh' as [-> | [-> | [-> | ->]]].
    + not_within 41%nat Hocc.
    + not_within 40%nat Hocc.
    + not_within 38%nat Hocc.
    + not_within 39%nat Hocc.
Qed.

(** C6, as the code has it.  For a 3-day trip whose itinerary text holds
    the passage [### Day 2], [Morning: Museum], [Afternoon: Park],
    [### Day 3] (one per line) with no [### Day 2] before it, the content
    of day 2 is what stands between the two headers, so without the header
    of day 3, and parsing yields an entry for day 2 with morning [Museum],
    afternoon [Park] and no evening.  In general, for a day none of whose
    header spellings is in the text the content is empty; otherwise the
    header is the first occurrence of the first spelling, in the order of
    [day_markers], that is in the text, and the content runs from the end of
    that header to the earliest header of a later day (any spelling, any day
    up to the duration), or to the end of the text when there is none. *)
Theorem day_header_parsing request_id (req : TravelRequest.t)
    flights hotels pois :
  (forall pre post,
     TravelRequest.duration req = 3 ->
     ~ occurs $"### Day 2" pre ->
     let text := pre ++ day2_passage ++ post in
     find_day_content text 2 3 (day_markers 2) (day_markers 2)
     = inr day2_content
     /\ ~ occurs $"### Day 3" day2_content
     /\ exists it,
          _parse_itinerary request_id req text flights hotels pois = inr it
          /\ exists x,
               x ∈ Itinerary.daily_plan it
               /\ ItineraryDayActivity.day x = 2
               /\ ItineraryDayActivity.morning x = Some $"Museum"
               /\ ItineraryDayActivity.afternoon x = Some $"Park"
               /\ ItineraryDayActivity.evening x = None
               /\ ItineraryDayActivity.description x
                  = $"Morning: Museum" ++ NL ++ $"Afternoon: Park")
  /\ (forall text days day,
        0 <= day ->
        ((forall m, m ∈ day_markers day -> ~ occurs m text) ->
         find_day_content text day days (day_markers day) (day_markers day)
         = inr [])
        /\ (forall k m pre rest,
              day_markers day !! k = Some m ->
              (forall j m', (j < k)%nat -> day_markers day !! j = Some m' ->
                            ~ occurs m' text) ->
              first_occurrence m text pre rest ->
              ((forall h, later_header day days h -> ~ occurs h rest) ->
               find_day_content text day days (day_markers day)
                 (day_markers day) = inr rest)
              /\ (forall h c tail,
                    later_header day days h ->
                    rest = c ++ h ++ tail ->
                    (forall h' c' tail',
                       later_header day days h' ->
                       rest = c' ++ h' ++ tail' ->
                       (length c <= length c')%nat) ->
                    find_day_content text day days (day_markers day)
                      (day_markers day) = inr c))).
Proof.
  split; [|intros text days day; apply day_content_rule].
  intros pre post Hdur Hpre text.
  pose proof (day2_content_found pre post Hpre) as Hfound. fold text in Hfound.
  split; [exact Hfound|].
  split; [apply index_of_None; vm_compute; reflexivity|].
  destruct (parse_itinerary_spec request_id req text flights hotels pois)
    as (it & Hit & Hdays & Hspec & _).
  exists it. split; [exact Hit|].
  rewrite Hdur in Hdays, Hspec.
  assert (day_content text 3 2 = day2_content) as Hc.
  { unfold day_content. rewrite Hfound. reflexivity. }
  assert (2 ∈ days_of (Itinerary.daily_plan it)) as Hin.
  { rewrite Hdays. apply list_elem_of_filter. split.
    - unfold has_content. rewrite Hc. discriminate.
    - apply range_bounds. lia. }
  apply list_elem_of_fmap in Hin as (x & Hx2 & Hx).
  exists x. split; [exact Hx|]. split; [symmetry; exact Hx2|].
  specialize (Hspec x Hx). rewrite <- Hx2, Hc in Hspec.
  destruct Hspec as (_ & _ & Hdesc & Hmo & Haf & Hev & _).
  change (extract_part $"Morning:" day2_content) with (@inr exn _ (Some $"Museum"))
    in Hmo.
  change (extract_part $"Afternoon:" day2_content) with (@inr exn _ (Some $"Park"))
    in Haf.
  change (extract_part $"Evening:" day2_content) with (@inr exn (option str) None)
    in Hev.
  injection Hmo as <-. injection Haf as <-. injection Hev as <-.
  rewrite Hdesc. split; [reflexivity|]. split; [reflexivity|].
  split; [reflexivity|]. vm_compute. reflexivity.
Qed.

End HeaderExample.

(** ** The fallback itinerary *)

Section Fallback.

Import Text LLM ParseSpec.

Lemma fallback_three_days req :
  TravelRequest.budget req = 2000%float ->
  TravelRequest.duration req = 3 ->
  _generate_fallback_itinerary req
  = fallback_head req
    ++ (fallback_day 1 ++ fallback_day 2 ++ fallback_day 3)
    ++ fallback_tail $"1800.00".
Proof.
  intros Hb Hd. unfold _generate_fallback_itinerary, fallback_head.
  rewrite Hb, Hd.
  change (range 1 (3 + 1)) with [1; 2; 3].
  change (format_2f (ninety_percent 2000)) with $"1800.00".
  cbn [fold_left]. unfold fallback_tail.
  rewrite <- !app_assoc. reflexivity.
Qed.

Lemma fallback_text_of_segments req :
  TravelRequest.budget req = 2000%float ->
  TravelRequest.duration req = 3 ->
  _generate_fallback_itinerary req
  = text_of (fallback_segments (TravelRequest.origin req)
               (TravelRequest.destination req)).
Proof.
  intros Hb Hd. rewrite (fallback_three_days req Hb Hd).
  unfold fallback_head. rewrite Hd.
  unfold text_of, fallback_segments. cbn [map concat segment_text].
  rewrite <- !app_assoc. reflexivity.
Qed.

Lemma fallback_without_marker req m alive :
  TravelRequest.budget req = 2000%float ->
  TravelRequest.duration req = 3 ->
  (0 < length m)%nat ->
  scan m [] (fallback_segments (TravelRequest.origin req)
               (TravelRequest.destination req)) = Some alive ->
  ~ occurs m (TravelRequest.origin req) ->
  ~ occurs m (TravelRequest.destination req) ->
  ~ occurs m (_generate_fallback_itinerary req).
Proof.
  intros Hb Hd Hm Hscan Ho Hdest.
  rewrite (fallback_text_of_segments req Hb Hd).
  apply (scan_absent m _ alive Hm Hscan).
  unfold fallback_segments. repeat constructor; assumption.
Qed.

(** *** The day sections *)

Lemma isdigit_cases (c : ascii) :
  isdigit c = true -> c ∈ $"0123456789".
Proof.
  destruct c as [[] [] [] [] [] [] [] []]; intros H;
    try (vm_compute in H; discriminate H);
    unfold lit; cbn; repeat first [left; fail | right].
Qed.

Lemma starts_day_header_spec s :
  starts_day_header s = true
  <-> exists c rest, s = $"### Day " ++ c :: rest /\ isdigit c = true.
Proof.
  unfold starts_day_header. rewrite andb_true_iff, startswith_spec. split.
  - intros [[b ->] Hc]. rewrite drop_app_length' in Hc by reflexivity.
    destruct b as [|c rest]; [discriminate|]. exists c, rest. auto.
  - intros (c & rest & -> & Hc). split; [eauto|].
    rewrite drop_app_length' by reflexivity. exact Hc.
Qed.

(** An occurrence that starts inside [a] lies in [a] and the first
    characters of what follows. *)
Lemma occurs_from_inside m a b pre post :
  a ++ b = pre ++ m ++ post -> (length pre < length a)%nat ->
  occurs m (a ++ take (length m - 1) b).
Proof.
  intros E Hlt.
  apply (f_equal (take (length a + (length m - 1)))) in E.
  rewrite (take_app_ge a) in E by lia.
  rewrite (take_app_ge pre) in E by lia.
  rewrite (take_app_ge m) in E by lia.
  replace (length a + (length m - 1) - length a)%nat
    with (length m - 1)%nat in E by lia.
  rewrite E. eexists _, _. reflexivity.
Qed.

Lemma filter_seq_none (f : nat -> bool) (lo n : nat) :
  (forall i, (lo <= i < lo + n)%nat -> f i = false) ->
  List.filter f (seq lo n) = [].
Proof.
  revert lo. induction n as [|n IH]; intros lo H; [reflexivity|].
  cbn. rewrite (H lo) by lia. apply IH. intros i Hi. apply H. lia.
Qed.

Lemma filter_seq_shift (f : nat -> bool) (lo n : nat) :
  List.filter f (seq lo n)
  = map (Nat.add lo) (List.filter (fun j => f (lo + j)%nat) (seq 0 n)).
Proof.
  assert (seq lo n = map (Nat.add lo) (seq 0 n)) as ->.
  { induction lo as [|lo IH]; [rewrite map_id; reflexivity|].
    rewrite <- seq_shift, IH, map_map. reflexivity. }
  induction (seq 0 n) as [|x l IH]; [reflexivity|].
  cbn. destruct (f (lo + x)%nat); cbn; rewrite IH; reflexivity.
Qed.

(** No day section starts in the head of the fallback text of a
    three-day trip, when the names bring no day header of their own. *)
Lemma no_header_in_head req i :
  TravelRequest.duration req = 3 ->
  ~ occurs $"### Day " (TravelRequest.origin req) ->
  ~ occurs $"### Day " (TravelRequest.destination req) ->
  forall rest,
  (i < length (fallback_head req))%nat ->
  starts_day_header (drop i (fallback_head req ++ $"### Day " ++ rest)) = false.
Proof.
  intros Hd Ho Hdest rest Hi.
  destruct (starts_day_header _) eqn:E; [|reflexivity]. exfalso.
  apply starts_day_header_spec in E as (c & post & E & Hc).
  assert (fallback_head req ++ $"### Day " ++ rest
          = take i (fallback_head req ++ $"### Day " ++ rest)
            ++ ($"### Day " ++ [c]) ++ post) as Hsplit.
  { rewrite <- (take_drop i (fallback_head req ++ $"### Day " ++ rest)) at 1.
    rewrite E, <- app_assoc. reflexivity. }
  apply occurs_from_inside in Hsplit;
    [|rewrite length_take, length_app; lia].
  change (length ($"### Day " ++ [c]) - 1)%nat with 8%nat in Hsplit.
  rewrite take_app_length' in Hsplit by reflexivity.
  revert Hsplit.
  assert (occurs $"### Day " ($"### Day " ++ [c])) as Hpre
    by (exists [], [c]; reflexivity).
  assert (~ occurs ($"### Day " ++ [c]) (TravelRequest.origin req)) as Ho'.
  { intros (x & y & H). apply Ho. exists x, (c :: y). rewrite H.
    rewrite <- !app_assoc. reflexivity. }
  assert (~ occurs ($"### Day " ++ [c]) (TravelRequest.destination req))
    as Hd'.
  { intros (x & y & H). apply Hdest. exists x, (c :: y). rewrite H.
    rewrite <- !app_assoc. reflexivity. }
  replace (fallback_head req ++ $"### Day ")
    with (text_of (fallback_opening (TravelRequest.origin req)
                     (TravelRequest.destination req))).
  2: { unfold fallback_head. rewrite Hd.
       unfold text_of, fallback_opening. cbn [map concat segment_text].
       rewrite <- !app_assoc. reflexivity. }
  clear Ho Hdest Hpre Hi.
  generalize dependent (TravelRequest.origin req). intros origin Ho.
  generalize dependent (TravelRequest.destination req). intros destination Hd'.
  apply isdigit_cases in Hc. unfold lit in Hc. cbn in Hc.
  repeat (apply elem_of_cons in Hc as [->|Hc];
          [eapply scan_absent;
           [unfold lit; cbn; lia
           |vm_compute; reflexivity
           |unfold fallback_opening; repeat constructor; assumption]|]).
  inversion Hc.
Qed.

(** The day sections of the fallback text of a three-day trip start where
    the generated sections of days 1, 2 and 3 start, and nowhere else. *)
Lemma fallback_day_headers req :
  TravelRequest.budget req = 2000%float ->
  TravelRequest.duration req = 3 ->
  ~ occurs $"### Day " (TravelRequest.origin req) ->
  ~ occurs $"### Day " (TravelRequest.destination req) ->
  let p := length (fallback_head req) in
  let n := length (fallback_day 1) in
  day_headers (_generate_fallback_itinerary req)
  = [p; (p + n)%nat; (p + 2 * n)%nat].
Proof.
  intros Hb Hd Ho Hdest p n. rewrite (fallback_three_days req Hb Hd).
  set (sections := (fallback_day 1 ++ fallback_day 2 ++ fallback_day 3)
                   ++ fallback_tail $"1800.00").
  unfold day_headers. rewrite length_app. fold p.
  rewrite seq_app, List.filter_app. cbn [Nat.add].
  rewrite filter_seq_none.
  - rewrite filter_seq_shift. cbn [app].
    assert (List.filter (fun j => starts_day_header (drop j sections))
              (seq 0 (length sections)) = [0; n; 2 * n]%nat) as Hclosed
      by (vm_compute; reflexivity).
    erewrite (filter_ext_in _ (fun j => starts_day_header (drop j sections))).
    + rewrite Hclosed. cbn [map]. rewrite Nat.add_0_r. reflexivity.
    + intros j _. rewrite drop_app_ge by (unfold p; lia). f_equal.
      f_equal. unfold p. lia.
  - intros i Hi. cbn [Nat.add] in Hi.
    change sections
      with ($"### Day "
            ++ drop 8 ((fallback_day 1 ++ fallback_day 2 ++ fallback_day 3)
                       ++ fallback_tail $"1800.00")).
    apply (no_header_in_head req i Hd Ho Hdest). unfold p in Hi. lia.
Qed.

(** C5, as the code has it.  For a request with budget 2000 and duration 3
    the fallback text is the head of the template, then the three day
    sections of days 1, 2 and 3, then the budget lines with the amount
    1800.00; every day section is its [### Day N] header followed by the
    same placeholder lines for morning, afternoon and evening.  When
    neither the origin nor the destination contains [### Day ], a day
    section starts at exactly three positions of the text, those of the
    three sections; and when neither contains [Total cost:] or
    [Total Cost:], parsing the text yields an itinerary with a total cost
    of 1800.0. *)
Theorem fallback_determinism request_id (req : TravelRequest.t)
    flights hotels pois :
  TravelRequest.budget req = 2000%float ->
  TravelRequest.duration req = 3 ->
  let text := _generate_fallback_itinerary req in
  let p := length (fallback_head req) in
  let n := length (fallback_day 1) in
  text
  = fallback_head req
    ++ (fallback_day 1 ++ fallback_day 2 ++ fallback_day 3)
    ++ fallback_tail $"1800.00"
  /\ (forall day,
        fallback_day day = $"### Day " ++ str_int day ++ NL ++ fallback_placeholder)
  /\ (~ occurs $"### Day " (TravelRequest.origin req) ->
      ~ occurs $"### Day " (TravelRequest.destination req) ->
      day_headers text = [p; (p + n)%nat; (p + 2 * n)%nat]
      /\ length (day_headers text) = 3%nat)
  /\ (~ occurs $"Total cost:" (TravelRequest.origin req) ->
      ~ occurs $"Total Cost:" (TravelRequest.origin req) ->
      ~ occurs $"Total cost:" (TravelRequest.destination req) ->
      ~ occurs $"Total Cost:" (TravelRequest.destination req) ->
      exists it,
        _parse_itinerary request_id req text flights hotels pois = inr it
        /\ Itinerary.total_cost it = 1800%float).
Proof.
  intros Hb Hd text p n. split; [exact (fallback_three_days req Hb Hd)|].
  split; [intros day; reflexivity|]. split.
  { intros Ho Hdest.
    pose proof (fallback_day_headers req Hb Hd Ho Hdest) as H.
    cbn zeta in H. fold text p n in H. rewrite H. split; reflexivity. }
  intros Hol Hou Hdl Hdu.
  apply parse_itinerary_total_cost.
  rewrite parse_total_cost_no_marker.
  - rewrite Hb. reflexivity.
  - eapply (fallback_without_marker req); try eassumption;
      [unfold lit; cbn; lia|vm_compute; reflexivity].
  - eapply (fallback_without_marker req); try eassumption;
      [unfold lit; cbn; lia|vm_compute; reflexivity].
Qed.

End Fallback.
(** ** The cache: overwriting, deleting, sweeping *)

Section CacheExtras.

Import CacheSpec.

Context {PyObj : Type}.
Variable has_dict_or_is_collection : PyObj -> bool.
Variables json_dumps_default json_dumps : PyObj -> exc str.
Variable json_dumps_str : PyObj -> str.
Variable json_loads : str -> exc PyObj.
Variable of_str : str -> PyObj.

Let serialize :=
  Cache._serialize PyObj has_dict_or_is_collection json_dumps_default
    json_dumps json_dumps_str.
Let deserialize := Cache._deserialize PyObj json_loads of_str.
Let cache_get := Cache.get PyObj json_loads of_str.
Let cache_set :=
  Cache.set PyObj has_dict_or_is_collection json_dumps_default json_dumps
    json_dumps_str.

Implicit Types (cache : gmap str Cache.entry) (key k : str) (now : float).

(** [get] answers with what is visible under the key, and leaves under
    every key what was visible or, under another key, what was there. *)
Lemma get_visible cache key now :
  exists cache',
    cache_get cache key now
    = inr (deserialize ∘ Cache.value <$> visible cache now key, cache')
    /\ cache' !! key = visible cache now key
    /\ forall k, k <> key -> cache' !! k = cache !! k.
Proof.
  unfold cache_get, Cache.get, visible.
  destruct (cache !! key) as [e|] eqn:Hk.
  - destruct (Cache.expires_at e <=? now)%float eqn:E.
    + unfold Cache.del_item. rewrite Hk. cbn. eexists. split; [reflexivity|].
      split; [apply lookup_delete_eq|].
      intros k Hne. apply lookup_delete_ne. congruence.
    + eexists. split; [reflexivity|]. rewrite Hk. auto.
  - eexists. split; [reflexivity|]. rewrite Hk. auto.
Qed.

Lemma cleanup_expired_visible cache now :
  exists cache',
    Cache._cleanup_expired cache now = inr cache'
    /\ forall k, cache' !! k = visible cache now k.
Proof.
  unfold Cache._cleanup_expired.
  destruct (del_items_spec (Cache.keys_to_remove cache now) cache)
    as (cache' & Hrun & Hlook).
  - apply NoDup_ListNoDup. unfold Cache.keys_to_remove.
    apply NoDup_ListNoDup, NoDup_fst_filter, NoDup_fst_map_to_list.
  - intros key Hin. apply elem_of_keys_to_remove in Hin as (e & He & _).
    rewrite He. eauto.
  - exists cache'. split; [exact Hrun|]. intros k. rewrite Hlook.
    unfold visible.
    destruct (decide (k ∈ Cache.keys_to_remove cache now)) as [Hi|Hn].
    + apply elem_of_keys_to_remove in Hi as (e & -> & Hexp).
      rewrite Hexp. reflexivity.
    + destruct (cache !! k) as [e|] eqn:He; [|reflexivity].
      destruct (Cache.expires_at e <=? now)%float eqn:E; [|reflexivity].
      exfalso. apply Hn, elem_of_keys_to_remove. exists e.
      split; [exact He|exact E].
Qed.

Lemma visible_expires cache now k e :
  visible cache now k = Some e ->
  cache !! k = Some e /\ (Cache.expires_at e <=? now)%float = false.
Proof.
  unfold visible. destruct (cache !! k) as [e'|]; [|discriminate].
  destruct (Cache.expires_at e' <=? now)%float eqn:E; [discriminate|].
  intros [= ->]. split; [reflexivity|exact E].
Qed.

(** What is visible later is what was visible before and has not expired
    since. *)
Lemma visible_later cache now now' k :
  not_before now now' ->
  visible cache now' k
  = match visible cache now k with
    | Some e => if (Cache.expires_at e <=? now')%float then None else Some e
    | None => None
    end.
Proof.
  intros Hle. unfold visible. destruct (cache !! k) as [e|]; [|reflexivity].
  destruct (Cache.expires_at e <=? now)%float eqn:E; [|reflexivity].
  rewrite (float_leb_trans _ _ _ E Hle). reflexivity.
Qed.

Lemma visible_of_visible cache cache' now k :
  cache' !! k = visible cache now k ->
  visible cache' now k = visible cache now k.
Proof.
  intros H. unfold visible at 1. rewrite H.
  destruct (visible cache now k) as [e|] eqn:E; [|reflexivity].
  apply visible_expires in E as [_ Hlt]. rewrite Hlt. reflexivity.
Qed.

(** X1. Writing twice under one key keeps the second value only: the
    mapping is the one a single [set] of the second value gives, the other
    keys are as before the two writes, a [get] before the expiry of the
    second write returns the second value, and a [get] at or after that
    expiry returns [None] even if the first write would still be valid.
    The expiry of the second write is the binary64 sum of its clock
    reading and its expiry. *)
Theorem set_last_write_wins cache k (v1 v2 : PyObj) (t1 t2 : Z)
    (x1 x2 now1 now2 : float) :
  float_of_int t1 = inr x1 ->
  float_of_int t2 = inr x2 ->
  exists c1 c2,
    cache_set cache k v1 t1 now1 = inr c1
    /\ cache_set c1 k v2 t2 now2 = inr c2
    /\ cache_set cache k v2 t2 now2 = inr c2
    /\ (forall k', k' <> k -> c2 !! k' = cache !! k')
    /\ (forall now', (now2 + x2 <=? now')%float = false ->
          cache_get c2 k now' = inr (Some (deserialize (serialize v2)), c2))
    /\ (forall now', (now2 + x2 <=? now')%float = true ->
          cache_get c2 k now' = inr (None, delete k cache)).
Proof.
  intros H1 H2. unfold cache_set, Cache.set. rewrite H1, H2. cbn [bind].
  eexists _, _. split; [reflexivity|]. split; [reflexivity|].
  rewrite insert_insert_eq. split; [reflexivity|].
  split; [|split].
  - intros k' Hne. apply lookup_insert_ne. congruence.
  - intros now' Hlt.
    exact (get_live json_loads of_str _ k (Cache.Entry _ _) now'
             (lookup_insert_eq _ _ _) Hlt).
  - intros now' Hle.
    rewrite <- (delete_insert_eq cache k
                  (Cache.Entry (serialize v2) (now2 + x2)%float)).
    exact (get_expired json_loads of_str _ k (Cache.Entry _ _) now'
             (lookup_insert_eq _ _ _) Hle).
Qed.

(** X2. [get] never raises and touches no key but the one asked for: the
    entries of the other keys are as before, after a miss the key is
    absent, after a hit the mapping is unchanged, and asking again at the
    same instant gives the same answer and changes nothing more. *)
Theorem get_touches_only_its_key cache key now :
  exists r cache',
    cache_get cache key now = inr (r, cache')
    /\ (forall k, k <> key -> cache' !! k = cache !! k)
    /\ (r = None -> cache' !! key = None)
    /\ (r <> None -> cache' = cache)
    /\ cache_get cache' key now = inr (r, cache').
Proof.
  unfold cache_get, Cache.get.
  destruct (cache !! key) as [e|] eqn:Hk.
  - destruct (Cache.expires_at e <=? now)%float eqn:E.
    + unfold Cache.del_item. rewrite Hk. cbn.
      exists None, (delete key cache). split; [reflexivity|].
      split; [intros k Hne; apply lookup_delete_ne; congruence|].
      split; [intros _; apply lookup_delete_eq|].
      split; [congruence|]. rewrite lookup_delete_eq. reflexivity.
    + eexists _, cache. split; [reflexivity|].
      split; [reflexivity|]. split; [discriminate|].
      split; [reflexivity|]. rewrite Hk, E. reflexivity.
  - exists None, cache. split; [reflexivity|].
    split; [reflexivity|]. split; [intros _; exact Hk|].
    split; [congruence|]. rewrite Hk. reflexivity.
Qed.

(** X3. [delete] removes the key and nothing else, does nothing (and
    raises nothing) when the key is absent, so that deleting twice is
    deleting once; a [get] of the deleted key returns [None]; after
    [clear] every [get] returns [None]. *)
Theorem delete_and_clear cache key now :
  let cache' := Cache.delete cache key in
  cache' !! key = None
  /\ (forall k, k <> key -> cache' !! k = cache !! k)
  /\ (cache !! key = None -> cache' = cache)
  /\ Cache.delete cache' key = cache'
  /\ cache_get cache' key now = inr (None, cache')
  /\ (forall k, cache_get (Cache.clear cache) k now
                = inr (None, Cache.clear cache)).
Proof.
  intros cache'.
  assert (cache' !! key = None) as Hnone.
  { unfold cache', Cache.delete. destruct (cache !! key) eqn:E;
      [apply lookup_delete_eq|exact E]. }
  split; [exact Hnone|]. split; [|split; [|split; [|split]]].
  - intros k Hne. unfold cache', Cache.delete.
    destruct (cache !! key); [|reflexivity].
    apply lookup_delete_ne. congruence.
  - intros H. unfold cache', Cache.delete. rewrite H. reflexivity.
  - unfold Cache.delete at 1. rewrite Hnone. reflexivity.
  - unfold cache_get, Cache.get. rewrite Hnone. reflexivity.
  - intros k. unfold cache_get, Cache.get, Cache.clear.
    rewrite lookup_empty. reflexivity.
Qed.

(** X4. A [set] with an expiry of zero or less stores an entry that has
    already expired: a [get] of the key at the same or a later clock
    reading returns [None] and leaves the key absent, whatever was stored
    under it before.  (An expiry below the range of the binary64 numbers
    makes [set] raise [OverflowError], and nothing is stored.) *)
Theorem set_nonpositive_expiry cache k (v : PyObj) (t : Z) (now now' : float) :
  t <= 0 -> not_before now now' ->
  match cache_set cache k v t now with
  | inr cache' => cache_get cache' k now' = inr (None, delete k cache)
  | inl e => e = OverflowError
  end.
Proof.
  intros Ht Hle. pose proof (set_spec has_dict_or_is_collection
                               json_dumps_default json_dumps json_dumps_str
                               cache k v t now) as Hset.
  fold cache_set in Hset.
  destruct (float_of_int t) as [e|x] eqn:Hx.
  - destruct Hset as [-> ->]. reflexivity.
  - rewrite Hset.
    rewrite <- (delete_insert_eq cache k
                  (Cache.Entry
                     (Cache._serialize PyObj has_dict_or_is_collection
                        json_dumps_default json_dumps json_dumps_str v)
                     (now + x)%float)).
    apply (get_expired json_loads of_str _ k (Cache.Entry _ _) now'
             (lookup_insert_eq _ _ _)).
    cbn [Cache.expires_at].
    exact (float_add_nonpositive now now' x t Ht Hx Hle).
Qed.

(** X6. Sweeps compose: a sweep at [t1] followed by a sweep at a later
    [t2] leaves the mapping a single sweep at [t2] leaves, and that
    mapping holds exactly the entries of the original one that have not
    expired at [t2]. *)
Theorem sweep_composes cache (t1 t2 : float) :
  not_before t1 t2 ->
  exists c1 c2,
    Cache._cleanup_expired cache t1 = inr c1
    /\ Cache._cleanup_expired c1 t2 = inr c2
    /\ Cache._cleanup_expired cache t2 = inr c2
    /\ (forall k e, c2 !! k = Some e <->
                    cache !! k = Some e
                    /\ (Cache.expires_at e <=? t2)%float = false).
Proof.
  intros Hle.
  destruct (cleanup_expired_visible cache t1) as (c1 & H1 & L1).
  destruct (cleanup_expired_visible c1 t2) as (c2 & H2 & L2).
  destruct (cleanup_expired_visible cache t2) as (c2' & H2' & L2').
  assert (c2' = c2) as ->.
  { apply map_eq. intros k. rewrite L2, L2'.
    rewrite (visible_later cache t1 t2 k Hle).
    unfold visible at 2. rewrite L1.
    destruct (visible cache t1 k); reflexivity. }
  exists c1, c2. split; [exact H1|]. split; [exact H2|]. split; [exact H2'|].
  intros k e. rewrite L2'. split.
  - apply visible_expires.
  - intros [He Hlt]. unfold visible. rewrite He, Hlt. reflexivity.
Qed.

(** *** Histories of calls *)

Let replay_ops :=
  replay PyObj has_dict_or_is_collection json_dumps_default json_dumps
    json_dumps_str json_loads of_str.

Lemma same_view_later now now' c1 c2 :
  not_before now now' -> same_view now c1 c2 -> same_view now' c1 c2.
Proof.
  intros Hle H k. rewrite !(visible_later _ now now' k Hle), (H k).
  reflexivity.
Qed.

Lemma visible_insert cache now key e k :
  visible (<[key := e]> cache) now k
  = if decide (k = key)
    then (if (Cache.expires_at e <=? now)%float then None else Some e)
    else visible cache now k.
Proof.
  unfold visible. destruct (decide (k = key)) as [->|Hne].
  - rewrite lookup_insert_eq. reflexivity.
  - rewrite lookup_insert_ne by congruence. reflexivity.
Qed.

Lemma visible_delete cache now key k :
  visible (Cache.delete cache key) now k
  = if decide (k = key) then None else visible cache now k.
Proof.
  unfold visible, Cache.delete. destruct (decide (k = key)) as [->|Hne].
  - destruct (cache !! key) eqn:E; [rewrite lookup_delete_eq|rewrite E];
      reflexivity.
  - destruct (cache !! key); [|reflexivity].
    rewrite lookup_delete_ne by congruence. reflexivity.
Qed.

(** What the first call of a history reads: the same in both mappings. *)
Let same_start (ops : list (float * op PyObj)) c1 c2 : Prop :=
  match ops with
  | [] => True
  | (now, _) :: _ => same_view now c1 c2
  end.

Lemma same_start_next now (ops : list (float * op PyObj)) c1 c2 :
  same_view now c1 c2 ->
  Forall (not_before now) (map fst ops) ->
  same_start ops c1 c2.
Proof.
  destruct ops as [|[now' o] ops]; [intros; exact I|].
  intros Hv Hall. cbn [map fst] in Hall. apply Forall_cons in Hall as [Hle _].
  exact (same_view_later _ _ _ _ Hle Hv).
Qed.

Lemma replay_same_view (ops : list (float * op PyObj)) :
  forall c1 c2,
  same_start ops c1 c2 ->
  StronglySorted not_before (map fst ops) ->
  same_answers (replay_ops ops c1)
    (replay_ops (List.filter (fun o => negb (is_sweep (snd o))) ops) c2).
Proof.
  induction ops as [|[now o] ops IH]; intros c1 c2 Hv Hs.
  - reflexivity.
  - cbn [map fst] in Hs. cbn [same_start] in Hv.
    apply StronglySorted_inv in Hs as [Hs Hrest].
    destruct o as [key|key v expiry|key| |]; cbn [List.filter snd is_sweep negb].
    + unfold replay_ops. cbn [replay]. fold replay_ops.
      destruct (get_visible c1 key now) as (c1' & G1 & K1 & F1).
      destruct (get_visible c2 key now) as (c2' & G2 & K2 & F2).
      unfold cache_get in G1, G2. rewrite G1, G2. cbn [bind fst snd].
      assert (same_view now c1' c2') as Hv'.
      { intros k. destruct (decide (k = key)) as [->|Hne].
        - rewrite (visible_of_visible c1 c1' now key K1).
          rewrite (visible_of_visible c2 c2' now key K2). apply Hv.
        - unfold visible. rewrite F1, F2 by exact Hne. apply Hv. }
      specialize (IH c1' c2' (same_start_next _ _ _ _ Hv' Hrest) Hs).
      unfold same_answers in IH |- *.
      destruct (replay_ops ops c1') as [e1|[rs1 d1]],
        (replay_ops _ c2') as [e2|[rs2 d2]]; cbn; try exact IH.
      rewrite (Hv key), IH. reflexivity.
    + unfold replay_ops. cbn [replay]. fold replay_ops.
      unfold Cache.set.
      destruct (float_of_int expiry) as [e|x]; cbn [bind]; [reflexivity|].
      apply IH; [|exact Hs]. apply (same_start_next now); [|exact Hrest].
      intros k. rewrite !visible_insert.
      destruct (decide (k = key)); [reflexivity|apply Hv].
    + unfold replay_ops. cbn [replay]. fold replay_ops.
      apply IH; [|exact Hs]. apply (same_start_next now); [|exact Hrest].
      intros k. rewrite !visible_delete.
      destruct (decide (k = key)); [reflexivity|apply Hv].
    + unfold replay_ops. cbn [replay]. fold replay_ops.
      apply IH; [|exact Hs]. apply (same_start_next now); [|exact Hrest].
      intros k. reflexivity.
    + unfold replay_ops. cbn [replay]. fold replay_ops.
      destruct (cleanup_expired_visible c1 now) as (c1' & -> & L1).
      cbn [bind].
      apply IH; [|exact Hs]. apply (same_start_next now); [|exact Hrest].
      intros k. rewrite (visible_of_visible c1 c1' now k (L1 k)). apply Hv.
Qed.

(** A history whose expiries are in range runs to its end. *)
Lemma replay_returns (ops : list (float * op PyObj)) :
  forall cache,
  Forall (fun o => expiry_in_range (snd o)) ops ->
  exists rs cache', replay_ops ops cache = inr (rs, cache').
Proof.
  induction ops as [|[now o] ops IH]; intros cache Hok.
  - cbn. eauto.
  - apply Forall_cons in Hok as [Ho Hok].
    destruct o as [key|key v expiry|key| |];
      unfold replay_ops; cbn [replay]; fold replay_ops.
    + destruct (get_visible cache key now) as (c' & G & _).
      unfold cache_get in G. rewrite G. cbn [bind snd fst].
      destruct (IH c' Hok) as (rs & d & ->). cbn. eauto.
    + destruct Ho as [x Hx]. unfold Cache.set. cbn [snd] in Hx.
      rewrite Hx. cbn [bind]. apply IH, Hok.
    + apply IH, Hok.
    + apply IH, Hok.
    + destruct (cleanup_expired_visible cache now) as (c' & -> & _).
      cbn [bind]. apply IH, Hok.
Qed.

(** X5. The sweep is invisible to the readers: in a history of [get],
    [set], [delete], [clear] and sweeps run at clock readings that never
    go back, the [get]s return the same answers as in the history without
    the sweeps.  No call raises but a [set] whose expiry is beyond the
    range of the binary64 numbers, and then both histories stop with the
    same exception. *)
Theorem sweep_unobservable (ops : list (float * op PyObj)) cache :
  StronglySorted not_before (map fst ops) ->
  let without := List.filter (fun o => negb (is_sweep (snd o))) ops in
  same_answers (replay_ops ops cache) (replay_ops without cache)
  /\ (Forall (fun o => expiry_in_range (snd o)) ops ->
      exists rs c1 c2,
        replay_ops ops cache = inr (rs, c1)
        /\ replay_ops without cache = inr (rs, c2)).
Proof.
  intros Hs without.
  assert (same_answers (replay_ops ops cache) (replay_ops without cache))
    as Hsame.
  { apply replay_same_view; [|exact Hs].
    destruct ops as [|[now o] ops]; [exact I|]. intros k. reflexivity. }
  split; [exact Hsame|]. intros Hok.
  destruct (replay_returns ops cache Hok) as (rs & c1 & H1).
  destruct (replay_returns without cache) as (rs' & c2 & H2).
  { apply Forall_forall. intros o Ho.
    apply list_elem_of_In, filter_In in Ho as [Ho _].
    rewrite Forall_forall in Hok. apply Hok, list_elem_of_In, Ho. }
  unfold same_answers in Hsame. rewrite H1, H2 in Hsame. subst rs'.
  eauto.
Qed.

End CacheExtras.

(** ** The parser: summary, activities, amounts *)

Section ParserExtras.

Import Text LLM ParseSpec AmountSpec.

Implicit Types (m s a b text : str) (req : TravelRequest.t).

Lemma occurs_app_l m a b : occurs m a -> occurs m (a ++ b).
Proof.
  intros (x & y & ->). exists x, (y ++ b). rewrite <- !app_assoc. reflexivity.
Qed.

Lemma occurs_app_r m a b : occurs m b -> occurs m (a ++ b).
Proof.
  intros (x & y & ->). exists (a ++ x), y. rewrite <- !app_assoc. reflexivity.
Qed.

Lemma first_occurrence_before m s a b : first_occurrence m s a b -> m <> [] -> ~ occurs m a.
Proof.
  intros [-> Hmin] Hm (x & y & Ha).
  specialize (Hmin x (y ++ m ++ b)).
  rewrite Ha, <- !app_assoc in Hmin. specialize (Hmin eq_refl).
  rewrite !length_app in Hmin.
  destruct m; [contradiction|]. cbn in Hmin. lia.
Qed.

(** *** The summary *)

Lemma parse_summary_cases text :
  (exists s rest, first_occurrence (NL ++ NL) text s rest
                  /\ parse_summary text = inr s)
  \/ (~ occurs (NL ++ NL) text /\ parse_summary text = inr (take 200 text)).
Proof.
  unfold parse_summary. destruct (contains (NL ++ NL) text) eqn:E.
  - left. destruct (split1_contains _ _ E) as (s & rest & Hf & ->).
    exists s, rest. split; [exact Hf|reflexivity].
  - right. split; [apply contains_absent; exact E|reflexivity].
Qed.

(** X7. The parser returns an itinerary whose summary holds no blank
    line and is either the text before the first blank line of the
    itinerary text, whatever its length (the text is the summary, a blank
    line and a rest, and no blank line starts earlier in the text), or,
    for a text without a blank line, its first 200 characters. *)
Theorem summary_spec request_id req text flights hotels pois :
  exists it,
    _parse_itinerary request_id req text flights hotels pois = inr it
    /\ ~ occurs (NL ++ NL) (Itinerary.summary it)
    /\ ((exists rest,
           first_occurrence (NL ++ NL) text (Itinerary.summary it) rest)
        \/ (~ occurs (NL ++ NL) text
            /\ Itinerary.summary it = take 200 text
            /\ (length (Itinerary.summary it) <= 200)%nat)).
Proof.
  destruct (parse_itinerary_spec request_id req text flights hotels pois)
    as (it & Hit & _ & _ & _ & Hs & _).
  exists it. split; [exact Hit|].
  destruct (parse_summary_cases text)
    as [(s & rest & Hf & Hs')|[Hno Hs']]; rewrite Hs' in Hs;
    injection Hs as Hs; rewrite <- Hs.
  - split; [apply (first_occurrence_before _ _ _ _ Hf); discriminate|].
    left. exists rest. exact Hf.
  - split.
    { intros Hocc. apply Hno. rewrite <- (take_drop 200 text).
      apply occurs_app_l. exact Hocc. }
    right. split; [exact Hno|]. split; [reflexivity|].
    rewrite length_take. lia.
Qed.

(** *** The activities of a day *)

Lemma lstrip_suffix s : lstrip s `suffix_of` s.
Proof.
  induction s as [|c s IH]; cbn; [reflexivity|].
  destruct (isspace c); [|reflexivity].
  destruct IH as [k Hk]. exists (c :: k). cbn. f_equal. exact Hk.
Qed.

Lemma lstrip_head s c rest : lstrip s = c :: rest -> isspace c = false.
Proof.
  induction s as [|d s IH]; cbn; [discriminate|].
  destruct (isspace d) eqn:E; [exact IH|].
  intros [= <- _]. exact E.
Qed.

Lemma lstrip_id s :
  (forall c rest, s = c :: rest -> isspace c = false) -> lstrip s = s.
Proof.
  destruct s as [|c s]; [reflexivity|]. intros H. cbn.
  rewrite (H c s eq_refl). reflexivity.
Qed.

(** What [strip] returns: a stretch of the text that neither starts nor
    ends with a blank. *)
Lemma strip_spec s :
  (exists l r, s = l ++ strip s ++ r)
  /\ (forall c rest, strip s = c :: rest -> isspace c = false)
  /\ (forall c front, strip s = front ++ [c] -> isspace c = false).
Proof.
  unfold strip.
  destruct (lstrip_suffix s) as [l Hl].
  destruct (lstrip_suffix (rev (lstrip s))) as [r Hr].
  set (inner := lstrip (rev (lstrip s))) in *.
  apply (f_equal (@rev ascii)) in Hr.
  rewrite rev_involutive, rev_app_distr in Hr.
  split; [|split].
  - exists l, (rev r). rewrite <- Hr. exact Hl.
  - intros c rest Hc. rewrite Hc in Hr. exact (lstrip_head _ _ _ Hr).
  - intros c front Hc.
    apply (f_equal (@rev ascii)) in Hc.
    rewrite rev_involutive, rev_app_distr in Hc.
    exact (lstrip_head _ _ _ Hc).
Qed.

Lemma strip_elem s c : c ∈ strip s -> c ∈ s.
Proof.
  destruct (strip_spec s) as [(l & r & Hs) _]. intros H. rewrite Hs.
  apply elem_of_app. right. apply elem_of_app. left. exact H.
Qed.

Lemma first_occurrence_char c s a b :
  first_occurrence [c] s a b -> c ∉ a.
Proof.
  intros Hf Hin. apply (first_occurrence_before _ _ _ _ Hf); [discriminate|].
  apply list_elem_of_split in Hin as (x & y & ->). exists x, y. reflexivity.
Qed.

(** What [extract_part] returns: one line, trimmed. *)
Lemma extract_part_value label c v :
  extract_part label c = inr (Some v) ->
  ("010"%char ∉ v)
  /\ (forall d rest, v = d :: rest -> isspace d = false)
  /\ (forall d front, v = front ++ [d] -> isspace d = false)
  /\ exists before after line,
       first_occurrence label c before after
       /\ line `prefix_of` after
       /\ v = strip line.
Proof.
  unfold extract_part. destruct (contains label c) eqn:E; [|discriminate].
  destruct (split1_contains _ _ E) as (before & after & Hf & ->). cbn.
  destruct (contains NL after) eqn:En.
  - destruct (split1_contains _ _ En) as (line & rest & Hl & ->). cbn.
    intros [= <-]. destruct (strip_spec line) as (_ & Hh & Ht).
    split.
    { intros Hin. apply strip_elem in Hin.
      exact (first_occurrence_char _ _ _ _ Hl Hin). }
    split; [exact Hh|]. split; [exact Ht|].
    exists before, after, line. split; [exact Hf|]. split; [|reflexivity].
    destruct Hl as [-> _]. eexists. reflexivity.
  - assert (split1 NL after = [after]) as ->.
    { unfold split1. unfold contains in En.
      destruct (index_of NL after); [discriminate|reflexivity]. }
    cbn. intros [= <-]. destruct (strip_spec after) as (_ & Hh & Ht).
    split.
    { intros Hin. apply strip_elem in Hin.
      apply contains_absent in En. apply En.
      apply list_elem_of_split in Hin as (x & y & ->). exists x, y. reflexivity. }
    split; [exact Hh|]. split; [exact Ht|].
    exists before, after, after. split; [exact Hf|]. split; reflexivity.
Qed.

(** X8. In every entry of the plan of a parsed itinerary, a morning,
    afternoon or evening activity holds no line feed and neither starts
    nor ends with a blank. *)
Theorem activities_are_trimmed_lines request_id req text flights hotels pois :
  exists it,
    _parse_itinerary request_id req text flights hotels pois = inr it
    /\ forall x v,
         x ∈ Itinerary.daily_plan it ->
         ItineraryDayActivity.morning x = Some v
         \/ ItineraryDayActivity.afternoon x = Some v
         \/ ItineraryDayActivity.evening x = Some v ->
         ("010"%char ∉ v)
         /\ (forall d rest, v = d :: rest -> isspace d = false)
         /\ (forall d front, v = front ++ [d] -> isspace d = false).
Proof.
  destruct (parse_itinerary_spec request_id req text flights hotels pois)
    as (it & Hit & _ & Hspec & _).
  exists it. split; [exact Hit|]. intros x v Hx Hv.
  destruct (Hspec x Hx) as (_ & _ & _ & Hmo & Haf & Hev & _).
  destruct Hv as [Hv|[Hv|Hv]]; rewrite Hv in *.
  - destruct (extract_part_value _ _ _ Hmo) as (H1 & H2 & H3 & _). auto.
  - destruct (extract_part_value _ _ _ Haf) as (H1 & H2 & H3 & _). auto.
  - destruct (extract_part_value _ _ _ Hev) as (H1 & H2 & H3 & _). auto.
Qed.

(** *** The amount after the marker *)

Lemma span_spec (p : ascii -> bool) s :
  s = (span p s).1 ++ (span p s).2
  /\ forallb p (span p s).1 = true
  /\ (forall c rest, (span p s).2 = c :: rest -> p c = false).
Proof.
  induction s as [|c s (IH1 & IH2 & IH3)]; cbn.
  - repeat split. intros; discriminate.
  - destruct (p c) eqn:E.
    + destruct (span p s) as [x y]. cbn in *. rewrite E.
      split; [f_equal; exact IH1|]. split; [exact IH2|exact IH3].
    + cbn. split; [reflexivity|]. split; [reflexivity|].
      intros d rest [= <- _]. exact E.
Qed.

Lemma match_cost_here_shape s g :
  match_cost_here s = Some g -> exists whole frac, amount_shape g whole frac.
Proof.
  unfold match_cost_here. destruct (startswith $"SGD" s); [|discriminate].
  destruct (span_spec is_digit_or_comma (lstrip (drop 3 s))) as (_ & Hw & _).
  destruct (span is_digit_or_comma (lstrip (drop 3 s))) as [whole rest].
  cbn [fst snd] in Hw.
  destruct (decide (whole = [])) as [|Hne]; [discriminate|].
  destruct rest as [|c rest'].
  - intros [= <-]. exists whole, []. unfold amount_shape.
    rewrite app_nil_r. auto.
  - destruct (span_spec isdigit rest') as (_ & Hf & _).
    destruct (span isdigit rest') as [frac rest'']. cbn [fst snd] in Hf.
    destruct (Ascii.eqb c ".") eqn:Ec; cbn [andb].
    + apply Ascii.eqb_eq in Ec as ->.
      destruct (bool_decide (frac = [])) eqn:Ef; cbn [negb].
      * intros [= <-]. exists whole, []. unfold amount_shape.
        rewrite app_nil_r. auto.
      * intros [= <-]. exists whole, frac. unfold amount_shape.
        apply bool_decide_eq_false in Ef.
        destruct (decide (frac = [])); [contradiction|]. auto.
    + intros [= <-]. exists whole, []. unfold amount_shape.
      rewrite app_nil_r. auto.
Qed.

Lemma forallb_of_Forall {A} (f : A -> bool) (l : list A) :
  Forall (fun x => f x = true) l -> forallb f l = true.
Proof. induction 1 as [|x l Hx _ IH]; cbn; [reflexivity|]. rewrite Hx. exact IH. Qed.

Lemma cost_at_here s : cost_at s 0 -> exists g, match_cost_here s = Some g.
Proof.
  intros (blanks & c & rest & Hd & Hb & Hc).
  change (drop 0 s) with s in Hd. subst s.
  unfold match_cost_here. rewrite startswith_app.
  change (drop 3 ($"SGD" ++ ?x)) with x.
  rewrite lstrip_blanks by (apply forallb_of_Forall; exact Hb).
  cbn [lstrip]. rewrite (digit_or_comma_not_space _ Hc).
  cbn [span]. rewrite Hc. destruct (span is_digit_or_comma rest) as [w r].
  destruct (decide (c :: w = [])); [discriminate|].
  destruct r as [|d r']; [eauto|].
  destruct (span isdigit r'). destruct (_ && _); eauto.
Qed.

(** X9. The search for the amount finds the leftmost place where the
    currency code, optional blanks and a digit or comma stand, and finds
    nothing exactly when there is no such place; what it reads there is
    digits and commas, then possibly a point and digits. *)
Theorem search_cost_leftmost s :
  match search_cost s with
  | Some g =>
      exists i whole frac,
        cost_at s i
        /\ (forall j, (j < i)%nat -> ~ cost_at s j)
        /\ match_cost_here (drop i s) = Some g
        /\ amount_shape g whole frac
  | None => forall i, ~ cost_at s i
  end.
Proof.
  induction s as [|c s IH].
  - cbn [search_cost]. destruct (match_cost_here []) as [g|] eqn:E.
    + discriminate E.
    + intros i (blanks & d & rest & Hd & _). destruct i; discriminate Hd.
  - cbn [search_cost]. destruct (match_cost_here (c :: s)) as [g|] eqn:E.
    + destruct (match_cost_here_shape _ _ E) as (whole & frac & Hshape).
      exists 0%nat, whole, frac.
      split; [exact (match_cost_here_cost_at _ _ E)|].
      split; [intros j Hj; lia|]. split; [exact E|exact Hshape].
    + assert (~ cost_at (c :: s) 0) as H0.
      { intros H. destruct (cost_at_here _ H) as [g Hg]. congruence. }
      destruct (search_cost s) as [g|].
      * destruct IH as (i & whole & frac & Hi & Hmin & Hm & Hshape).
        exists (S i), whole, frac. split; [exact Hi|].
        split; [|split; [exact Hm|exact Hshape]].
        intros [|j] Hj; [exact H0|]. apply Hmin. lia.
      * intros [|i]; [exact H0|]. apply IH.
Qed.

(** *** The value of the amount *)

Lemma search_cost_shape s g :
  search_cost s = Some g -> exists whole frac, amount_shape g whole frac.
Proof.
  induction s as [|c s IH]; cbn [search_cost].
  - destruct (match_cost_here []) eqn:E; [|discriminate].
    intros [= <-]. exact (match_cost_here_shape _ _ E).
  - destruct (match_cost_here (c :: s)) eqn:E; [|exact IH].
    intros [= <-]. exact (match_cost_here_shape _ _ E).
Qed.

Lemma replace_comma s : replace $"," [] s = List.filter not_comma s.
Proof.
  change (replace $"," [] s) with (replace_from [","%char] [] 0 s).
  induction s as [|c s IH]; [reflexivity|].
  cbn [replace_from startswith List.filter length Nat.sub app].
  unfold not_comma at 1. rewrite Ascii.eqb_sym.
  destruct (Ascii.eqb c ","); cbn [negb]; rewrite IH; reflexivity.
Qed.

Lemma filter_not_comma_whole whole :
  forallb is_digit_or_comma whole = true ->
  List.filter not_comma whole = List.filter isdigit whole
  /\ forallb isdigit (List.filter isdigit whole) = true.
Proof.
  induction whole as [|c w IH]; cbn; [auto|].
  intros H. apply andb_true_iff in H as [Hc Hw].
  destruct (IH Hw) as [IH1 IH2]. unfold not_comma at 1.
  unfold is_digit_or_comma in Hc.
  destruct (Ascii.eqb c ",") eqn:Ec; cbn [negb].
  - apply Ascii.eqb_eq in Ec as ->. cbn. auto.
  - rewrite orb_false_r in Hc. rewrite Hc. cbn. rewrite Hc, IH1. auto.
Qed.

Lemma filter_not_comma_digits frac :
  forallb isdigit frac = true -> List.filter not_comma frac = frac.
Proof.
  induction frac as [|c f IH]; cbn; [reflexivity|].
  intros H. apply andb_true_iff in H as [Hc Hf].
  assert (not_comma c = true) as ->.
  { unfold not_comma. destruct (Ascii.eqb c ",") eqn:E; [|reflexivity].
    apply Ascii.eqb_eq in E as ->. discriminate Hc. }
  rewrite (IH Hf). reflexivity.
Qed.

Lemma span_digits ds : forallb isdigit ds = true -> span isdigit ds = (ds, []).
Proof.
  intros H. rewrite <- (app_nil_r ds) at 1. rewrite (span_all _ _ _ H).
  cbn. rewrite app_nil_r. reflexivity.
Qed.

Lemma py_float_whole ds :
  forallb isdigit ds = true -> ds <> [] ->
  py_float ds = inr (decimal_to_float (int_of_digits ds) 0).
Proof.
  intros H Hne. unfold py_float. rewrite (span_digits _ H).
  destruct (decide (ds = [])); [contradiction|reflexivity].
Qed.

Lemma py_float_fraction ds frac :
  forallb isdigit ds = true -> forallb isdigit frac = true -> frac <> [] ->
  py_float (ds ++ "."%char :: frac)
  = inr (decimal_to_float (int_of_digits (ds ++ frac)) (length frac)).
Proof.
  intros H Hf Hne. unfold py_float. rewrite (span_all _ _ _ H).
  rewrite (span_stop isdigit "."%char) by reflexivity. cbn [fst snd].
  rewrite app_nil_r. change (Ascii.eqb "." ".") with true. cbn iota.
  rewrite (span_digits _ Hf).
  destruct (decide (ds ++ frac = [])) as [E|_]; [|reflexivity].
  apply app_eq_nil in E as [_ E]. contradiction.
Qed.

(** X10. Once an amount is found after the marker the parser picks, the
    total cost is the number its digits write, the commas dropped and the
    digits after the point counted as decimals (the nearest binary64
    number); 90% of the budget is used only for an amount made of commas
    alone. *)
Theorem total_cost_of_amount request_id req text flights hotels pois
    marker pre post g :
  marker = $"Total cost:"
  \/ (marker = $"Total Cost:" /\ ~ occurs $"Total cost:" text) ->
  first_occurrence marker text pre post ->
  search_cost post = Some g ->
  exists it whole frac,
    _parse_itinerary request_id req text flights hotels pois = inr it
    /\ amount_shape g whole frac
    /\ Itinerary.total_cost it
       = if decide (List.filter isdigit whole ++ frac = [])
         then ninety_percent (TravelRequest.budget req)
         else decimal_to_float
                (int_of_digits (List.filter isdigit whole ++ frac))
                (length frac).
Proof.
  intros Hm Hfirst Hg.
  destruct (search_cost_shape _ _ Hg) as (whole & frac & Hshape).
  pose proof Hshape as (Hw0 & Hw & Hf & Hgeq).
  destruct (filter_not_comma_whole _ Hw) as [Hfw Hds].
  assert (parse_total_cost req text
          = inr (if decide (List.filter isdigit whole ++ frac = [])
                 then ninety_percent (TravelRequest.budget req)
                 else decimal_to_float
                        (int_of_digits (List.filter isdigit whole ++ frac))
                        (length frac))) as Hcost.
  { rewrite (parse_total_cost_after req _ _ _ _ Hm Hfirst), Hg.
    rewrite replace_comma, Hgeq, List.filter_app, Hfw.
    destruct (decide (frac = [])) as [->|Hne].
    - cbn [List.filter]. rewrite !app_nil_r.
      destruct (decide (List.filter isdigit whole = [])) as [->|Hd].
      + reflexivity.
      + rewrite (py_float_whole _ Hds Hd). reflexivity.
    - cbn [List.filter]. change (not_comma ".") with true. cbn iota.
      rewrite (filter_not_comma_digits _ Hf).
      rewrite (py_float_fraction _ _ Hds Hf Hne).
      destruct (decide (List.filter isdigit whole ++ frac = [])) as [E|_];
        [|reflexivity].
      apply app_eq_nil in E as [_ E]. contradiction. }
  destruct (parse_itinerary_total_cost request_id req text flights hotels pois
              _ Hcost) as (it & Hit & Hv).
  exists it, whole, frac. auto.
Qed.

(** *** A header followed by a digit *)

Lemma lstrip_app_nonspace a c :
  isspace c = false -> exists a', lstrip (a ++ [c]) = a' ++ [c].
Proof.
  intros Hc. induction a as [|d a [a' IH]]; cbn.
  - rewrite Hc. exists []. reflexivity.
  - destruct (isspace d); [eauto|]. exists (d :: a). reflexivity.
Qed.

Lemma strip_keeps_head c r :
  isspace c = false -> exists r', strip (c :: r) = c :: r'.
Proof.
  intros Hc. unfold strip. cbn [lstrip]. rewrite Hc. cbn [rev].
  destruct (lstrip_app_nonspace (rev r) c Hc) as [a' ->].
  exists (rev a'). rewrite rev_app_distr. reflexivity.
Qed.

Lemma isdigit_not_space c : isdigit c = true -> isspace c = false.
Proof.
  destruct c as [[] [] [] [] [] [] [] []]; vm_compute; congruence.
Qed.

Lemma day_marker_head d h :
  h ∈ day_markers d ->
  exists h', h = "#"%char :: h' \/ h = "D"%char :: h'.
Proof.
  unfold day_markers. intros H.
  repeat (apply elem_of_cons in H as [->|H]; [eexists; (left; reflexivity) || (right; reflexivity)|]).
  inversion H.
Qed.

(** A later header is not found at the very start of a text that starts
    with a digit. *)
Lemma scan_next_days_after_digit day days c post :
  0 <= day -> isdigit c = true ->
  match scan_next_days day days (day_markers day) (c :: post) with
  | Some i => 1 <= i
  | None => True
  end.
Proof.
  intros Hday Hc. rewrite (scan_next_days_eq _ _ _ Hday).
  pose proof (fold_earlier_spec (c :: post)
                (concat (map day_markers (range (day + 1) (days + 1)))) None)
    as Hspec.
  destruct (fold_left _ _ None) as [i|]; [|exact I].
  destruct Hspec as ([Hinit|(h & Hh & Hidx & Hi)] & _); [discriminate|].
  destruct (decide (i = 0)) as [->|]; [|lia]. exfalso.
  apply later_header_elem in Hh as (d & _ & Hh).
  destruct (day_marker_head _ _ Hh) as (h' & Hh').
  apply index_of_Some in Hidx as (a & b & [Heq _] & Hlen).
  destruct a; [|discriminate Hlen]. cbn in Heq.
  destruct Hh' as [-> | ->]; injection Heq as -> _; discriminate Hc.
Qed.

(** X11. The parser does not ask that the number of a header ends: when
    the first [### Day d] of the text is followed by a digit, as in the
    header of a day ten times later, day [d] of the trip still gets an
    entry, and its description starts with that digit. *)
Theorem header_followed_by_digit request_id req text flights hotels pois
    (d : Z) (c : ascii) (pre post : str) :
  1 <= d <= TravelRequest.duration req ->
  isdigit c = true ->
  first_occurrence ($"### Day " ++ str_int d) text pre (c :: post) ->
  exists it x rest,
    _parse_itinerary request_id req text flights hotels pois = inr it
    /\ x ∈ Itinerary.daily_plan it
    /\ ItineraryDayActivity.day x = d
    /\ ItineraryDayActivity.description x = c :: rest.
Proof.
  intros Hd Hc Hfirst.
  destruct (parse_itinerary_spec request_id req text flights hotels pois)
    as (it & Hit & Hdays & Hspec & _).
  assert (exists r, day_content text (TravelRequest.duration req) d = c :: r)
    as [r Hcontent].
  { unfold day_content.
    rewrite (find_day_content_at text d (TravelRequest.duration req)
               (day_markers d) (day_markers d) 0 _ pre (c :: post) eq_refl);
      [|intros j m' Hj; lia|exact Hfirst].
    pose proof (scan_next_days_after_digit d (TravelRequest.duration req) c post
                  ltac:(lia) Hc) as Hi.
    destruct (scan_next_days _ _ _ _) as [i|]; [|eauto].
    unfold slice_to, ret. destruct (0 <=? i) eqn:E; [|apply Z.leb_gt in E; lia].
    destruct (Z.to_nat i) as [|n] eqn:En; [lia|]. cbn. eauto. }
  assert (d ∈ days_of (Itinerary.daily_plan it)) as Hin.
  { rewrite Hdays. apply list_elem_of_filter. split.
    - unfold has_content. rewrite Hcontent. discriminate.
    - apply range_bounds. lia. }
  unfold days_of in Hin. apply list_elem_of_fmap in Hin as (x & Hx & Hin).
  destruct (Hspec x Hin) as (_ & _ & Hdesc & _).
  rewrite <- Hx, Hcontent in Hdesc.
  destruct (strip_keeps_head c r (isdigit_not_space _ Hc)) as [r' Hr'].
  exists it, x, r'. rewrite Hdesc, Hr'. auto.
Qed.

End ParserExtras.

(** ** The fallback itinerary, whatever the duration and the budget *)

Section FallbackPlan.

Import Text LLM ParseSpec FallbackSpec.

Implicit Types (m s a b text : str) (req : TravelRequest.t).

(** *** The fallback text, whatever the duration *)

Lemma fold_left_app_concat {A} (f : A -> str) (l : list A) :
  forall init : str,
  fold_left (fun acc x => acc ++ f x) l init = init ++ concat (map f l).
Proof.
  induction l as [|x l IH]; intros init; cbn.
  - rewrite app_nil_r. reflexivity.
  - rewrite IH, <- app_assoc. reflexivity.
Qed.

Lemma fallback_text_eq req :
  _generate_fallback_itinerary req
  = fallback_head req ++ fallback_days req
    ++ fallback_tail (format_2f (ninety_percent (TravelRequest.budget req))).
Proof.
  unfold _generate_fallback_itinerary, fallback_head, fallback_days,
    fallback_tail. cbn zeta.
  rewrite fold_left_app_concat. rewrite <- !app_assoc. reflexivity.
Qed.

Lemma double_absent (c : ascii) (a : str) :
  c ∉ a -> ~ occurs [c; c] (a ++ [c]).
Proof.
  intros Hc (x & y & H). destruct (rev y) as [|d y'] eqn:Ey.
  - apply (f_equal (@rev ascii)) in Ey. rewrite rev_involutive in Ey.
    cbn in Ey. subst y.
    change (x ++ [c; c] ++ []) with (x ++ [c] ++ [c]) in H.
    rewrite app_assoc in H. apply app_inj_tail in H as [-> _].
    apply Hc. apply elem_of_app. right. left.
  - apply (f_equal (@rev ascii)) in Ey. rewrite rev_involutive in Ey.
    cbn in Ey. subst y.
    rewrite !app_assoc in H. apply app_inj_tail in H as [-> _].
    apply Hc. rewrite <- !app_assoc. apply elem_of_app. right. left.
Qed.

(** *** Numbers as text *)

Lemma digit_val_digit_char d : 0 <= d < 10 -> digit_val (digit_char d) = d.
Proof.
  intros H.
  assert (d = 0 \/ d = 1 \/ d = 2 \/ d = 3 \/ d = 4 \/ d = 5 \/ d = 6
          \/ d = 7 \/ d = 8 \/ d = 9) as Hd by lia.
  repeat (destruct Hd as [->|Hd]; [reflexivity|]). subst. reflexivity.
Qed.

Lemma int_of_digits_snoc ds c :
  int_of_digits (ds ++ [c]) = 10 * int_of_digits ds + digit_val c.
Proof. unfold int_of_digits. rewrite fold_left_app. reflexivity. Qed.

(** With enough fuel, [digits_of] writes the decimal digits of [n]: they
    read back as [n], and there are as many as [n] needs. *)
Lemma digits_of_value fuel :
  forall n acc, 0 <= n < 10 ^ Z.of_nat (S fuel) ->
  exists ds, digits_of (S fuel) n acc = ds ++ acc
             /\ int_of_digits ds = n
             /\ ds <> []
             /\ (1 <= n -> 10 ^ (Z.of_nat (length ds) - 1) <= n)
             /\ n < 10 ^ Z.of_nat (length ds).
Proof.
  induction fuel as [|fuel IH]; intros n acc Hn.
  - exists [digit_char (n mod 10)]. change (10 ^ Z.of_nat 1) with 10 in Hn.
    cbn [digits_of]. split; [destruct (n <? 10); reflexivity|].
    rewrite Z.mod_small by lia.
    split; [apply digit_val_digit_char; lia|].
    split; [discriminate|]. cbn. lia.
  - change (digits_of (S (S fuel)) n acc)
      with (if n <? 10 then digit_char (n mod 10) :: acc
            else digits_of (S fuel) (n / 10) (digit_char (n mod 10) :: acc)).
    destruct (n <? 10) eqn:E.
    + apply Z.ltb_lt in E. exists [digit_char (n mod 10)].
      split; [reflexivity|]. rewrite Z.mod_small by lia.
      split; [apply digit_val_digit_char; lia|].
      split; [discriminate|]. cbn. lia.
    + apply Z.ltb_ge in E.
      assert (0 <= n / 10 < 10 ^ Z.of_nat (S fuel)) as Hq.
      { split; [apply Z.div_pos; lia|].
        apply Z.div_lt_upper_bound; [lia|].
        rewrite <- Z.pow_succ_r by lia. rewrite <- Nat2Z.inj_succ. lia. }
      destruct (IH (n / 10) (digit_char (n mod 10) :: acc) Hq)
        as (ds & -> & Hv & Hne & Hlo & Hhi).
      exists (ds ++ [digit_char (n mod 10)]).
      split; [rewrite <- app_assoc; reflexivity|].
      split.
      { rewrite int_of_digits_snoc, Hv, digit_val_digit_char
          by (apply Z.mod_pos_bound; lia).
        pose proof (Z.div_mod n 10). lia. }
      split; [destruct ds; discriminate|].
      rewrite length_app. cbn [length].
      replace (Z.of_nat (length ds + 1)) with (Z.succ (Z.of_nat (length ds)))
        by lia.
      rewrite Z.pow_succ_r by lia.
      replace (Z.succ (Z.of_nat (length ds)) - 1)
        with (Z.succ (Z.of_nat (length ds) - 1)) by lia.
      assert (1 <= Z.of_nat (length ds)) as Hlen
        by (destruct ds; [contradiction|cbn; lia]).
      rewrite Z.pow_succ_r by lia.
      pose proof (Z.div_mod n 10). pose proof (Z.mod_pos_bound n 10).
      specialize (Hlo ltac:(lia)). split; [intros _|]; lia.
Qed.

Lemma str_int_value n :
  0 <= n ->
  int_of_digits (str_int n) = n
  /\ str_int n <> []
  /\ (1 <= n -> 10 ^ (Z.of_nat (length (str_int n)) - 1) <= n)
  /\ n < 10 ^ Z.of_nat (length (str_int n)).
Proof.
  intros Hn. unfold str_int.
  destruct (n <? 0) eqn:E; [apply Z.ltb_lt in E; lia|].
  unfold str_nonneg.
  destruct (digits_of_value (Z.to_nat (Z.log2 n)) n []) as (ds & -> & H).
  - split; [exact Hn|]. rewrite Nat2Z.inj_succ, Z2Nat.id by apply Z.log2_nonneg.
    destruct (decide (n = 0)) as [->|Hpos]; [reflexivity|].
    destruct (Z.log2_spec n ltac:(lia)) as [_ Hlt].
    eapply Z.lt_le_trans; [exact Hlt|].
    apply Z.pow_le_mono_l. pose proof (Z.log2_nonneg n). lia.
  - rewrite app_nil_r. exact H.
Qed.

Lemma str_int_inj j k : 0 <= j -> 0 <= k -> str_int j = str_int k -> j = k.
Proof.
  intros Hj Hk H.
  rewrite <- (proj1 (str_int_value j Hj)), <- (proj1 (str_int_value k Hk)), H.
  reflexivity.
Qed.

Lemma str_int_length_mono j k :
  0 <= j <= k -> (length (str_int j) <= length (str_int k))%nat.
Proof.
  intros Hjk.
  destruct (str_int_value j ltac:(lia)) as (_ & Hne & Hlo & _).
  destruct (str_int_value k ltac:(lia)) as (_ & Hne' & _ & Hhi).
  destruct (decide (j = 0)) as [->|Hpos].
  - destruct (str_int k); [contradiction|]. change (str_int 0) with [digit_char 0].
    cbn. lia.
  - specialize (Hlo ltac:(lia)).
    destruct (decide (length (str_int j) <= length (str_int k))%nat) as [|Hgt];
      [assumption|exfalso].
    assert (10 ^ Z.of_nat (length (str_int k))
            <= 10 ^ (Z.of_nat (length (str_int j)) - 1)) as Hpow
      by (apply Z.pow_le_mono_r; lia).
    lia.
Qed.

(** *** Occurrences and separators *)

Lemma occurs_length m s : occurs m s -> (length m <= length s)%nat.
Proof. intros (x & y & ->). rewrite !length_app. lia. Qed.

Lemma occurs_same_length m s :
  occurs m s -> (length s <= length m)%nat -> m = s.
Proof.
  intros (x & y & ->). rewrite !length_app. intros H.
  destruct x; [|cbn in H; lia]. destruct y; [|cbn in H; lia].
  cbn. rewrite app_nil_r. reflexivity.
Qed.

Lemma occurs_trans a m s : occurs a m -> occurs m s -> occurs a s.
Proof.
  intros (x & y & ->) (u & v & ->). exists (u ++ x), (y ++ v).
  rewrite <- !app_assoc. reflexivity.
Qed.

(** An occurrence of [m] that starts at or before a character foreign to
    [m] ends before it. *)
Lemma occurs_before_foreign (x : ascii) m a b u v :
  x ∉ m -> a ++ x :: b = u ++ m ++ v -> (length u <= length a)%nat ->
  occurs m a.
Proof.
  intros Hx H Hu.
  destruct (decide (length u + length m <= length a)%nat) as [Hle|Hgt].
  - rewrite <- (take_app_length a (x :: b)).
    exact (occurs_in_prefix m _ u v _ H Hle).
  - exfalso. apply Hx.
    assert ((a ++ x :: b) !! length a = Some x) as Hl
      by apply list_lookup_middle, eq_refl.
    rewrite H in Hl. rewrite lookup_app_r in Hl by exact Hu.
    rewrite lookup_app_l in Hl by lia.
    eapply list_elem_of_lookup_2. exact Hl.
Qed.

Lemma occurs_confined (x : ascii) m a b :
  x ∉ m -> occurs m (a ++ x :: b) -> occurs m a \/ occurs m b.
Proof.
  intros Hx (u & v & H).
  destruct (decide (length u <= length a)%nat) as [Hle|Hgt].
  - left. exact (occurs_before_foreign x m a b u v Hx H Hle).
  - right. exists (drop (S (length a)) u), v.
    apply (f_equal (drop (S (length a)))) in H.
    rewrite (drop_app_le u) in H by lia.
    rewrite <- H.
    replace (a ++ x :: b) with ((a ++ [x]) ++ b)
      by (rewrite <- app_assoc; reflexivity).
    rewrite drop_app_length'; [reflexivity|].
    rewrite length_app. cbn. lia.
Qed.

(** *** The headers of the fallback text *)

Lemma fallback_day_eq day : fallback_day day = header day ++ body.
Proof.
  unfold fallback_day, header, body, fallback_placeholder.
  rewrite <- !app_assoc. reflexivity.
Qed.

Lemma header_has_prefix day : occurs $"### Day " (header day).
Proof. exists [], (str_int day). reflexivity. Qed.

Lemma digits_no_char (c : ascii) (ds : str) :
  isdigit c = false -> forallb isdigit ds = true -> c ∉ ds.
Proof.
  intros Hc Hds Hin. rewrite forallb_forall in Hds.
  apply list_elem_of_In in Hin. rewrite (Hds _ Hin) in Hc. discriminate.
Qed.

Lemma str_int_no_char (c : ascii) n :
  0 <= n -> isdigit c = false -> c ∉ str_int n.
Proof.
  intros Hn Hc. destruct (str_int_digits n Hn) as (o & ds & -> & Hds).
  exact (digits_no_char c _ Hc Hds).
Qed.

Lemma marker_no_line_feed d h :
  0 <= d -> h ∈ day_markers d -> "010"%char ∉ h.
Proof.
  intros Hd Hh Hin. unfold day_markers in Hh.
  pose proof (str_int_no_char "010"%char d Hd eq_refl) as Hno.
  repeat (apply elem_of_cons in Hh as [->|Hh];
          [repeat (apply elem_of_app in Hin as [Hin|Hin]);
           try (exact (Hno Hin));
           vm_compute in Hin;
           repeat (apply elem_of_cons in Hin as [Hin|Hin]; [discriminate|]);
           inversion Hin|]).
  inversion Hh.
Qed.

Lemma marker_has_Day d h : h ∈ day_markers d -> occurs $"Day " h.
Proof.
  unfold day_markers. intros Hh.
  repeat (apply elem_of_cons in Hh as [->|Hh];
          [first [ exists $"### ", (str_int d); reflexivity
                 | exists $"## ", (str_int d); reflexivity
                 | exists [], (str_int d ++ $":"); reflexivity
                 | exists [], (str_int d ++ $" -"); reflexivity ]|]).
  inversion Hh.
Qed.

Lemma header_not_in_earlier j k :
  0 <= j < k -> ~ occurs (header k) (header j).
Proof.
  intros Hjk Hocc.
  assert (header k = header j) as Heq.
  { apply (occurs_same_length _ _ Hocc). unfold header.
    rewrite !length_app. pose proof (str_int_length_mono j k ltac:(lia)). lia. }
  unfold header in Heq. apply app_inv_head in Heq.
  apply str_int_inj in Heq; lia.
Qed.

Lemma header_not_in_line k (line : str) :
  index_of $"### Day " line = None -> ~ occurs (header k) line.
Proof.
  intros Hidx Hocc. apply (index_of_None _ _ Hidx).
  exact (occurs_trans _ _ _ (header_has_prefix k) Hocc).
Qed.

(** The header of a day is not in the sections of the days before. *)
Lemma header_not_in_days k (js : list Z) (rest : str) :
  0 <= k -> (forall j, j ∈ js -> 0 <= j < k) ->
  ~ occurs (header k) rest ->
  ~ occurs (header k) (concat (map fallback_day js) ++ rest).
Proof.
  intros Hk. induction js as [|j js IH]; intros Hjs Hrest; [exact Hrest|].
  cbn [map concat]. rewrite <- app_assoc.
  set (tail := concat (map fallback_day js) ++ rest).
  assert (~ occurs (header k) tail) as Htail.
  { apply IH; [|exact Hrest]. intros j' Hj'. apply Hjs. right. exact Hj'. }
  assert ("010"%char ∉ header k) as Hnl
    by (apply (marker_no_line_feed k); [exact Hk|left]).
  replace (fallback_day j ++ tail)
    with (header j
          ++ "010"%char
             :: ($"- Morning: Breakfast at hotel, explore local area"
                 ++ "010"%char
                    :: ($"- Afternoon: Visit main tourist attractions"
                        ++ "010"%char
                           :: ($"- Evening: Dinner at local restaurant"
                               ++ "010"%char :: ([] ++ "010"%char :: tail)))))
    by (unfold fallback_day, header, NL; rewrite <- !app_assoc; reflexivity).
  intros Hocc.
  apply (occurs_confined _ _ _ _ Hnl) in Hocc as [Hocc|Hocc].
  { apply (header_not_in_earlier j k); [apply Hjs; left|exact Hocc]. }
  apply (occurs_confined _ _ _ _ Hnl) in Hocc as [Hocc|Hocc].
  { revert Hocc. apply header_not_in_line. vm_compute. reflexivity. }
  apply (occurs_confined _ _ _ _ Hnl) in Hocc as [Hocc|Hocc].
  { revert Hocc. apply header_not_in_line. vm_compute. reflexivity. }
  apply (occurs_confined _ _ _ _ Hnl) in Hocc as [Hocc|Hocc].
  { revert Hocc. apply header_not_in_line. vm_compute. reflexivity. }
  apply (occurs_confined _ _ _ _ Hnl) in Hocc as [Hocc|Hocc].
  { revert Hocc. apply header_not_in_line. vm_compute. reflexivity. }
  exact (Htail Hocc).
Qed.

(** The head of the fallback text holds no header, unless the origin or
    the destination bring one. *)
Lemma head_text req :
  fallback_head req
  = text_of (head_segments (TravelRequest.origin req)
               (TravelRequest.destination req)
               (str_int (TravelRequest.duration req))).
Proof.
  unfold fallback_head, head_segments, text_of.
  cbn [map concat segment_text]. rewrite app_nil_r. reflexivity.
Qed.

Lemma header_has_digit k :
  0 <= k ->
  exists c, isdigit c = true /\ occurs ($"### Day " ++ [c]) (header k).
Proof.
  intros Hk. destruct (str_int_digits k Hk) as (o & ds & Heq & Hds).
  exists o. cbn in Hds. apply andb_true_iff in Hds as [Ho _].
  split; [exact Ho|]. exists [], ds. unfold header. rewrite Heq.
  rewrite <- app_assoc. reflexivity.
Qed.

Lemma head_without_header req (c : ascii) :
  isdigit c = true ->
  ~ occurs $"### Day " (TravelRequest.origin req) ->
  ~ occurs $"### Day " (TravelRequest.destination req) ->
  ~ occurs ($"### Day " ++ [c]) (fallback_head req).
Proof.
  intros Hc Ho Hd. rewrite head_text.
  assert (occurs $"### Day " ($"### Day " ++ [c])) as Hpre
    by (exists [], [c]; reflexivity).
  assert (~ occurs ($"### Day " ++ [c])
            (str_int (TravelRequest.duration req))) as Hn.
  { intros (x & y & Hocc).
    apply (str_int_no_char "#"%char (TravelRequest.duration req));
      [unfold TravelRequest.duration; lia|reflexivity|].
    rewrite Hocc. apply elem_of_app. right. left. }
  assert (~ occurs ($"### Day " ++ [c]) (TravelRequest.origin req)) as Ho'
    by (intros H; exact (Ho (occurs_trans _ _ _ Hpre H))).
  assert (~ occurs ($"### Day " ++ [c]) (TravelRequest.destination req)) as Hd'
    by (intros H; exact (Hd (occurs_trans _ _ _ Hpre H))).
  clear Ho Hd Hpre.
  generalize dependent (str_int (TravelRequest.duration req)). intros days Hn.
  generalize dependent (TravelRequest.origin req). intros origin Ho.
  generalize dependent (TravelRequest.destination req). intros destination Hd.
  destruct c as [[] [] [] [] [] [] [] []];
    try (exfalso; vm_compute in Hc; discriminate Hc);
    (eapply scan_absent;
     [unfold lit; cbn; lia
     |vm_compute; reflexivity
     |unfold head_segments; repeat constructor; assumption]).
Qed.

(** *** Where the header of a day stands *)

Lemma range_split lo k hi :
  lo <= k < hi -> range lo hi = range lo k ++ k :: range (k + 1) hi.
Proof.
  intros H. unfold range.
  replace (hi - lo) with ((k - lo) + (hi - k)) by lia.
  rewrite seqZ_app by lia. f_equal.
  replace (lo + (k - lo)) with k by lia.
  rewrite seqZ_cons by lia. f_equal. f_equal. lia.
Qed.

Lemma after_header_next req k :
  1 <= k < TravelRequest.duration req ->
  after_header req k = body ++ header (k + 1) ++ after_header req (k + 1).
Proof.
  intros Hk. unfold after_header.
  rewrite (range_split (k + 1) (k + 1) (TravelRequest.duration req + 1)) by lia.
  replace (range (k + 1) (k + 1)) with (@nil Z)
    by (unfold range; rewrite seqZ_nil by lia; reflexivity).
  cbn [app map concat]. rewrite fallback_day_eq, <- !app_assoc. reflexivity.
Qed.

Lemma fallback_split req k :
  1 <= k <= TravelRequest.duration req ->
  _generate_fallback_itinerary req
  = (fallback_head req ++ concat (map fallback_day (range 1 k)))
    ++ header k ++ after_header req k.
Proof.
  intros Hk. rewrite fallback_text_eq. unfold fallback_days, after_header.
  rewrite (range_split 1 k (TravelRequest.duration req + 1)) by lia.
  rewrite map_app, concat_app. cbn [map concat].
  rewrite fallback_day_eq, <- !app_assoc. reflexivity.
Qed.

Lemma removelast_shorter m : m <> [] -> (length (removelast m) < length m)%nat.
Proof.
  induction m as [|c m IH]; [contradiction|]. intros _.
  destruct m as [|d m]; [cbn; lia|].
  change (removelast (c :: d :: m)) with (c :: removelast (d :: m)).
  cbn [length]. specialize (IH ltac:(discriminate)). cbn [length] in IH. lia.
Qed.

Lemma header_first req k :
  1 <= k <= TravelRequest.duration req ->
  ~ occurs $"### Day " (TravelRequest.origin req) ->
  ~ occurs $"### Day " (TravelRequest.destination req) ->
  first_occurrence (header k) (_generate_fallback_itinerary req)
    (fallback_head req ++ concat (map fallback_day (range 1 k)))
    (after_header req k).
Proof.
  intros Hk Ho Hd. rewrite (fallback_split req k Hk).
  apply first_occurrence_intro. rewrite <- app_assoc.
  assert (exists head', fallback_head req = head' ++ ["010"%char])
    as [head' Hhead].
  { unfold fallback_head, NL. rewrite !app_assoc. eexists. reflexivity. }
  assert ("010"%char ∉ header k) as Hnl
    by (apply (marker_no_line_feed k); [lia|left]).
  rewrite Hhead, <- app_assoc. cbn [app]. intros Hocc.
  apply (occurs_confined _ _ _ _ Hnl) in Hocc as [Hocc|Hocc].
  - destruct (header_has_digit k ltac:(lia)) as (c & Hc & Hpre).
    apply (head_without_header req c Hc Ho Hd).
    rewrite Hhead. apply occurs_app_l.
    exact (occurs_trans _ _ _ Hpre Hocc).
  - revert Hocc. apply header_not_in_days; [lia| |].
    + intros j Hj. apply range_bounds in Hj. lia.
    + intros Hocc. apply occurs_length in Hocc.
      pose proof (removelast_shorter (header k)) as Hlt.
      unfold header in Hlt at 1. specialize (Hlt ltac:(discriminate)). lia.
Qed.

(** *** The content of a day of the fallback text *)

Lemma body_split : exists body0, body = body0 ++ ["010"%char]
                                 /\ index_of $"Day " body0 = None.
Proof.
  exists (removelast body). split; vm_compute; reflexivity.
Qed.

Lemma fallback_day_content req k :
  1 <= k <= TravelRequest.duration req ->
  ~ occurs $"### Day " (TravelRequest.origin req) ->
  ~ occurs $"### Day " (TravelRequest.destination req) ->
  exists rest,
    day_content (_generate_fallback_itinerary req)
      (TravelRequest.duration req) k = body ++ rest.
Proof.
  intros Hk Ho Hd. unfold day_content.
  rewrite (find_day_content_at _ k (TravelRequest.duration req)
             (day_markers k) (day_markers k) 0 (header k)
             (fallback_head req ++ concat (map fallback_day (range 1 k)))
             (after_header req k) eq_refl);
    [|intros j m' Hj; lia|exact (header_first req k Hk Ho Hd)].
  destruct (decide (k < TravelRequest.duration req)) as [Hlt|Hge].
  - rewrite (after_header_next req k) by lia.
    rewrite (scan_next_days_earliest k (TravelRequest.duration req) _
               (header (k + 1)) body (after_header req (k + 1)));
      [|lia| |reflexivity|].
    + unfold ret. rewrite slice_to_length. exists []. rewrite app_nil_r.
      reflexivity.
    + exists (k + 1). split; [lia|left].
    + intros h' c' tail' (d & Hd' & Hh') Heq.
      destruct (decide (length body <= length c')%nat) as [|Hshort];
        [assumption|exfalso].
      destruct body_split as (body0 & Hbody & Hnone).
      rewrite Hbody, <- app_assoc in Heq. cbn [app] in Heq.
      assert (length c' <= length body0)%nat as Hle.
      { rewrite Hbody, length_app in Hshort. cbn in Hshort. lia. }
      assert ("010"%char ∉ h') as Hnl
        by (apply (marker_no_line_feed d); [lia|exact Hh']).
      pose proof (occurs_before_foreign _ _ _ _ _ _ Hnl Heq Hle) as Hocc.
      apply (index_of_None _ _ Hnone).
      exact (occurs_trans _ _ _ (marker_has_Day _ _ Hh') Hocc).
  - rewrite scan_next_days_none; [|lia|].
    + unfold ret, after_header. eauto.
    + intros h (d & Hd' & _). lia.
Qed.

(** *** Reading a line after a label *)

Lemma extract_part_line (label a line z : str) :
  index_of label (a ++ removelast label) = None ->
  index_of NL line = None ->
  extract_part label (a ++ label ++ line ++ NL ++ z) = inr (Some (strip line)).
Proof.
  intros Hlabel Hline. unfold extract_part.
  assert (first_occurrence label (a ++ label ++ line ++ NL ++ z) a
            (line ++ NL ++ z)) as Hf
    by (apply first_occurrence_intro, index_of_None; exact Hlabel).
  assert (contains label (a ++ label ++ line ++ NL ++ z) = true) as ->
    by (apply contains_occurs; eexists _, _; reflexivity).
  rewrite (split1_first _ _ _ _ Hf). cbn [bind item lookup list_lookup ret].
  assert (first_occurrence NL (line ++ NL ++ z) line z) as Hn.
  { apply first_occurrence_intro. change (removelast NL) with (@nil ascii).
    rewrite app_nil_r. apply index_of_None. exact Hline. }
  rewrite (split1_first _ _ _ _ Hn). reflexivity.
Qed.

Lemma body_activities (rest : str) :
  extract_part $"Morning:" (body ++ rest)
  = inr (Some $"Breakfast at hotel, explore local area")
  /\ extract_part $"Afternoon:" (body ++ rest)
     = inr (Some $"Visit main tourist attractions")
  /\ extract_part $"Evening:" (body ++ rest)
     = inr (Some $"Dinner at local restaurant").
Proof.
  split; [|split].
  - replace (body ++ rest)
      with ((NL ++ $"- ") ++ $"Morning:"
            ++ $" Breakfast at hotel, explore local area" ++ NL
            ++ ($"- Afternoon: Visit main tourist attractions" ++ NL
                ++ $"- Evening: Dinner at local restaurant" ++ NL ++ NL
                ++ rest))
      by (unfold body, fallback_placeholder; rewrite <- !app_assoc;
          reflexivity).
    rewrite extract_part_line by (vm_compute; reflexivity).
    reflexivity.
  - replace (body ++ rest)
      with ((NL ++ $"- Morning: Breakfast at hotel, explore local area" ++ NL
             ++ $"- ") ++ $"Afternoon:"
            ++ $" Visit main tourist attractions" ++ NL
            ++ ($"- Evening: Dinner at local restaurant" ++ NL ++ NL ++ rest))
      by (unfold body, fallback_placeholder; rewrite <- !app_assoc;
          reflexivity).
    rewrite extract_part_line by (vm_compute; reflexivity).
    reflexivity.
  - replace (body ++ rest)
      with ((NL ++ $"- Morning: Breakfast at hotel, explore local area" ++ NL
             ++ $"- Afternoon: Visit main tourist attractions" ++ NL
             ++ $"- ") ++ $"Evening:"
            ++ $" Dinner at local restaurant" ++ NL ++ (NL ++ rest))
      by (unfold body, fallback_placeholder; rewrite <- !app_assoc;
          reflexivity).
    rewrite extract_part_line by (vm_compute; reflexivity).
    reflexivity.
Qed.

Lemma filter_all {A} (P : A -> Prop) `{forall x, Decision (P x)} (l : list A) :
  Forall P l -> filter P l = l.
Proof.
  induction 1 as [|x l Hx _ IH]; [reflexivity|].
  rewrite filter_cons_True by exact Hx. rewrite IH. reflexivity.
Qed.

(** *** The amount written by the fallback generator *)

Lemma str_nonneg_digits n :
  0 <= n -> forallb isdigit (str_nonneg n) = true.
Proof.
  intros Hn. unfold str_nonneg.
  destruct (digits_of_spec (Z.to_nat (Z.log2 n)) n [] Hn) as (o & ds & -> & H).
  rewrite app_nil_r. exact H.
Qed.

Lemma char_absent (c : ascii) m s : c ∈ m -> c ∉ s -> ~ occurs m s.
Proof.
  intros Hm Hs (x & y & ->). apply Hs.
  apply elem_of_app. right. apply elem_of_app. left. exact Hm.
Qed.

Lemma round_half_even_nonneg num den :
  0 <= num -> 0 < den -> 0 <= round_half_even num den.
Proof.
  intros Hn Hd. unfold round_half_even.
  pose proof (Z.div_pos num den Hn Hd).
  destruct (_ <? _); [lia|]. destruct (_ <? _); [lia|].
  destruct (Z.even _); lia.
Qed.

(** No capital letter in an amount written with two decimals. *)
Lemma format_2f_no_T (x : float) : "T"%char ∉ format_2f x.
Proof.
  unfold format_2f. destruct (Prim2SF x) as [s|s| |s m e].
  - destruct s; intros H; vm_compute in H;
      repeat (apply elem_of_cons in H as [H|H]; [discriminate|]); inversion H.
  - destruct s; intros H; vm_compute in H;
      repeat (apply elem_of_cons in H as [H|H]; [discriminate|]); inversion H.
  - intros H; vm_compute in H;
      repeat (apply elem_of_cons in H as [H|H]; [discriminate|]); inversion H.
  - set (cents := if 0 <=? e then Z.pos m * 2 ^ e * 100
                  else round_half_even (Z.pos m * 100) (2 ^ (- e))).
    assert (0 <= cents) as Hc.
    { unfold cents. destruct (0 <=? e) eqn:E.
      - apply Z.leb_le in E. pose proof (Z.pow_nonneg 2 e). nia.
      - apply Z.leb_gt in E. apply round_half_even_nonneg; [lia|].
        apply Z.pow_pos_nonneg; lia. }
    intros H.
    apply elem_of_app in H as [H|H].
    { destruct s; [|inversion H].
      vm_compute in H. apply elem_of_cons in H as [H|H]; [discriminate|].
      inversion H. }
    apply elem_of_app in H as [H|H].
    { revert H. apply digits_no_char; [reflexivity|].
      apply str_nonneg_digits. apply Z.div_pos; lia. }
    apply elem_of_app in H as [H|H].
    { vm_compute in H. apply elem_of_cons in H as [H|H]; [discriminate|].
      inversion H. }
    unfold pad2 in H.
    pose proof (Z.mod_pos_bound cents 100 ltac:(lia)) as Hm.
    assert (0 <= cents mod 100 / 10 < 10) as Hq
      by (split; [apply Z.div_pos; lia|apply Z.div_lt_upper_bound; lia]).
    pose proof (Z.mod_pos_bound (cents mod 100) 10 ltac:(lia)) as Hr.
    revert H. apply digits_no_char; [reflexivity|]. cbn.
    rewrite !isdigit_digit_char by lia. reflexivity.
Qed.

(** *** The fallback text holds no cost marker *)

Lemma cost_marker_facts m :
  m = $"Total cost:" \/ m = $"Total Cost:" ->
  ("010"%char ∉ m) /\ ("T"%char ∈ m) /\ (0 < length m)%nat.
Proof.
  intros [-> | ->]; (split; [|split; [left|unfold lit; cbn; lia]]);
    intros H; vm_compute in H;
    repeat (apply elem_of_cons in H as [H|H]; [discriminate|]); inversion H.
Qed.

Lemma cost_marker_not_in_days m (js : list Z) (rest : str) :
  m = $"Total cost:" \/ m = $"Total Cost:" ->
  (forall j, j ∈ js -> 0 <= j) ->
  ~ occurs m rest ->
  ~ occurs m (concat (map fallback_day js) ++ rest).
Proof.
  intros Hm. destruct (cost_marker_facts m Hm) as (Hnl & HT & _).
  induction js as [|j js IH]; intros Hjs Hrest; [exact Hrest|].
  cbn [map concat]. rewrite <- app_assoc.
  set (tail := concat (map fallback_day js) ++ rest).
  assert (~ occurs m tail) as Htail.
  { apply IH; [|exact Hrest]. intros j' Hj'. apply Hjs. right. exact Hj'. }
  replace (fallback_day j ++ tail)
    with (header j
          ++ "010"%char
             :: ($"- Morning: Breakfast at hotel, explore local area"
                 ++ "010"%char
                    :: ($"- Afternoon: Visit main tourist attractions"
                        ++ "010"%char
                           :: ($"- Evening: Dinner at local restaurant"
                               ++ "010"%char :: ([] ++ "010"%char :: tail)))))
    by (unfold fallback_day, header, NL; rewrite <- !app_assoc; reflexivity).
  intros Hocc.
  apply (occurs_confined _ _ _ _ Hnl) in Hocc as [Hocc|Hocc].
  { revert Hocc. apply (char_absent "T"%char); [exact HT|].
    unfold header. intros H. apply elem_of_app in H as [H|H].
    - vm_compute in H.
      repeat (apply elem_of_cons in H as [H|H]; [discriminate|]). inversion H.
    - revert H. apply str_int_no_char; [apply Hjs; left|reflexivity]. }
  repeat (apply (occurs_confined _ _ _ _ Hnl) in Hocc as [Hocc|Hocc];
          [revert Hocc; apply index_of_None;
           destruct Hm as [-> | ->]; vm_compute; reflexivity|]).
  exact (Htail Hocc).
Qed.

Lemma cost_marker_not_in_tail m (x : float) :
  m = $"Total cost:" \/ m = $"Total Cost:" ->
  ~ occurs m (fallback_tail (format_2f x)).
Proof.
  intros Hm. destruct (cost_marker_facts m Hm) as (Hnl & HT & Hlen).
  replace (fallback_tail (format_2f x))
    with ($"## Estimated Budget"
          ++ "010"%char
             :: (($"Total estimated cost: SGD " ++ format_2f x)
                 ++ "010"%char :: []))
    by (unfold fallback_tail, NL; rewrite <- !app_assoc; reflexivity).
  intros Hocc.
  apply (occurs_confined _ _ _ _ Hnl) in Hocc as [Hocc|Hocc].
  { revert Hocc. apply index_of_None.
    destruct Hm as [-> | ->]; vm_compute; reflexivity. }
  apply (occurs_confined _ _ _ _ Hnl) in Hocc as [Hocc|Hocc].
  - revert Hocc.
    replace ($"Total estimated cost: SGD " ++ format_2f x)
      with (text_of [Lit $"Total estimated cost: SGD "; Any (format_2f x)])
      by (unfold text_of; cbn; rewrite app_nil_r; reflexivity).
    assert (~ occurs m (format_2f x)) as Hclean
      by (apply (char_absent "T"%char); [exact HT|apply format_2f_no_T]).
    generalize dependent (format_2f x). intros amount Hclean.
    eapply scan_absent; [exact Hlen| |repeat constructor; exact Hclean].
    destruct Hm as [-> | ->]; vm_compute; reflexivity.
  - apply occurs_length in Hocc. cbn in Hocc. lia.
Qed.

Lemma cost_marker_not_in_head req m :
  m = $"Total cost:" \/ m = $"Total Cost:" ->
  ~ occurs m (TravelRequest.origin req) ->
  ~ occurs m (TravelRequest.destination req) ->
  ~ occurs m (fallback_head req).
Proof.
  intros Hm Ho Hd. destruct (cost_marker_facts m Hm) as (Hnl & HT & Hlen).
  rewrite head_text.
  assert (~ occurs m (str_int (TravelRequest.duration req))) as Hn.
  { apply (char_absent "T"%char); [exact HT|].
    apply str_int_no_char; [unfold TravelRequest.duration; lia|reflexivity]. }
  generalize dependent (str_int (TravelRequest.duration req)). intros days Hn.
  generalize dependent (TravelRequest.origin req). intros origin Ho.
  generalize dependent (TravelRequest.destination req). intros destination Hd.
  eapply scan_absent; [exact Hlen| |unfold head_segments;
                                    repeat constructor; assumption].
  destruct Hm as [-> | ->]; vm_compute; reflexivity.
Qed.

Lemma fallback_without_cost_marker req m :
  m = $"Total cost:" \/ m = $"Total Cost:" ->
  ~ occurs m (TravelRequest.origin req) ->
  ~ occurs m (TravelRequest.destination req) ->
  ~ occurs m (_generate_fallback_itinerary req).
Proof.
  intros Hm Ho Hd. destruct (cost_marker_facts m Hm) as (Hnl & _ & _).
  rewrite fallback_text_eq.
  assert (exists head', fallback_head req = head' ++ ["010"%char])
    as [head' Hhead].
  { unfold fallback_head, NL. rewrite !app_assoc. eexists. reflexivity. }
  pose proof (cost_marker_not_in_head req m Hm Ho Hd) as Hno.
  rewrite Hhead in Hno |- *. rewrite <- app_assoc. cbn [app]. intros Hocc.
  apply (occurs_confined _ _ _ _ Hnl) in Hocc as [Hocc|Hocc].
  - apply Hno, occurs_app_l. exact Hocc.
  - revert Hocc. unfold fallback_days.
    apply (cost_marker_not_in_days m _ _ Hm).
    + intros j Hj. apply range_bounds in Hj. lia.
    + apply cost_marker_not_in_tail. exact Hm.
Qed.

(** *** Parsing the fallback text *)

Lemma fallback_first_blank_line req :
  ("010"%char ∉ TravelRequest.destination req) ->
  exists rest,
    first_occurrence (NL ++ NL) (_generate_fallback_itinerary req)
      ($"# Trip to " ++ TravelRequest.destination req) rest.
Proof.
  intros Hnl.
  assert (exists rest,
            _generate_fallback_itinerary req
            = ($"# Trip to " ++ TravelRequest.destination req)
              ++ (NL ++ NL) ++ rest) as [rest Hrest].
  { rewrite fallback_text_eq. unfold fallback_head. eexists.
    rewrite <- !app_assoc. reflexivity. }
  exists rest. rewrite Hrest. apply first_occurrence_intro.
  change (removelast (NL ++ NL)) with ["010"%char].
  apply double_absent. intros Hin. apply elem_of_app in Hin as [Hin|Hin].
  - vm_compute in Hin.
    repeat (apply elem_of_cons in Hin as [Hin|Hin]; [discriminate|]).
    inversion Hin.
  - exact (Hnl Hin).
Qed.

(** What parsing the fallback text of a request gives. *)
Lemma parse_fallback request_id req flights hotels pois :
  exists it,
    _parse_itinerary request_id req (_generate_fallback_itinerary req)
      flights hotels pois = inr it
    /\ (("010"%char ∉ TravelRequest.destination req) ->
        Itinerary.summary it = $"# Trip to " ++ TravelRequest.destination req)
    /\ (~ occurs $"### Day " (TravelRequest.origin req) ->
        ~ occurs $"### Day " (TravelRequest.destination req) ->
        days_of (Itinerary.daily_plan it)
        = range 1 (TravelRequest.duration req + 1)
        /\ forall x, x ∈ Itinerary.daily_plan it -> placeholder_day x)
    /\ (~ occurs $"Total cost:" (TravelRequest.origin req) ->
        ~ occurs $"Total Cost:" (TravelRequest.origin req) ->
        ~ occurs $"Total cost:" (TravelRequest.destination req) ->
        ~ occurs $"Total Cost:" (TravelRequest.destination req) ->
        Itinerary.total_cost it = ninety_percent (TravelRequest.budget req)).
Proof.
  destruct (parse_itinerary_spec request_id req
              (_generate_fallback_itinerary req) flights hotels pois)
    as (it & Hit & Hdays & Hspec & Hcost & Hs & _).
  exists it. split; [exact Hit|]. split; [|split].
  - intros Hnl. destruct (fallback_first_blank_line req Hnl) as [rest Hf].
    unfold parse_summary in Hs.
    assert (contains (NL ++ NL) (_generate_fallback_itinerary req) = true)
      as Hc.
    { apply contains_occurs. destruct Hf as [Heq _]. eexists _, _. exact Heq. }
    rewrite Hc, (split1_first _ _ _ _ Hf) in Hs. cbn in Hs.
    injection Hs as <-. reflexivity.
  - intros Ho Hd.
    assert (days_of (Itinerary.daily_plan it)
            = range 1 (TravelRequest.duration req + 1)) as Hall.
    { rewrite Hdays. apply filter_all, Forall_forall. intros k Hk.
      apply range_bounds in Hk.
      destruct (fallback_day_content req k ltac:(lia) Ho Hd) as [rest Hc].
      unfold has_content. rewrite Hc. discriminate. }
    split; [exact Hall|]. intros x Hx.
    assert (1 <= ItineraryDayActivity.day x <= TravelRequest.duration req)
      as Hk.
    { assert (ItineraryDayActivity.day x ∈ days_of (Itinerary.daily_plan it))
        as Hin by (apply list_elem_of_fmap; eauto).
      rewrite Hall in Hin. apply range_bounds in Hin. lia. }
    destruct (Hspec x Hx) as (_ & _ & _ & Hmo & Haf & Hev & _).
    destruct (fallback_day_content req _ Hk Ho Hd) as [rest Hc].
    rewrite Hc in Hmo, Haf, Hev.
    destruct (body_activities rest) as (Bmo & Baf & Bev).
    rewrite Bmo in Hmo. rewrite Baf in Haf. rewrite Bev in Hev.
    injection Hmo as Hmo. injection Haf as Haf. injection Hev as Hev.
    unfold placeholder_day. auto.
  - intros Hol Hou Hdl Hdu.
    rewrite parse_total_cost_no_marker in Hcost.
    + injection Hcost as <-. reflexivity.
    + apply fallback_without_cost_marker;
        [left; reflexivity|exact Hol|exact Hdl].
    + apply fallback_without_cost_marker;
        [right; reflexivity|exact Hou|exact Hdu].
Qed.

(** X12. For a destination without a line feed, the summary of the
    itinerary parsed from the fallback text is the title line
    [# Trip to <destination>]. *)
Theorem fallback_summary request_id req flights hotels pois :
  ("010"%char ∉ TravelRequest.destination req) ->
  exists it,
    _parse_itinerary request_id req (_generate_fallback_itinerary req)
      flights hotels pois = inr it
    /\ Itinerary.summary it = $"# Trip to " ++ TravelRequest.destination req.
Proof.
  intros Hnl.
  destruct (parse_fallback request_id req flights hotels pois)
    as (it & Hit & Hs & _).
  exists it. split; [exact Hit|exact (Hs Hnl)].
Qed.

(** X13. Whatever the duration and the budget, when neither the origin nor
    the destination holds [### Day ], parsing the fallback text yields a
    plan with one entry for every day from 1 to the duration, in order,
    each with the placeholder morning, afternoon and evening. *)
Theorem fallback_plan_complete request_id req flights hotels pois :
  ~ occurs $"### Day " (TravelRequest.origin req) ->
  ~ occurs $"### Day " (TravelRequest.destination req) ->
  exists it,
    _parse_itinerary request_id req (_generate_fallback_itinerary req)
      flights hotels pois = inr it
    /\ days_of (Itinerary.daily_plan it)
       = range 1 (TravelRequest.duration req + 1)
    /\ forall x,
         x ∈ Itinerary.daily_plan it ->
         ItineraryDayActivity.morning x
         = Some $"Breakfast at hotel, explore local area"
         /\ ItineraryDayActivity.afternoon x
            = Some $"Visit main tourist attractions"
         /\ ItineraryDayActivity.evening x
            = Some $"Dinner at local restaurant".
Proof.
  intros Ho Hd.
  destruct (parse_fallback request_id req flights hotels pois)
    as (it & Hit & _ & Hplan & _).
  destruct (Hplan Ho Hd) as [Hdays Hentries].
  exists it. split; [exact Hit|]. split; [exact Hdays|exact Hentries].
Qed.

(** X14. Whatever the duration and the budget, when neither the origin nor
    the destination holds [Total cost:] or [Total Cost:], parsing the
    fallback text yields a total cost of [budget * 0.9]: the amount the
    text writes after [Total estimated cost:] is never read back. *)
Theorem fallback_total_cost request_id req flights hotels pois :
  ~ occurs $"Total cost:" (TravelRequest.origin req) ->
  ~ occurs $"Total Cost:" (TravelRequest.origin req) ->
  ~ occurs $"Total cost:" (TravelRequest.destination req) ->
  ~ occurs $"Total Cost:" (TravelRequest.destination req) ->
  exists it,
    _parse_itinerary request_id req (_generate_fallback_itinerary req)
      flights hotels pois = inr it
    /\ Itinerary.total_cost it = ninety_percent (TravelRequest.budget req).
Proof.
  intros Hol Hou Hdl Hdu.
  destruct (parse_fallback request_id req flights hotels pois)
    as (it & Hit & _ & _ & Hcost).
  exists it. split; [exact Hit|exact (Hcost Hol Hou Hdl Hdu)].
Qed.

End FallbackPlan.

(** ** The pipeline and the handlers of the itineraries *)

Section PipelineExtras.

Import Text LLM ParseSpec FallbackSpec.

Variable get_flight_offers :
  str -> str -> date -> date -> exc (list FlightOption.t).
Variable search_hotels_by_city : str -> exc (list pyval).
Variable float_of_str : str -> exc float.
Variable HotelOption_new :
  pyval -> float -> float -> pyval -> pyval -> str -> exc HotelOption.t.
Variable get_points_of_interest :
  str -> list str -> exc (list PointOfInterest.t).
Variable chat_completions_create :
  TravelRequest.t -> context -> exc (list (option str)).
Variable uuid4 : str.

Let text_step := _generate_itinerary_text chat_completions_create.
Let convert_one := hotel_option float_of_str HotelOption_new.
Let convert := hotel_options float_of_str HotelOption_new.
Let generate :=
  generate_itinerary get_flight_offers search_hotels_by_city float_of_str
    HotelOption_new get_points_of_interest chat_completions_create uuid4.

(** What the searches of a request give: flights and raw hotel records,
    none of the two lists empty, the hotel candidates the records convert
    to, and points of interest. *)
Let found (req : TravelRequest.t) (flights : list FlightOption.t)
    (hotels_data : list pyval) (hotels : list HotelOption.t)
    (pois : list PointOfInterest.t) : Prop :=
  get_flight_offers (TravelRequest.origin req) (TravelRequest.destination req)
    (TravelRequest.depart_date req) (TravelRequest.return_date req)
  = inr flights
  /\ flights <> []
  /\ search_hotels_by_city (TravelRequest.destination req) = inr hotels_data
  /\ hotels_data <> []
  /\ convert (TravelRequest.destination req) hotels_data [] = inr hotels
  /\ get_points_of_interest (TravelRequest.destination req)
       (TravelRequest.preferences req) = inr pois.

(** The text the pipeline parses: the trimmed reply of the model, or the
    fallback text. *)
Lemma generate_text_cases req ctx log :
  exists text,
    text_step req ctx log = (inr text, log ++ [ModelCall])
    /\ ((exists content rest,
           chat_completions_create req ctx = inr (Some content :: rest)
           /\ text = strip content)
        \/ ((forall content rest,
               chat_completions_create req ctx <> inr (Some content :: rest))
            /\ text = _generate_fallback_itinerary req)).
Proof.
  unfold text_step, _generate_itinerary_text, try_except, bindM, emit, lift,
    retM, raiseM. cbn.
  destruct (chat_completions_create req ctx) as [e|[|[content|] rest]]; cbn;
    eexists; (split; [reflexivity|]);
    try (right; split; [intros; discriminate|reflexivity]).
  left. eauto.
Qed.

(** The loop over the raw records converts them one by one, in order, and
    stops at the first that does not convert. *)
Lemma hotel_options_spec destination (hotels_data : list pyval) :
  forall hotels,
  match convert destination hotels_data hotels with
  | inr result =>
      exists converted,
        result = hotels ++ converted
        /\ Forall2 (fun record h => convert_one destination record = inr h)
             hotels_data converted
  | inl e =>
      exists before record after,
        hotels_data = before ++ record :: after
        /\ Forall (fun r => exists h, convert_one destination r = inr h) before
        /\ convert_one destination record = inl e
  end.
Proof.
  induction hotels_data as [|record rest IH]; intros hotels.
  - cbn. exists []. rewrite app_nil_r. split; [reflexivity|constructor].
  - unfold convert. cbn [hotel_options]. fold convert. fold convert_one.
    destruct (convert_one destination record) as [e|h] eqn:E; cbn [bind].
    + exists [], record, rest. split; [reflexivity|].
      split; [constructor|exact E].
    + specialize (IH (hotels ++ [h])).
      destruct (convert destination rest (hotels ++ [h])) as [e|result].
      * destruct IH as (before & r & after & -> & Hb & Hr).
        exists (record :: before), r, after. split; [reflexivity|].
        split; [constructor; eauto|exact Hr].
      * destruct IH as (converted & -> & Hall).
        exists (h :: converted). rewrite <- app_assoc. split; [reflexivity|].
        constructor; assumption.
Qed.

(** With everything found, the pipeline returns what the parser makes of
    the text of the text step. *)
Lemma generate_itinerary_returns req log flights hotels_data hotels pois :
  found req flights hotels_data hotels pois ->
  let origin := TravelRequest.origin req in
  let destination := TravelRequest.destination req in
  let searches :=
    [FlightSearch origin destination; HotelSearch destination;
     PoiSearch destination] in
  exists text it,
    text_step req (_prepare_context req flights hotels pois)
      (log ++ searches)
    = (inr text, log ++ searches ++ [ModelCall])
    /\ _parse_itinerary uuid4 req text flights hotels pois = inr it
    /\ generate req log = (inr it, log ++ searches ++ [ModelCall]).
Proof.
  intros (Hf & Hfne & Hh & Hhne & Hc & Hp) origin destination searches.
  unfold generate. rewrite generate_itinerary_cases. cbn zeta.
  rewrite Hf.
  destruct (decide (flights = [])); [contradiction|]. rewrite Hh.
  destruct (decide (hotels_data = [])); [contradiction|].
  unfold convert in Hc. rewrite Hc, Hp. fold origin destination searches.
  unfold create_itinerary, bindM.
  destruct (generate_text_cases req (_prepare_context req flights hotels pois)
              (log ++ searches)) as (text & Ht & _).
  rewrite <- app_assoc in Ht.
  unfold text_step in Ht |- *. rewrite Ht.
  destruct (parse_itinerary_spec uuid4 req text flights hotels pois)
    as (it & Hit & _).
  unfold lift, retM. rewrite Hit. exists text, it.
  split; [reflexivity|]. split; [exact Hit|reflexivity].
Qed.

Lemma parse_itinerary_fields request_id req text flights hotels pois it :
  _parse_itinerary request_id req text flights hotels pois = inr it ->
  Itinerary.request_id it = request_id
  /\ Itinerary.travel_request it = req
  /\ Itinerary.selected_flight it = head flights
  /\ Itinerary.selected_hotel it = head hotels
  /\ Itinerary.alternative_hotels it = []
  /\ Itinerary.points_of_interest it = pois
  /\ Itinerary.raw_itinerary it = None
  /\ Itinerary.map_url it = None.
Proof.
  unfold _parse_itinerary.
  destruct (parse_days _ _ _ _ _ _) as [?|plan]; [discriminate|].
  destruct (parse_total_cost _ _) as [?|cost]; [discriminate|].
  destruct (parse_summary _) as [?|summary]; [discriminate|].
  intros [= <-]. cbn. repeat split.
Qed.

(** X15. When the searches return flights, raw hotel records (none of
    the two lists empty) and points of interest, and every raw record
    converts to a hotel candidate, the pipeline returns an itinerary after
    one flight search, one hotel search, one search for points of
    interest and one model call, in this order.  The hotel candidates are
    the conversions of the records, one for each, in order.  The itinerary
    is parsed from the trimmed reply of the model when the first choice
    has a content, and from the fallback text otherwise; it carries the
    drawn identifier and the request, selects the first flight and the
    first hotel candidate, lists no alternative hotel, and holds the
    points of interest as found. *)
Theorem generate_itinerary_success (req : TravelRequest.t) (log : list event)
    flights hotels_data hotels pois :
  let origin := TravelRequest.origin req in
  let destination := TravelRequest.destination req in
  let ctx := _prepare_context req flights hotels pois in
  get_flight_offers origin destination (TravelRequest.depart_date req)
    (TravelRequest.return_date req) = inr flights ->
  flights <> [] ->
  search_hotels_by_city destination = inr hotels_data ->
  hotels_data <> [] ->
  convert destination hotels_data [] = inr hotels ->
  get_points_of_interest destination (TravelRequest.preferences req)
  = inr pois ->
  exists text it,
    generate req log
    = (inr it,
       log ++ [FlightSearch origin destination; HotelSearch destination;
               PoiSearch destination; ModelCall])
    /\ Forall2 (fun record h => convert_one destination record = inr h)
         hotels_data hotels
    /\ _parse_itinerary uuid4 req text flights hotels pois = inr it
    /\ (forall content rest,
          chat_completions_create req ctx = inr (Some content :: rest) ->
          text = strip content)
    /\ ((forall content rest,
           chat_completions_create req ctx <> inr (Some content :: rest)) ->
        text = _generate_fallback_itinerary req)
    /\ Itinerary.request_id it = uuid4
    /\ Itinerary.travel_request it = req
    /\ Itinerary.selected_flight it = head flights
    /\ Itinerary.selected_hotel it = head hotels
    /\ Itinerary.alternative_hotels it = []
    /\ Itinerary.points_of_interest it = pois.
Proof.
  intros origin destination ctx Hf Hfne Hh Hhne Hc Hp.
  destruct (generate_itinerary_returns req log flights hotels_data hotels pois)
    as (text & it & Ht & Hit & Hrun).
  { repeat split; assumption. }
  fold origin destination ctx in Ht, Hrun.
  exists text, it. split; [exact Hrun|]. split.
  { pose proof (hotel_options_spec destination hotels_data []) as Hspec.
    rewrite Hc in Hspec. destruct Hspec as (converted & -> & Hall).
    exact Hall. }
  split; [exact Hit|].
  destruct (generate_text_cases req ctx
              (log ++ [FlightSearch origin destination;
                       HotelSearch destination; PoiSearch destination]))
    as (text' & Ht' & Hcases).
  rewrite <- app_assoc in Ht'.
  rewrite Ht in Ht'. injection Ht' as <-.
  split; [|split].
  + intros content rest Hcontent.
    destruct Hcases as [(c & r & Hc' & ->)|[Hno _]].
    * rewrite Hcontent in Hc'. injection Hc' as <- <-. reflexivity.
    * destruct (Hno _ _ Hcontent).
  + intros Hno. destruct Hcases as [(c & r & Hc' & _)|[_ ->]];
      [destruct (Hno _ _ Hc')|reflexivity].
  + destruct (parse_itinerary_fields _ _ _ _ _ _ _ Hit)
      as (H1 & H2 & H3 & H4 & H5 & H6 & _).
    repeat (split; [assumption|]). assumption.
Qed.

(** X16. When the searches give flights, hotel records that convert and
    points of interest, when the model fails (the call raises, or the
    response has no choice or no content) and the names of the request
    are plain, the client still gets a complete itinerary: one entry for
    every day of the trip with the placeholder activities, a total cost
    of 90% of the budget and the title line as summary. *)
Theorem degraded_itinerary (req : TravelRequest.t) (log : list event)
    flights hotels_data hotels pois :
  let origin := TravelRequest.origin req in
  let destination := TravelRequest.destination req in
  get_flight_offers origin destination (TravelRequest.depart_date req)
    (TravelRequest.return_date req) = inr flights ->
  flights <> [] ->
  search_hotels_by_city destination = inr hotels_data ->
  hotels_data <> [] ->
  convert destination hotels_data [] = inr hotels ->
  get_points_of_interest destination (TravelRequest.preferences req)
  = inr pois ->
  (forall ctx content rest,
     chat_completions_create req ctx <> inr (Some content :: rest)) ->
  plain origin -> plain destination ->
  exists it,
    generate req log
    = (inr it,
       log ++ [FlightSearch origin destination; HotelSearch destination;
               PoiSearch destination; ModelCall])
    /\ days_of (Itinerary.daily_plan it)
       = range 1 (TravelRequest.duration req + 1)
    /\ (forall x, x ∈ Itinerary.daily_plan it -> placeholder_day x)
    /\ Itinerary.total_cost it = ninety_percent (TravelRequest.budget req)
    /\ Itinerary.summary it = $"# Trip to " ++ destination.
Proof.
  intros origin destination Hf Hfne Hh Hhne Hc Hp Hfail
    (Hoday & Holow & Houp & _) (Hdday & Hdlow & Hdup & Hdnl).
  destruct (generate_itinerary_returns req log flights hotels_data hotels pois)
    as (text & it & Ht & Hit & Hrun).
  { repeat split; assumption. }
  fold origin destination in Ht, Hrun.
  destruct (generate_text_cases req (_prepare_context req flights hotels pois)
              (log ++ [FlightSearch origin destination;
                       HotelSearch destination; PoiSearch destination]))
    as (text' & Ht' & Hcases).
  rewrite <- app_assoc in Ht'.
  rewrite Ht in Ht'. injection Ht' as <-.
  destruct Hcases as [(c & r & Hcontent & _)|[_ ->]];
    [destruct (Hfail _ _ _ Hcontent)|].
  destruct (parse_fallback uuid4 req flights hotels pois)
    as (it' & Hit' & Hs & Hplan & Hcost).
  rewrite Hit in Hit'. injection Hit' as <-.
  destruct (Hplan Hoday Hdday) as [Hdays Hentries].
  exists it. split; [exact Hrun|]. split; [exact Hdays|].
  split; [exact Hentries|].
  split; [exact (Hcost Holow Houp Hdlow Hdup)|exact (Hs Hdnl)].
Qed.

End PipelineExtras.

(** ** The handlers of the itineraries *)

Section HandlerProperties.

Import LLM ParseSpec Router.

Variable get_flight_offers :
  str -> str -> date -> date -> exc (list FlightOption.t).
Variable search_hotels_by_city : str -> exc (list pyval).
Variable float_of_str : str -> exc float.
Variable HotelOption_new :
  pyval -> float -> float -> pyval -> pyval -> str -> exc HotelOption.t.
Variable get_points_of_interest :
  str -> list str -> exc (list PointOfInterest.t).
Variable chat_completions_create :
  TravelRequest.t -> context -> exc (list (option str)).
Variable uuid4 : str.
Variable exn_str : exn -> str.

Let generate :=
  generate_itinerary get_flight_offers search_hotels_by_city float_of_str
    HotelOption_new get_points_of_interest chat_completions_create uuid4.
Let convert := hotel_options float_of_str HotelOption_new.
Let handler :=
  Router.create_itinerary get_flight_offers search_hotels_by_city float_of_str
    HotelOption_new get_points_of_interest chat_completions_create uuid4
    exn_str.

(** The request the handler hands to the pipeline. *)
Let request_of (travel_req : TravelRequestCreate.t) : TravelRequest.t :=
  {| TravelRequest.origin := TravelRequestCreate.origin travel_req;
     TravelRequest.destination := TravelRequestCreate.destination travel_req;
     TravelRequest.depart_date := TravelRequestCreate.depart_date travel_req;
     TravelRequest.return_date := TravelRequestCreate.return_date travel_req;
     TravelRequest.budget := TravelRequestCreate.budget travel_req;
     TravelRequest.preferences := TravelRequestCreate.preferences travel_req |}.

Implicit Types (user : UserInDB.t) (kept : itineraries).

Lemma append_itinerary_spec email it kept :
  exists kept',
    append_itinerary email it kept = inr kept'
    /\ kept' !! email = Some (default [] (kept !! email) ++ [it])
    /\ forall email', email' <> email -> kept' !! email' = kept !! email'.
Proof.
  unfold append_itinerary, itineraries in *. cbn zeta.
  destruct (kept !! email) as [l|] eqn:E.
  - rewrite E. eexists. split; [reflexivity|].
    split; [apply lookup_insert_eq|].
    intros email' Hne. apply lookup_insert_ne. congruence.
  - rewrite lookup_insert_eq. eexists. split; [reflexivity|].
    split; [apply lookup_insert_eq|].
    intros email' Hne. rewrite !lookup_insert_ne by congruence. reflexivity.
Qed.

(** The handler fails exactly when the pipeline fails, with the 500 that
    wraps the exception of the pipeline; otherwise it stores and returns
    the itinerary of the pipeline. *)
Lemma create_itinerary_cases travel_req user kept log :
  match generate (request_of travel_req) log with
  | (inl e, log') =>
      handler travel_req user kept log
      = (inl (HTTPException 500 ($"Failed to create itinerary: " ++ exn_str e)),
         kept, log')
  | (inr it, log') =>
      exists kept',
        handler travel_req user kept log = (inr it, kept', log')
        /\ kept' !! UserInDB.email user
           = Some (default [] (kept !! UserInDB.email user) ++ [it])
        /\ forall email, email <> UserInDB.email user ->
             kept' !! email = kept !! email
  end.
Proof.
  unfold handler, Router.create_itinerary, internal_error. cbn zeta.
  fold (request_of travel_req). fold generate.
  destruct (generate (request_of travel_req) log) as [[e|it] log'];
    [reflexivity|].
  destruct (append_itinerary_spec (UserInDB.email user) it kept)
    as (kept' & -> & Hk & Hframe).
  exists kept'. auto.
Qed.

(** X17. The route that creates an itinerary answers 500, never 404: when
    the flight search returns no flight, or the hotel search no hotel, the
    404 of the pipeline is caught by the handler and raised again as a 500
    whose detail is the prefix [Failed to create itinerary: ] and the text
    of the 404.  Every failure of the handler is in this way the failure
    of the pipeline, wrapped into a 500; it keeps the stored itineraries
    as they were and follows no model call. *)
Theorem create_itinerary_answers_500 (travel_req : TravelRequestCreate.t)
    user kept (log : list event) :
  let origin := TravelRequestCreate.origin travel_req in
  let destination := TravelRequestCreate.destination travel_req in
  let found :=
    get_flight_offers origin destination
      (TravelRequestCreate.depart_date travel_req)
      (TravelRequestCreate.return_date travel_req) in
  (found = inr [] ->
   handler travel_req user kept log
   = (inl (HTTPException 500
             ($"Failed to create itinerary: "
              ++ exn_str
                   (HTTPException 404
                      ($"No flights found from " ++ origin ++ $" to "
                       ++ destination)))),
      kept, log ++ [FlightSearch origin destination]))
  /\ (forall flights,
        found = inr flights -> flights <> [] ->
        search_hotels_by_city destination = inr [] ->
        handler travel_req user kept log
        = (inl (HTTPException 500
                  ($"Failed to create itinerary: "
                   ++ exn_str
                        (HTTPException 404
                           ($"No hotels found in " ++ destination)))),
           kept,
           log ++ [FlightSearch origin destination; HotelSearch destination]))
  /\ (forall e kept' log',
        handler travel_req user kept log = (inl e, kept', log') ->
        (exists e0,
           generate (request_of travel_req) log = (inl e0, log')
           /\ e = HTTPException 500
                    ($"Failed to create itinerary: " ++ exn_str e0))
        /\ kept' = kept
        /\ exists events, log' = log ++ events /\ ModelCall ∉ events).
Proof.
  intros origin destination found.
  pose proof (create_itinerary_cases travel_req user kept log) as Hcases.
  pose proof (generate_itinerary_cases get_flight_offers
                search_hotels_by_city float_of_str HotelOption_new
                get_points_of_interest chat_completions_create uuid4
                (request_of travel_req) log) as Hgen.
  cbn zeta in Hgen.
  cbn [request_of TravelRequest.origin TravelRequest.destination
       TravelRequest.depart_date TravelRequest.return_date] in Hgen.
  fold origin destination found generate in Hgen.
  split; [|split].
  - intros Hf.
    assert (generate (request_of travel_req) log
            = (inl (HTTPException 404
                      ($"No flights found from " ++ origin ++ $" to "
                       ++ destination)),
               log ++ [FlightSearch origin destination])) as Hg
      by (rewrite Hgen, Hf; reflexivity).
    rewrite Hg in Hcases. exact Hcases.
  - intros flights Hf Hne Hh.
    assert (generate (request_of travel_req) log
            = (inl (HTTPException 404 ($"No hotels found in " ++ destination)),
               log ++ [FlightSearch origin destination;
                       HotelSearch destination])) as Hg.
    { rewrite Hgen, Hf. destruct (decide (flights = [])); [contradiction|].
      rewrite Hh. reflexivity. }
    rewrite Hg in Hcases. exact Hcases.
  - intros e kept' log' Hrun. clear Hgen.
    destruct (generate (request_of travel_req) log) as [[e0|it] log0] eqn:Hg.
    + rewrite Hrun in Hcases. injection Hcases as -> -> ->.
      split; [eauto|]. split; [reflexivity|].
      exact (generate_fails_early get_flight_offers search_hotels_by_city
               float_of_str HotelOption_new get_points_of_interest
               chat_completions_create uuid4 _ _ _ _ Hg).
    + destruct Hcases as (kept1 & Hrun' & _). rewrite Hrun in Hrun'.
      discriminate.
Qed.

(** X18. When the searches give flights, hotel records that convert and
    points of interest, the route returns the itinerary of the pipeline
    and appends it to the list kept under the e-mail address of the user;
    the lists of the other addresses are untouched, and a listing by any
    user with the same address returns the earlier itineraries followed
    by the new one. *)
Theorem create_itinerary_keeps (travel_req : TravelRequestCreate.t)
    user kept (log : list event) flights hotels_data hotels pois :
  let origin := TravelRequestCreate.origin travel_req in
  let destination := TravelRequestCreate.destination travel_req in
  get_flight_offers origin destination
    (TravelRequestCreate.depart_date travel_req)
    (TravelRequestCreate.return_date travel_req) = inr flights ->
  flights <> [] ->
  search_hotels_by_city destination = inr hotels_data ->
  hotels_data <> [] ->
  convert destination hotels_data [] = inr hotels ->
  get_points_of_interest destination
    (TravelRequestCreate.preferences travel_req) = inr pois ->
  exists it kept',
    handler travel_req user kept log
    = (inr it, kept',
       log ++ [FlightSearch origin destination; HotelSearch destination;
               PoiSearch destination; ModelCall])
    /\ kept' !! UserInDB.email user
       = Some (default [] (kept !! UserInDB.email user) ++ [it])
    /\ (forall email, email <> UserInDB.email user ->
          kept' !! email = kept !! email)
    /\ (forall user' log',
          UserInDB.email user' = UserInDB.email user ->
          Router.get_itineraries exn_str user' kept' log'
          = (inr (default [] (kept !! UserInDB.email user) ++ [it]),
             kept', log')).
Proof.
  intros origin destination Hf Hfne Hh Hhne Hc Hp.
  pose proof (create_itinerary_cases travel_req user kept log) as Hcases.
  destruct (generate_itinerary_returns get_flight_offers search_hotels_by_city
              float_of_str HotelOption_new get_points_of_interest
              chat_completions_create uuid4 (request_of travel_req) log
              flights hotels_data hotels pois)
    as (text & it & _ & _ & Hrun).
  { repeat split; assumption. }
  cbn [request_of TravelRequest.origin TravelRequest.destination] in Hrun.
  fold origin destination generate in Hrun.
  rewrite Hrun in Hcases. destruct Hcases as (kept' & Hhandler & Hk & Hframe).
  exists it, kept'. split; [exact Hhandler|]. split; [exact Hk|].
  split; [exact Hframe|].
  intros user' log' He. unfold Router.get_itineraries, internal_error.
  rewrite He, Hk. reflexivity.
Qed.

(** X19. Saving an itinerary without a destination answers 500: the 400
    the handler raises is caught by its own handler of exceptions, and
    nothing is stored.  Saving one with a destination returns it and
    appends it to the list of the user's address, leaving the other lists
    untouched; the branch for a zero duration is never taken. *)
Theorem save_itinerary_spec (itinerary : Itinerary.t) user kept
    (log : list event) :
  let destination :=
    TravelRequest.destination (Itinerary.travel_request itinerary) in
  (destination = [] ->
   Router.save_itinerary exn_str itinerary user kept log
   = (inl (HTTPException 500
             ($"Failed to save itinerary: "
              ++ exn_str
                   (HTTPException 400
                      $"Invalid itinerary data: missing destination"))),
      kept, log))
  /\ (destination <> [] ->
      exists kept',
        Router.save_itinerary exn_str itinerary user kept log
        = (inr itinerary, kept', log)
        /\ kept' !! UserInDB.email user
           = Some (default [] (kept !! UserInDB.email user) ++ [itinerary])
        /\ (forall email, email <> UserInDB.email user ->
              kept' !! email = kept !! email)).
Proof.
  intros destination. unfold Router.save_itinerary, internal_error.
  fold destination. destruct (decide (destination = [])) as [Hd|Hd].
  - split; [intros _; reflexivity|contradiction].
  - split; [contradiction|]. intros _.
    assert ((TravelRequest.duration (Itinerary.travel_request itinerary) =? 0)
            = false) as ->.
    { apply Z.eqb_neq. unfold TravelRequest.duration. lia. }
    destruct (append_itinerary_spec (UserInDB.email user) itinerary kept)
      as (kept1 & -> & Hk & Hframe).
    exists kept1. auto.
Qed.

End HandlerProperties.

(** ** The search handlers *)

Section SortedText.

Import PyKeys.

Lemma str_le_refl (a : str) : str_le a a = true.
Proof.
  induction a as [|x a IH]; cbn; [reflexivity|].
  rewrite N.ltb_irrefl, N.eqb_refl. exact IH.
Qed.

Lemma code_inj (x y : ascii) : code x = code y -> x = y.
Proof.
  unfold code. intros H.
  rewrite <- (ascii_N_embedding x), <- (ascii_N_embedding y), H. reflexivity.
Qed.

Lemma str_le_total (a b : str) : str_le a b = true \/ str_le b a = true.
Proof.
  revert b. induction a as [|x a IH]; intros [|y b]; cbn; auto.
  destruct (N.ltb_spec (code x) (code y)) as [H|H]; [auto|].
  destruct (N.ltb_spec (code y) (code x)) as [H'|H']; [auto|].
  assert (code x = code y) as -> by lia.
  rewrite N.eqb_refl. apply IH.
Qed.

Lemma str_le_antisym (a b : str) :
  str_le a b = true -> str_le b a = true -> a = b.
Proof.
  revert b. induction a as [|x a IH]; intros [|y b]; cbn;
    try discriminate; [reflexivity|].
  destruct (N.ltb_spec (code x) (code y)) as [H|H].
  - intros _. destruct (N.ltb_spec (code y) (code x)) as [H'|H']; [lia|].
    destruct (N.eqb_spec (code y) (code x)); [lia|discriminate].
  - destruct (N.eqb_spec (code x) (code y)) as [E|E]; [|discriminate].
    rewrite E, N.ltb_irrefl, N.eqb_refl. intros H1 H2.
    apply code_inj in E as ->. f_equal. apply IH; assumption.
Qed.

Lemma str_le_trans (a b c : str) :
  str_le a b = true -> str_le b c = true -> str_le a c = true.
Proof.
  revert b c. induction a as [|x a IH]; intros [|y b] [|z c]; cbn;
    try discriminate; try reflexivity.
  destruct (N.ltb_spec (code x) (code y)) as [H|H].
  - intros _. destruct (N.ltb_spec (code y) (code z)) as [H'|H'].
    + intros _. destruct (N.ltb_spec (code x) (code z)); [reflexivity|lia].
    + destruct (N.eqb_spec (code y) (code z)) as [E|E]; [|discriminate].
      intros _. destruct (N.ltb_spec (code x) (code z)); [reflexivity|lia].
  - destruct (N.eqb_spec (code x) (code y)) as [E|E]; [|discriminate].
    rewrite E. intros H1.
    destruct (N.ltb_spec (code y) (code z)) as [H'|H']; [reflexivity|].
    destruct (N.eqb_spec (code y) (code z)) as [E'|E']; [|discriminate].
    apply IH. exact H1.
Qed.

#[local] Instance str_le_Total : Total (fun a b => Is_true (str_le a b)).
Proof.
  intros a b. destruct (str_le_total a b) as [H|H]; rewrite H; cbn; auto.
Qed.

#[local] Instance str_le_Transitive :
  Transitive (fun a b => Is_true (str_le a b)).
Proof.
  intros a b c H1 H2. apply Is_true_true in H1, H2. apply Is_true_true.
  exact (str_le_trans _ _ _ H1 H2).
Qed.

#[local] Instance str_le_AntiSymm :
  AntiSymm eq (fun a b => Is_true (str_le a b)).
Proof.
  intros a b H1 H2. apply Is_true_true in H1, H2.
  exact (str_le_antisym _ _ H1 H2).
Qed.

(** [sorted] depends on the elements of the list and on how often each
    comes, not on their order. *)
Lemma sorted_Permutation (l l' : list str) : l ≡ₚ l' -> sorted l = sorted l'.
Proof.
  intros H. unfold sorted.
  apply (Sorted_unique (fun a b => Is_true (str_le a b))).
  - apply Sorted_merge_sort. apply _.
  - apply Sorted_merge_sort. apply _.
  - rewrite !merge_sort_Permutation. exact H.
Qed.

End SortedText.

Section SearchProperties.

Import LLM Router PyKeys CacheSpec.

Context {PyObj : Type}.
Variable has_dict_or_is_collection : PyObj -> bool.
Variables json_dumps_default json_dumps : PyObj -> exc str.
Variable json_dumps_str : PyObj -> str.
Variable json_loads : str -> exc PyObj.
Variable of_str : str -> PyObj.
Variable bool_of : PyObj -> bool.
Variable get_flight_offers :
  str -> str -> date -> date -> exc (list FlightOption.t).
Variable of_flights : list FlightOption.t -> PyObj.
Variable get_hotel_offers : str -> date -> date -> exc (list HotelOption.t).
Variable of_hotels : list HotelOption.t -> PyObj.
Variable get_points_of_interest :
  str -> list str -> exc (list PointOfInterest.t).
Variable of_pois : list PointOfInterest.t -> PyObj.
Variable validate_flights : PyObj -> exc (list FlightOption.t).
Variable validate_hotels : PyObj -> exc (list HotelOption.t).
Variable validate_pois : PyObj -> exc (list PointOfInterest.t).
Variable exn_str : exn -> str.

Let serialize :=
  Cache._serialize PyObj has_dict_or_is_collection json_dumps_default
    json_dumps json_dumps_str.
Let deserialize := Cache._deserialize PyObj json_loads of_str.
Let flights_handler :=
  search_flights PyObj has_dict_or_is_collection json_dumps_default json_dumps
    json_dumps_str json_loads of_str bool_of get_flight_offers of_flights
    validate_flights exn_str.
Let hotels_handler :=
  search_hotels PyObj has_dict_or_is_collection json_dumps_default json_dumps
    json_dumps_str json_loads of_str bool_of get_hotel_offers of_hotels
    validate_hotels exn_str.
Let pois_handler :=
  search_points_of_interest PyObj has_dict_or_is_collection json_dumps_default
    json_dumps json_dumps_str json_loads of_str bool_of get_points_of_interest
    of_pois validate_pois exn_str.

Implicit Types (cache : gmap str Cache.entry) (log : list call)
  (origin destination city : str) (depart back : date) (e : Cache.entry).

(** An entry that is live and truthy. *)
Let servable (now : float) e : Prop :=
  (Cache.expires_at e <=? now)%float = false
  /\ bool_of (deserialize (Cache.value e)) = true.

(** No entry under the key that is live and truthy. *)
Let nothing_servable (now : float) cache (key : str) : Prop :=
  forall e, cache !! key = Some e ->
            (Cache.expires_at e <=? now)%float = false ->
            bool_of (deserialize (Cache.value e)) = false.

Lemma get_servable cache key now e :
  cache !! key = Some e -> servable now e ->
  Cache.get PyObj json_loads of_str cache key now
  = inr (Some (deserialize (Cache.value e)), cache).
Proof.
  intros Hk [Hlt _]. exact (get_live json_loads of_str _ _ _ _ Hk Hlt).
Qed.

Lemma get_nothing_servable cache key now :
  nothing_servable now cache key ->
  exists r cache0,
    Cache.get PyObj json_loads of_str cache key now = inr (r, cache0)
    /\ (forall k, k <> key -> cache0 !! k = cache !! k)
    /\ (cache0 = cache \/ cache0 = delete key cache)
    /\ match r with
       | Some v => bool_of v = false
       | None => True
       end.
Proof.
  intros Hmiss. unfold Cache.get.
  destruct (cache !! key) as [e|] eqn:Hk.
  - destruct (Cache.expires_at e <=? now)%float eqn:E.
    + unfold Cache.del_item. rewrite Hk. cbn [bind ret].
      exists None, (delete key cache). split; [reflexivity|].
      split; [intros k Hne; apply lookup_delete_ne; congruence|].
      split; [right; reflexivity|exact I].
    + eexists _, cache. split; [reflexivity|].
      split; [reflexivity|]. split; [left; reflexivity|].
      exact (Hmiss e Hk E).
  - exists None, cache. split; [reflexivity|]. split; [reflexivity|].
    split; [left; reflexivity|exact I].
Qed.

Lemma flights_hit origin destination depart back (now_get now_set : float)
    cache log e :
  cache !! flights_key origin destination depart back = Some e ->
  servable now_get e ->
  flights_handler origin destination depart back now_get now_set cache log
  = (validate_flights (deserialize (Cache.value e)), cache, log).
Proof.
  intros Hk Hs. unfold flights_handler, search_flights. cbn zeta.
  rewrite (get_servable _ _ _ _ Hk Hs). rewrite (proj2 Hs). reflexivity.
Qed.

Lemma hotels_hit city depart back (now_get now_set : float) cache log e :
  cache !! hotels_key city depart back = Some e ->
  servable now_get e ->
  hotels_handler city depart back now_get now_set cache log
  = (validate_hotels (deserialize (Cache.value e)), cache, log).
Proof.
  intros Hk Hs. unfold hotels_handler, search_hotels. cbn zeta.
  rewrite (get_servable _ _ _ _ Hk Hs). rewrite (proj2 Hs). reflexivity.
Qed.

Lemma pois_hit city (preferences : list str) (now_get now_set : float)
    cache log e :
  cache !! pois_key city preferences = Some e ->
  servable now_get e ->
  pois_handler city preferences now_get now_set cache log
  = (validate_pois (deserialize (Cache.value e)), cache, log).
Proof.
  intros Hk Hs. unfold pois_handler, search_points_of_interest. cbn zeta.
  rewrite (get_servable _ _ _ _ Hk Hs). rewrite (proj2 Hs). reflexivity.
Qed.

Lemma flights_miss origin destination depart back (now_get now_set : float)
    cache log :
  let key := flights_key origin destination depart back in
  nothing_servable now_get cache key ->
  exists cache0,
    (forall k, k <> key -> cache0 !! k = cache !! k)
    /\ (cache0 = cache \/ cache0 = delete key cache)
    /\ flights_handler origin destination depart back now_get now_set cache log
       = match get_flight_offers origin destination depart back with
         | inr flights =>
             (inr flights,
              <[key := Cache.Entry (serialize (of_flights flights))
                         (now_set + 3600)%float]> cache0,
              log ++ [GetFlightOffers origin destination depart back])
         | inl e =>
             (inl (HTTPException 500
                     ($"Error searching flights: " ++ exn_str e)),
              cache0, log ++ [GetFlightOffers origin destination depart back])
         end.
Proof.
  intros key Hmiss.
  destruct (get_nothing_servable _ _ _ Hmiss)
    as (r & cache0 & Hget & Hframe & Hsame & Hr).
  exists cache0. split; [exact Hframe|]. split; [exact Hsame|].
  unfold flights_handler, search_flights. cbn zeta. fold key. rewrite Hget.
  unfold Cache.set. rewrite float_of_int_hour. cbn [bind].
  destruct r as [v|]; [rewrite Hr|];
    destruct (get_flight_offers origin destination depart back); reflexivity.
Qed.

Lemma hotels_miss city depart back (now_get now_set : float) cache log :
  let key := hotels_key city depart back in
  nothing_servable now_get cache key ->
  exists cache0,
    (forall k, k <> key -> cache0 !! k = cache !! k)
    /\ (cache0 = cache \/ cache0 = delete key cache)
    /\ hotels_handler city depart back now_get now_set cache log
       = match get_hotel_offers city depart back with
         | inr hotels =>
             (inr hotels,
              <[key := Cache.Entry (serialize (of_hotels hotels))
                         (now_set + 3600)%float]> cache0,
              log ++ [GetHotelOffers city depart back])
         | inl e =>
             (inl (HTTPException 500
                     ($"Error searching hotels: " ++ exn_str e)),
              cache0, log ++ [GetHotelOffers city depart back])
         end.
Proof.
  intros key Hmiss.
  destruct (get_nothing_servable _ _ _ Hmiss)
    as (r & cache0 & Hget & Hframe & Hsame & Hr).
  exists cache0. split; [exact Hframe|]. split; [exact Hsame|].
  unfold hotels_handler, search_hotels. cbn zeta. fold key. rewrite Hget.
  unfold Cache.set. rewrite float_of_int_hour. cbn [bind].
  destruct r as [v|]; [rewrite Hr|];
    destruct (get_hotel_offers city depart back); reflexivity.
Qed.

Lemma pois_miss city (preferences : list str) (now_get now_set : float)
    cache log :
  let key := pois_key city preferences in
  nothing_servable now_get cache key ->
  exists cache0,
    (forall k, k <> key -> cache0 !! k = cache !! k)
    /\ (cache0 = cache \/ cache0 = delete key cache)
    /\ pois_handler city preferences now_get now_set cache log
       = match get_points_of_interest city preferences with
         | inr pois =>
             (inr pois,
              <[key := Cache.Entry (serialize (of_pois pois))
                         (now_set + 86400)%float]> cache0,
              log ++ [GetPointsOfInterest city preferences])
         | inl e =>
             (inl (HTTPException 500
                     ($"Error searching points of interest: " ++ exn_str e)),
              cache0, log ++ [GetPointsOfInterest city preferences])
         end.
Proof.
  intros key Hmiss.
  destruct (get_nothing_servable _ _ _ Hmiss)
    as (r & cache0 & Hget & Hframe & Hsame & Hr).
  exists cache0. split; [exact Hframe|]. split; [exact Hsame|].
  unfold pois_handler, search_points_of_interest. cbn zeta. fold key.
  rewrite Hget.
  unfold Cache.set. rewrite float_of_int_day. cbn [bind].
  destruct r as [v|]; [rewrite Hr|];
    destruct (get_points_of_interest city preferences); reflexivity.
Qed.

(** X20. A search whose key holds an entry that has not expired and whose
    decoded value is truthy is answered from the cache: the handler
    returns the validation of the decoded value, calls no adapter and
    leaves the cache as it was.  This holds for the three searches. *)
Theorem search_served_from_cache (now_get now_set : float) cache e :
  (Cache.expires_at e <=? now_get)%float = false ->
  bool_of (deserialize (Cache.value e)) = true ->
  (forall origin destination depart back log,
     cache !! flights_key origin destination depart back = Some e ->
     flights_handler origin destination depart back now_get now_set cache log
     = (validate_flights (deserialize (Cache.value e)), cache, log))
  /\ (forall city depart back log,
        cache !! hotels_key city depart back = Some e ->
        hotels_handler city depart back now_get now_set cache log
        = (validate_hotels (deserialize (Cache.value e)), cache, log))
  /\ (forall city preferences log,
        cache !! pois_key city preferences = Some e ->
        pois_handler city preferences now_get now_set cache log
        = (validate_pois (deserialize (Cache.value e)), cache, log)).
Proof.
  intros Hlt Hb. split; [|split]; intros.
  - apply flights_hit; [assumption|split; assumption].
  - apply hotels_hit; [assumption|split; assumption].
  - apply pois_hit; [assumption|split; assumption].
Qed.

(** X21. A search whose key holds no entry, an expired entry, or an entry
    whose decoded value is falsy (an empty list) calls its adapter once.
    When the adapter returns, the handler returns its result and stores it
    under the key, to expire at the binary64 sum of the clock reading of
    the [set] and 3600 (86400 for the points of interest); when the
    adapter raises,
    the handler answers 500 with the text of the exception and stores
    nothing.  In both cases the other keys of the cache are untouched. *)
Theorem search_fresh_result_cached (now_get now_set : float) cache log :
  (forall origin destination depart back,
     let key := flights_key origin destination depart back in
     (forall e, cache !! key = Some e ->
                (Cache.expires_at e <=? now_get)%float = false ->
                bool_of (deserialize (Cache.value e)) = false) ->
     exists cache0,
       (forall k, k <> key -> cache0 !! k = cache !! k)
       /\ (cache0 = cache \/ cache0 = delete key cache)
       /\ flights_handler origin destination depart back now_get now_set
            cache log
          = match get_flight_offers origin destination depart back with
            | inr flights =>
                (inr flights,
                 <[key := Cache.Entry (serialize (of_flights flights))
                            (now_set + 3600)%float]> cache0,
                 log ++ [GetFlightOffers origin destination depart back])
            | inl e =>
                (inl (HTTPException 500
                        ($"Error searching flights: " ++ exn_str e)),
                 cache0,
                 log ++ [GetFlightOffers origin destination depart back])
            end)
  /\ (forall city depart back,
        let key := hotels_key city depart back in
        (forall e, cache !! key = Some e ->
                (Cache.expires_at e <=? now_get)%float = false ->
                   bool_of (deserialize (Cache.value e)) = false) ->
        exists cache0,
          (forall k, k <> key -> cache0 !! k = cache !! k)
          /\ (cache0 = cache \/ cache0 = delete key cache)
          /\ hotels_handler city depart back now_get now_set cache log
             = match get_hotel_offers city depart back with
               | inr hotels =>
                   (inr hotels,
                    <[key := Cache.Entry (serialize (of_hotels hotels))
                               (now_set + 3600)%float]> cache0,
                    log ++ [GetHotelOffers city depart back])
               | inl e =>
                   (inl (HTTPException 500
                           ($"Error searching hotels: " ++ exn_str e)),
                    cache0, log ++ [GetHotelOffers city depart back])
               end)
  /\ (forall city preferences,
        let key := pois_key city preferences in
        (forall e, cache !! key = Some e ->
                (Cache.expires_at e <=? now_get)%float = false ->
                   bool_of (deserialize (Cache.value e)) = false) ->
        exists cache0,
          (forall k, k <> key -> cache0 !! k = cache !! k)
          /\ (cache0 = cache \/ cache0 = delete key cache)
          /\ pois_handler city preferences now_get now_set cache log
             = match get_points_of_interest city preferences with
               | inr pois =>
                   (inr pois,
                    <[key := Cache.Entry (serialize (of_pois pois))
                               (now_set + 86400)%float]> cache0,
                    log ++ [GetPointsOfInterest city preferences])
               | inl e =>
                   (inl (HTTPException 500
                           ($"Error searching points of interest: "
                            ++ exn_str e)),
                    cache0, log ++ [GetPointsOfInterest city preferences])
               end).
Proof.
  split; [|split]; intros.
  - apply flights_miss. assumption.
  - apply hotels_miss. assumption.
  - apply pois_miss. assumption.
Qed.

(** X22. The same flight search asked twice, the second time before the
    stored result expires, that is before the binary64 sum of the clock
    reading of the [set] and 3600: the first call asks the adapter and
    stores the
    flights; if the decoded stored value is truthy, the second call is
    answered from the cache without a call to the adapter; if it is falsy,
    as an empty list is, the second call asks the adapter again and
    stores the result anew. *)
Theorem search_flights_again origin destination depart back
    (now_get1 now_set1 now_get2 now_set2 : float) cache log flights :
  let key := flights_key origin destination depart back in
  let stored := deserialize (serialize (of_flights flights)) in
  let asked := GetFlightOffers origin destination depart back in
  get_flight_offers origin destination depart back = inr flights ->
  (forall e, cache !! key = Some e ->
             (Cache.expires_at e <=? now_get1)%float = false ->
             bool_of (deserialize (Cache.value e)) = false) ->
  (now_set1 + 3600 <=? now_get2)%float = false ->
  exists cache1,
    flights_handler origin destination depart back now_get1 now_set1 cache log
    = (inr flights, cache1, log ++ [asked])
    /\ (bool_of stored = true ->
        flights_handler origin destination depart back now_get2 now_set2
          cache1 (log ++ [asked])
        = (validate_flights stored, cache1, log ++ [asked]))
    /\ (bool_of stored = false ->
        flights_handler origin destination depart back now_get2 now_set2
          cache1 (log ++ [asked])
        = (inr flights,
           <[key := Cache.Entry (serialize (of_flights flights))
                      (now_set2 + 3600)%float]> cache1,
           log ++ [asked; asked])).
Proof.
  intros key stored asked Hfl Hmiss Hlt.
  destruct (flights_miss origin destination depart back now_get1 now_set1
              cache log Hmiss) as (cache0 & _ & _ & Hrun).
  fold key in Hrun. rewrite Hfl in Hrun.
  eexists. split; [exact Hrun|].
  set (e := Cache.Entry (serialize (of_flights flights))
              (now_set1 + 3600)%float).
  assert (<[key := e]> cache0 !! key = Some e) as Hk
    by apply lookup_insert_eq.
  split.
  - intros Hb.
    apply (flights_hit origin destination depart back now_get2 now_set2 _ _ e
             Hk (conj Hlt Hb)).
  - intros Hb.
    destruct (flights_miss origin destination depart back now_get2 now_set2
                (<[key := e]> cache0) (log ++ [asked]))
      as (cache2 & _ & Hsame & Hrun2).
    { fold key. intros e' He' _. rewrite Hk in He'. injection He' as <-.
      exact Hb. }
    fold key in Hrun2, Hsame. rewrite Hfl in Hrun2. rewrite Hrun2.
    rewrite <- app_assoc. cbn [app].
    destruct Hsame as [->| ->]; [reflexivity|].
    rewrite insert_delete_eq. reflexivity.
Qed.

(** X23. The key of a search for points of interest does not depend on
    the order of the preferences: two lists that are permutations of one
    another give the same key, so that a search is answered from the cache
    with what an earlier search with the same preferences in another order
    stored. *)
Theorem pois_key_order city (preferences preferences' : list str)
    (now_get now_set : float) cache log e :
  preferences ≡ₚ preferences' ->
  pois_key city preferences = pois_key city preferences'
  /\ (cache !! pois_key city preferences = Some e ->
      (Cache.expires_at e <=? now_get)%float = false ->
      bool_of (deserialize (Cache.value e)) = true ->
      pois_handler city preferences' now_get now_set cache log
      = (validate_pois (deserialize (Cache.value e)), cache, log)).
Proof.
  intros Hp.
  assert (pois_key city preferences = pois_key city preferences') as Hkey.
  { unfold pois_key. cbn zeta. rewrite (sorted_Permutation _ _ Hp).
    reflexivity. }
  split; [exact Hkey|]. intros Hk Hlt Hb.
  rewrite Hkey in Hk. apply pois_hit; [exact Hk|split; assumption].
Qed.

(** X26. A flight search whose names hold a colon shares its key with
    other searches: the search from [origin:middle] to [destination] and
    the search from [origin] to [middle:destination] on the same dates
    have one key.  So, after the first search has stored flights whose
    decoded value is truthy, the second search, asked before they expire,
    is answered with the flights of the first, without a call to the
    adapter. *)
Theorem flights_key_shared origin middle destination depart back
    (now_get1 now_set1 now_get2 now_set2 : float) cache log flights :
  let origin1 := origin ++ $":" ++ middle in
  let destination2 := middle ++ $":" ++ destination in
  let key := flights_key origin1 destination depart back in
  let stored := deserialize (serialize (of_flights flights)) in
  let asked := GetFlightOffers origin1 destination depart back in
  get_flight_offers origin1 destination depart back = inr flights ->
  (forall e, cache !! key = Some e ->
             (Cache.expires_at e <=? now_get1)%float = false ->
             bool_of (deserialize (Cache.value e)) = false) ->
  (now_set1 + 3600 <=? now_get2)%float = false ->
  bool_of stored = true ->
  flights_key origin destination2 depart back = key
  /\ exists cache1,
       flights_handler origin1 destination depart back now_get1 now_set1
         cache log
       = (inr flights, cache1, log ++ [asked])
       /\ flights_handler origin destination2 depart back now_get2 now_set2
            cache1 (log ++ [asked])
          = (validate_flights stored, cache1, log ++ [asked]).
Proof.
  intros origin1 destination2 key stored asked Hfl Hmiss Hlt Hb.
  assert (flights_key origin destination2 depart back = key) as Hkey.
  { unfold key, flights_key, origin1, destination2.
    rewrite <- !app_assoc. reflexivity. }
  split; [exact Hkey|].
  destruct (flights_miss origin1 destination depart back now_get1 now_set1
              cache log Hmiss) as (cache0 & _ & _ & Hrun).
  fold key in Hrun. rewrite Hfl in Hrun.
  eexists. split; [exact Hrun|].
  set (e := Cache.Entry (serialize (of_flights flights))
              (now_set1 + 3600)%float).
  assert (<[key := e]> cache0 !! flights_key origin destination2 depart back
          = Some e) as Hk
    by (rewrite Hkey; apply lookup_insert_eq).
  apply (flights_hit origin destination2 depart back now_get2 now_set2 _ _ e
           Hk (conj Hlt Hb)).
Qed.

End SearchProperties.
(* ===================================================================== *)
(** ** Further properties: the keys of the searches *)
(* ===================================================================== *)

Section SearchKeys.

Import LLM Router PyKeys DateSpec.

Lemma month_day_checked :
  forallb (month_day_ok false) (seqZ 0 365) = true
  /\ forallb (month_day_ok true) (seqZ 0 365) = true.
Proof. split; vm_compute; reflexivity. Qed.

Lemma month_day_spec (leapyear : bool) (n : Z) :
  0 <= n < 365 ->
  let '(m, dd) := month_day leapyear n in
  1 <= m <= 12 /\ 1 <= dd <= 31
  /\ table _DAYS_BEFORE_MONTH m
     + (if (2 <? m) && leapyear then 1 else 0) + dd = n + 1.
Proof.
  intros Hn.
  assert (month_day_ok leapyear n = true) as Hok.
  { destruct month_day_checked as [H0 H1]. rewrite forallb_forall in H0, H1.
    destruct leapyear; [apply H1|apply H0];
      apply list_elem_of_In, list_elem_of_lookup;
      exists (Z.to_nat n); apply lookup_seqZ; lia. }
  unfold month_day_ok in Hok. destruct (month_day leapyear n) as [m dd].
  repeat (apply andb_true_iff in Hok as [Hok ?]).
  repeat match goal with
         | H : (_ <=? _) = true |- _ => apply Z.leb_le in H
         | H : (_ =? _) = true |- _ => apply Z.eqb_eq in H
         end.
  lia.
Qed.

(** [_ord2ymd] with the search of the month set apart. *)
Lemma ord2ymd_month_day (n : Z) :
  _ord2ymd n
  = let n0 := n - 1 in
    let n400 := n0 / 146097 in
    let r1 := n0 mod 146097 in
    let n100 := r1 / 36524 in
    let r2 := r1 mod 36524 in
    let n4 := r2 / 1461 in
    let r3 := r2 mod 1461 in
    let n1 := r3 / 365 in
    let f := r3 mod 365 in
    let year := n400 * 400 + 1 + n100 * 100 + n4 * 4 + n1 in
    if (n1 =? 4) || (n100 =? 4) then (year - 1, 12, 31)
    else
      let '(m, dd) :=
        month_day ((n1 =? 3) && (negb (n4 =? 24) || (n100 =? 3))) f in
      (year, m, dd).
Proof.
  unfold _ord2ymd, month_day. cbn zeta.
  destruct ((_ =? 4) || (_ =? 4)); [reflexivity|].
  match goal with |- context [if ?t then _ else _] =>
    destruct t; reflexivity end.
Qed.

(** The days before a year written by its place in the cycles of 400, 100
    and 4 years, and whether it is a leap year. *)
Lemma year_split (n400 n100 n4 n1 : Z) :
  0 <= n100 <= 3 -> 0 <= n4 <= 24 -> 0 <= n1 <= 3 ->
  days_before_year (n400 * 400 + 1 + n100 * 100 + n4 * 4 + n1)
  = 146097 * n400 + 36524 * n100 + 1461 * n4 + 365 * n1
  /\ is_leap (n400 * 400 + 1 + n100 * 100 + n4 * 4 + n1)
     = (n1 =? 3) && (negb (n4 =? 24) || (n100 =? 3)).
Proof.
  intros Hb Hc He. unfold days_before_year, is_leap. split.
  - replace (n400 * 400 + 1 + n100 * 100 + n4 * 4 + n1 - 1)
      with (400 * n400 + 100 * n100 + 4 * n4 + n1) by lia.
    set (y := 400 * n400 + 100 * n100 + 4 * n4 + n1).
    assert (y / 4 = 100 * n400 + 25 * n100 + n4) as ->
      by (symmetry; apply (Z.div_unique y 4 _ n1); lia).
    assert (y / 100 = 4 * n400 + n100) as ->
      by (symmetry; apply (Z.div_unique y 100 _ (4 * n4 + n1)); lia).
    assert (y / 400 = n400) as ->
      by (symmetry;
          apply (Z.div_unique y 400 _ (100 * n100 + 4 * n4 + n1)); lia).
    lia.
  - set (y := n400 * 400 + 1 + n100 * 100 + n4 * 4 + n1).
    assert (y mod 4 = (n1 + 1) mod 4) as ->.
    { unfold y. replace (n400 * 400 + 1 + n100 * 100 + n4 * 4 + n1)
        with ((n1 + 1) + (100 * n400 + 25 * n100 + n4) * 4) by lia.
      apply Z_mod_plus_full. }
    assert (y mod 100 = (4 * n4 + n1 + 1) mod 100) as ->.
    { unfold y. replace (n400 * 400 + 1 + n100 * 100 + n4 * 4 + n1)
        with ((4 * n4 + n1 + 1) + (4 * n400 + n100) * 100) by lia.
      apply Z_mod_plus_full. }
    assert (y mod 400 = (100 * n100 + 4 * n4 + n1 + 1) mod 400) as ->.
    { unfold y. replace (n400 * 400 + 1 + n100 * 100 + n4 * 4 + n1)
        with ((100 * n100 + 4 * n4 + n1 + 1) + n400 * 400) by lia.
      apply Z_mod_plus_full. }
    clear y.
    destruct (Z.eq_dec n1 3) as [->|Ne].
    + change ((3 + 1) mod 4 =? 0) with true.
      change (3 =? 3) with true. cbn [andb].
      destruct (Z.eq_dec n4 24) as [->|Nc].
      * change ((4 * 24 + 3 + 1) mod 100 =? 0) with true.
        change (24 =? 24) with true. cbn [negb orb].
        destruct (Z.eq_dec n100 3) as [->|Nb]; [reflexivity|].
        rewrite (proj2 (Z.eqb_neq n100 3) Nb).
        apply Z.eqb_neq. rewrite Z.mod_small by lia. lia.
      * rewrite (proj2 (Z.eqb_neq n4 24) Nc). cbn [negb orb].
        assert (((4 * n4 + 3 + 1) mod 100 =? 0) = false) as ->
          by (apply Z.eqb_neq; rewrite Z.mod_small by lia; lia).
        reflexivity.
    + rewrite (proj2 (Z.eqb_neq n1 3) Ne).
      assert (((n1 + 1) mod 4 =? 0) = false) as ->
        by (apply Z.eqb_neq; rewrite Z.mod_small by lia; lia).
      reflexivity.
Qed.

(** Year, month and day of an ordinal are those of a day of the calendar,
    and the ordinal is read back from them. *)
Lemma ord2ymd_spec (n : Z) :
  1 <= n ->
  let '(y, m, dd) := _ord2ymd n in
  1 <= y /\ 1 <= m <= 12 /\ 1 <= dd <= 31 /\ ymd2ord (y, m, dd) = n.
Proof.
  intros Hn. rewrite ord2ymd_month_day. cbn zeta.
  assert (n = (n - 1) + 1) as En by lia.
  set (n0 := n - 1) in *.
  assert (0 <= n0) as Hn0 by lia.
  set (a := n0 / 146097). set (r1 := n0 mod 146097).
  set (b := r1 / 36524). set (r2 := r1 mod 36524).
  set (c := r2 / 1461). set (r3 := r2 mod 1461).
  set (e := r3 / 365). set (f := r3 mod 365).
  assert (0 <= a) as Ha by (apply Z.div_pos; lia).
  pose proof (Z.div_mod n0 146097 ltac:(lia)) as E1.
  pose proof (Z.mod_pos_bound n0 146097 ltac:(lia)) as B1.
  pose proof (Z.div_mod r1 36524 ltac:(lia)) as E2.
  pose proof (Z.mod_pos_bound r1 36524 ltac:(lia)) as B2.
  pose proof (Z.div_mod r2 1461 ltac:(lia)) as E3.
  pose proof (Z.mod_pos_bound r2 1461 ltac:(lia)) as B3.
  pose proof (Z.div_mod r3 365 ltac:(lia)) as E4.
  pose proof (Z.mod_pos_bound r3 365 ltac:(lia)) as B4.
  fold a r1 in E1. fold r1 in B1. fold b r2 in E2. fold r2 in B2.
  fold c r3 in E3. fold r3 in B3. fold e f in E4. fold f in B4.
  clearbody a r1 b r2 c r3 e f n0.
  assert (0 <= b <= 4) as Hb by lia.
  assert (0 <= c <= 24) as Hc by lia.
  assert (0 <= e <= 4) as He by lia.
  destruct ((e =? 4) || (b =? 4)) eqn:Esp.
  - assert (exists b' c', 0 <= b' <= 3 /\ 0 <= c' <= 24
              /\ (negb (c' =? 24) || (b' =? 3)) = true
              /\ a * 400 + 1 + b * 100 + c * 4 + e - 1
                 = a * 400 + 1 + b' * 100 + c' * 4 + 3
              /\ n = 146097 * a + 36524 * b' + 1461 * c' + 1461)
      as (b' & c' & Hb' & Hc' & Hl & -> & ->).
    { destruct (Z.eq_dec b 4) as [->|Nb].
      - exists 3, 24. repeat split; lia.
      - apply orb_true_iff in Esp as [Esp|Esp]; apply Z.eqb_eq in Esp;
          [subst e|lia].
        exists b, c. repeat split; lia. }
    split; [lia|]. split; [lia|]. split; [lia|].
    unfold ymd2ord, days_before_month.
    destruct (year_split a b' c' 3 Hb' Hc' ltac:(lia)) as [-> ->].
    rewrite Hl. change (3 =? 3) with true. change (2 <? 12) with true.
    change (table _DAYS_BEFORE_MONTH 12) with 334. cbn [andb]. lia.
  - apply orb_false_iff in Esp as [Ee Eb].
    apply Z.eqb_neq in Ee, Eb.
    set (leapyear := (e =? 3) && (negb (c =? 24) || (b =? 3))).
    pose proof (month_day_spec leapyear f ltac:(lia)) as Hmd.
    destruct (month_day leapyear f) as [m dd].
    destruct Hmd as (Hm & Hd & Hsum).
    split; [lia|]. split; [exact Hm|]. split; [exact Hd|].
    unfold ymd2ord, days_before_month.
    destruct (year_split a b c e ltac:(lia) Hc ltac:(lia)) as [-> ->].
    fold leapyear. lia.
Qed.

(** *** Dates as text *)

Implicit Types (s a b x y : str) (c : ascii) (d : date).

Lemma int_of_zeros (k : nat) s :
  int_of_digits (replicate k "0"%char ++ s) = int_of_digits s.
Proof.
  unfold int_of_digits. rewrite fold_left_app. f_equal.
  induction k as [|k IH]; [reflexivity|exact IH].
Qed.

Lemma zero_pad_value (w : nat) (n : Z) :
  0 <= n -> int_of_digits (zero_pad w n) = n.
Proof.
  intros Hn. unfold zero_pad. cbn zeta. rewrite int_of_zeros.
  exact (proj1 (str_int_value n Hn)).
Qed.

Lemma zero_pad_no_char c (w : nat) (n : Z) :
  0 <= n -> isdigit c = false -> c ∉ zero_pad w n.
Proof.
  intros Hn Hc Hin. unfold zero_pad in Hin. cbn zeta in Hin.
  apply elem_of_app in Hin as [Hin|Hin].
  - apply elem_of_replicate in Hin as [-> _]. discriminate.
  - exact (str_int_no_char c n Hn Hc Hin).
Qed.

(** A text is cut in one way at the first occurrence of a character. *)
Lemma cut_at_first c a b x y :
  c ∉ a -> c ∉ b -> a ++ c :: x = b ++ c :: y -> a = b /\ x = y.
Proof.
  revert b. induction a as [|h a IH]; intros [|k b] Ha Hb E.
  - injection E as ->. split; reflexivity.
  - injection E as -> _. exfalso. apply Hb. left.
  - injection E as -> _. exfalso. apply Ha. left.
  - injection E as -> E.
    destruct (IH b) as [-> ->]; [| |exact E|split; reflexivity].
    + intros H. apply Ha. right. exact H.
    + intros H. apply Hb. right. exact H.
Qed.

(** And in one way at the last one. *)
Lemma cut_at_last c a b x y :
  c ∉ x -> c ∉ y -> a ++ c :: x = b ++ c :: y -> a = b /\ x = y.
Proof.
  intros Hx Hy E. apply (f_equal (@rev ascii)) in E.
  rewrite !rev_app_distr in E. cbn [rev] in E. rewrite <- !app_assoc in E.
  cbn [app] in E.
  apply cut_at_first in E as [E1 E2].
  - split; [apply rev_inj; exact E2|apply rev_inj; exact E1].
  - intros H. apply Hx, list_elem_of_In, in_rev, list_elem_of_In, H.
  - intros H. apply Hy, list_elem_of_In, in_rev, list_elem_of_In, H.
Qed.

Lemma date_eq d d' : toordinal d = toordinal d' -> d = d'.
Proof.
  destruct d as [o H], d' as [o' H']. cbn. intros <-.
  f_equal. apply proof_irrel.
Qed.

Lemma isoformat_no_char c d :
  isdigit c = false -> c <> "-"%char -> c ∉ isoformat d.
Proof.
  intros Hc Hm. unfold isoformat.
  pose proof (ord2ymd_spec (toordinal d)
                ltac:(pose proof (date_in_range d); lia)) as H.
  destruct (_ord2ymd (toordinal d)) as [[y m] dd].
  destruct H as (Hy & Hmm & Hdd & _).
  assert (c ∉ $"-") as Hsep
    by (intros Hin; apply list_elem_of_singleton in Hin; contradiction).
  intros Hin.
  apply elem_of_app in Hin as [Hin|Hin];
    [exact (zero_pad_no_char c 4 y ltac:(lia) Hc Hin)|].
  apply elem_of_app in Hin as [Hin|Hin]; [exact (Hsep Hin)|].
  apply elem_of_app in Hin as [Hin|Hin];
    [exact (zero_pad_no_char c 2 m ltac:(lia) Hc Hin)|].
  apply elem_of_app in Hin as [Hin|Hin]; [exact (Hsep Hin)|].
  exact (zero_pad_no_char c 2 dd ltac:(lia) Hc Hin).
Qed.

(** The text of a date is the text of no other date. *)
Lemma isoformat_inj d d' : isoformat d = isoformat d' -> d = d'.
Proof.
  intros E. apply date_eq. unfold isoformat in E.
  pose proof (ord2ymd_spec (toordinal d)
                ltac:(pose proof (date_in_range d); lia)) as H.
  pose proof (ord2ymd_spec (toordinal d')
                ltac:(pose proof (date_in_range d'); lia)) as H'.
  destruct (_ord2ymd (toordinal d)) as [[y m] dd].
  destruct (_ord2ymd (toordinal d')) as [[y' m'] dd'].
  destruct H as (Hy & Hm & Hd & <-). destruct H' as (Hy' & Hm' & Hd' & <-).
  change ($"-") with ["-"%char] in E. cbn [app] in E.
  apply cut_at_first in E as [Ey E];
    [|apply zero_pad_no_char; [lia|reflexivity]..].
  apply cut_at_first in E as [Em Ed];
    [|apply zero_pad_no_char; [lia|reflexivity]..].
  apply (f_equal int_of_digits) in Ey, Em, Ed.
  rewrite !zero_pad_value in Ey, Em, Ed by lia.
  subst. reflexivity.
Qed.

(** The end of a key: what precedes the last colon, and what follows. *)
Lemma key_tail a b x :
  a ++ ":"%char :: b ++ ":"%char :: x = (a ++ ":"%char :: b) ++ ":"%char :: x.
Proof. rewrite <- app_assoc. reflexivity. Qed.

(** X24. The key of a hotel search is the key of that search alone: two
    searches with the same key have the same city and the same dates,
    whatever the name of the city holds. *)
Theorem hotels_key_injective (city city' : str)
    (checkin checkout checkin' checkout' : date) :
  hotels_key city checkin checkout = hotels_key city' checkin' checkout'
  <-> city = city' /\ checkin = checkin' /\ checkout = checkout'.
Proof.
  split; [|intros (-> & -> & ->); reflexivity].
  unfold hotels_key. intros E.
  apply app_inv_head in E.
  change ($":") with [":"%char] in E. cbn [app] in E.
  rewrite !key_tail in E.
  apply cut_at_last in E as [E Eo];
    [|apply isoformat_no_char; [reflexivity|discriminate]..].
  apply cut_at_last in E as [Ec Ei];
    [|apply isoformat_no_char; [reflexivity|discriminate]..].
  split; [exact Ec|].
  split; apply isoformat_inj; assumption.
Qed.

(** X25. The key of a flight search whose origin holds no colon is the key
    of that search alone: two such searches with the same key have the same
    origin, destination and dates. *)
Theorem flights_key_injective (origin destination origin' destination' : str)
    (depart back depart' back' : date) :
  ":"%char ∉ origin -> ":"%char ∉ origin' ->
  flights_key origin destination depart back
  = flights_key origin' destination' depart' back' ->
  origin = origin' /\ destination = destination'
  /\ depart = depart' /\ back = back'.
Proof.
  intros Ho Ho' E. unfold flights_key in E.
  apply app_inv_head in E.
  change ($":") with [":"%char] in E. cbn [app] in E.
  apply cut_at_first in E as [Eo E]; [|assumption..].
  rewrite !key_tail in E.
  apply cut_at_last in E as [E Eb];
    [|apply isoformat_no_char; [reflexivity|discriminate]..].
  apply cut_at_last in E as [Ed Ei];
    [|apply isoformat_no_char; [reflexivity|discriminate]..].
  split; [exact Eo|]. split; [exact Ed|].
  split; apply isoformat_inj; assumption.
Qed.

(** X27. The keys of the three searches are apart: no flight search has
    the key of a hotel search or of a search for points of interest, and
    no hotel search the key of a search for points of interest, so that in
    the one cache they share no search reads what another kind of search
    stored. *)
Theorem search_keys_apart (origin destination city city' : str)
    (depart back checkin checkout : date) (preferences : list str) :
  flights_key origin destination depart back
  <> hotels_key city checkin checkout
  /\ flights_key origin destination depart back <> pois_key city' preferences
  /\ hotels_key city checkin checkout <> pois_key city' preferences.
Proof.
  unfold flights_key, hotels_key, pois_key.
  repeat split; intros E; discriminate E.
Qed.

End SearchKeys.

(** ** The properties on sample data *)

Section OnSamples.

Import Text LLM ParseSpec.

(** Runs the parser on closed data and turns to what it returned. *)
Ltac run_parser :=
  lazymatch goal with
  | |- exists it, ?call = inr it /\ _ =>
      let E := fresh "E" in
      destruct call as [?|?] eqn:E; vm_compute in E; [discriminate|];
      injection E as <-; eexists; split; [reflexivity|]
  end.

Lemma float_neq (x y : float) :
  PrimFloat.eqb x x = true -> PrimFloat.eqb x y = false -> x <> y.
Proof. intros Hx Hxy ->. congruence. Qed.

(** The claim C2 fails on a text that skips a day: the plan of the
    three-day trip holds days 1 and 3 only. *)
Lemma daily_plan_gap :
  TravelRequest.duration Samples.request = 3
  /\ exists it,
       _parse_itinerary $"id" Samples.request Samples.gap_text [] [] [] = inr it
       /\ days_of (Itinerary.daily_plan it) = [1; 3]
       /\ days_of (Itinerary.daily_plan it)
          <> range 1 (TravelRequest.duration Samples.request + 1).
Proof.
  split; [reflexivity|].
  run_parser.
  split; [reflexivity|]. vm_compute. discriminate.
Qed.

(** The claim C5 fails on a destination that reads like a day header
    followed by a cost line: the fallback text of the request, of budget
    2000 and duration 3, has seven day sections, and it parses to a total
    cost of 5. *)
Lemma fallback_names_injected :
  TravelRequest.budget Samples.odd_request = 2000%float
  /\ TravelRequest.duration Samples.odd_request = 3
  /\ length (day_headers (_generate_fallback_itinerary Samples.odd_request))
     = 7%nat
  /\ exists it,
       _parse_itinerary $"id" Samples.odd_request
         (_generate_fallback_itinerary Samples.odd_request) [] [] [] = inr it
       /\ Itinerary.total_cost it = 5%float
       /\ Itinerary.total_cost it <> 1800%float.
Proof.
  split; [reflexivity|]. split; [reflexivity|].
  split; [vm_compute; reflexivity|].
  run_parser.
  split; [reflexivity|]. apply float_neq; reflexivity.
Qed.

(** The claim C3 fails on a hotel record whose address has no line: with
    a flight and a hotel record found, the pipeline raises the
    [IndexError] of [lines[0]], which is no 404; and it passes on what the
    search for points of interest raises. *)
Lemma pipeline_fails_otherwise :
  generate_itinerary (fun _ _ _ _ => inr [Samples.flight])
    (fun _ => inr [Samples.record_without_lines]) py_float
    Samples.hotel_option_new (fun _ _ => inr [])
    (fun _ _ => inr [Some $"ok"]) $"id" Samples.request []
  = (inl IndexError,
     [FlightSearch $"Singapore" $"Tokyo"; HotelSearch $"Tokyo"])
  /\ (forall detail, IndexError <> HTTPException 404 detail)
  /\ generate_itinerary (fun _ _ _ _ => inr [Samples.flight])
       (fun _ => inr [Samples.hotel_record]) py_float
       Samples.hotel_option_new (fun _ _ => inl (ClientError $"timeout"))
       (fun _ _ => inr [Some $"ok"]) $"id" Samples.request []
     = (inl (ClientError $"timeout"),
        [FlightSearch $"Singapore" $"Tokyo"; HotelSearch $"Tokyo";
         PoiSearch $"Tokyo"]).
Proof.
  split; [reflexivity|]. split; [discriminate|reflexivity].
Qed.

(** The claim C4 fails on a hotel record whose rating is null: the flight
    list and the hotel list are not empty, and the pipeline returns no
    itinerary but raises the [TypeError] of [float(None)]. *)
Lemma conversion_failure_surfaced :
  generate_itinerary (fun _ _ _ _ => inr [Samples.flight])
    (fun _ => inr [Samples.record_without_rating]) py_float
    Samples.hotel_option_new (fun _ _ => inr [])
    (fun _ _ => inr [Some $"ok"]) $"id" Samples.request []
  = (inl TypeError,
     [FlightSearch $"Singapore" $"Tokyo"; HotelSearch $"Tokyo"])
  /\ [Samples.flight] <> [] /\ [Samples.record_without_rating] <> [].
Proof.
  split; [reflexivity|]. split; discriminate.
Qed.

(** The claim C6 fails on a text with an earlier header for day 2: the
    text contains the passage, and the entry of day 2 has the morning of
    the earlier header. *)
Lemma earlier_header_wins :
  TravelRequest.duration Samples.request = 3
  /\ occurs day2_passage Samples.two_headers_text
  /\ exists it,
       _parse_itinerary $"id" Samples.request Samples.two_headers_text
         [] [] [] = inr it
       /\ map (fun x => (ItineraryDayActivity.day x,
                         ItineraryDayActivity.morning x))
            (Itinerary.daily_plan it)
          = [(2, Some $"Zoo")].
Proof.
  split; [reflexivity|]. split.
  - exists ($"### Day 2 Morning: Zoo" ++ NL), []. unfold Samples.two_headers_text.
    rewrite app_nil_r, <- app_assoc. reflexivity.
  - run_parser. reflexivity.
Qed.

(** The claim C7 fails on a text with a subtotal before the total: the
    text contains the quoted total, and the cost read is the subtotal. *)
Lemma first_marker_wins :
  occurs $"Total Cost: SGD 1,250.50" Samples.two_totals_text
  /\ exists it,
       _parse_itinerary $"id" Samples.request Samples.two_totals_text
         [] [] [] = inr it
       /\ Itinerary.total_cost it = 80%float
       /\ Itinerary.total_cost it <> 1250.5%float.
Proof.
  split.
  - exists ($"Day 1 Total cost: SGD 80" ++ NL), [].
    unfold Samples.two_totals_text. rewrite app_nil_r, <- app_assoc.
    reflexivity.
  - run_parser.
    split; [reflexivity|]. apply float_neq; reflexivity.
Qed.

End OnSamples.

(** ** The properties at work on the sample data *)

Section Witnesses.

Import Text LLM ParseSpec.

(** A write when the clock reads 2147482648 + 2^-22: the sum with 3600
    is rounded to 2147486248, so the entry is served one second before
    that reading and gone at it. *)
Lemma set_then_get_witness :
  0 < 3600
  /\ float_of_int 3600 = inr 3600%float
  /\ exists cache',
       Cache.set str (fun _ => false) inr inr id ∅ Samples.cache_key $"[]"
         3600 (2147482648 + 0x1p-22)%float = inr cache'
       /\ cache' !! Samples.cache_key
          = Some (Cache.Entry $"[]" 2147486248%float)
       /\ Cache.get str inr id cache' Samples.cache_key 2147486247%float
          = inr (Some $"[]", cache')
       /\ Cache.get str inr id cache' Samples.cache_key 2147486248%float
          = inr (None, delete Samples.cache_key cache').
Proof.
  assert (0 < 3600) as Ht by lia.
  assert (float_of_int 3600 = inr 3600%float) as Hf
    by (vm_compute; reflexivity).
  split; [exact Ht|]. split; [exact Hf|].
  destruct (@set_then_get str (fun _ => false) inr inr id inr id ∅
              Samples.cache_key $"[]" 3600 3600%float
              (2147482648 + 0x1p-22)%float Ht Hf)
    as (cache' & Hset & Hk & Hlive & Hexpired & _).
  exists cache'. split; [exact Hset|]. split; [exact Hk|]. split.
  - exact (Hlive 2147486247%float eq_refl).
  - exact (proj1 (Hexpired 2147486248%float eq_refl)).
Defined.

Lemma cleanup_expired_witness :
  exists cache',
    Cache._cleanup_expired Samples.cache_after_set 3600%float = inr cache'
    /\ cache' !! Samples.cache_key = None.
Proof.
  destruct (cleanup_expired_spec Samples.cache_after_set 3600%float)
    as (cache' & Hrun & Hexp & _).
  exists cache'. split; [exact Hrun|].
  apply (Hexp _ (Cache.Entry $"[]" (0 + 3600)%float)).
  - apply lookup_insert_eq.
  - reflexivity.
Defined.

Lemma not_found_witness :
  generate_itinerary (fun _ _ _ _ => inr [])
    (fun _ => inr [Samples.hotel_record]) py_float Samples.hotel_option_new
    (fun _ _ => inr []) (fun _ _ => inl (ClientError $"quota")) $"id"
    Samples.request []
  = (inl (HTTPException 404 $"No flights found from Singapore to Tokyo"),
     [FlightSearch $"Singapore" $"Tokyo"]).
Proof.
  exact (proj1 (not_found_before_model_call (fun _ _ _ _ => inr [])
                  (fun _ => inr [Samples.hotel_record]) py_float
                  Samples.hotel_option_new (fun _ _ => inr [])
                  (fun _ _ => inl (ClientError $"quota")) $"id"
                  Samples.request []) eq_refl).
Defined.

Lemma model_failure_witness :
  [Samples.flight] <> [] /\ [Samples.hotel_record] <> []
  /\ exists it,
       generate_itinerary (fun _ _ _ _ => inr [Samples.flight])
         (fun _ => inr [Samples.hotel_record]) py_float
         Samples.hotel_option_new (fun _ _ => inr [])
         (fun _ _ => inl (ClientError $"quota")) $"id" Samples.request []
       = (inr it,
          [FlightSearch $"Singapore" $"Tokyo"; HotelSearch $"Tokyo";
           PoiSearch $"Tokyo"; ModelCall]).
Proof.
  assert ([Samples.flight] <> []) as Hf by discriminate.
  assert ([Samples.hotel_record] <> []) as Hh by discriminate.
  split; [exact Hf|]. split; [exact Hh|].
  destruct (hotel_options py_float Samples.hotel_option_new $"Tokyo"
              [Samples.hotel_record] []) as [e|hotels] eqn:E;
    [vm_compute in E; discriminate E|].
  exact (proj1 (proj2 (proj2 (proj2
           (model_failure_absorbed (fun _ _ _ _ => inr [Samples.flight])
              (fun _ => inr [Samples.hotel_record]) py_float
              Samples.hotel_option_new (fun _ _ => inr [])
              (fun _ _ => inl (ClientError $"quota")) $"id"
              Samples.request))))
           [] [Samples.flight] [Samples.hotel_record] hotels [] eq_refl Hf
           eq_refl Hh E eq_refl).
Defined.

Lemma daily_plan_days_witness :
  exists it,
    _parse_itinerary $"id" Samples.request Samples.gap_text [] [] [] = inr it
    /\ 2 ∉ days_of (Itinerary.daily_plan it).
Proof.
  destruct (daily_plan_days $"id" Samples.request Samples.gap_text [] [] [])
    as (it & Hit & _ & _ & Hgap).
  exists it. split; [exact Hit|]. apply Hgap. intros m Hm.
  change (day_markers 2)
    with [$"### Day 2"; $"## Day 2"; $"Day 2:"; $"Day 2 -"] in Hm.
  repeat (apply elem_of_cons in Hm as [->|Hm];
          [apply index_of_None; reflexivity|]).
  inversion Hm.
Defined.

Lemma fallback_determinism_witness :
  TravelRequest.budget Samples.request = 2000%float
  /\ TravelRequest.duration Samples.request = 3
  /\ length (day_headers (_generate_fallback_itinerary Samples.request))
     = 3%nat
  /\ exists it,
       _parse_itinerary $"id" Samples.request
         (_generate_fallback_itinerary Samples.request) [] [] [] = inr it
       /\ Itinerary.total_cost it = 1800%float.
Proof.
  split; [reflexivity|]. split; [reflexivity|].
  destruct (fallback_determinism $"id" Samples.request [] [] []
              eq_refl eq_refl) as (_ & _ & Hheaders & Hcost).
  split.
  - apply Hheaders; apply index_of_None; reflexivity.
  - apply Hcost; apply index_of_None; reflexivity.
Defined.

Lemma day_header_parsing_witness :
  TravelRequest.duration Samples.request = 3
  /\ ~ occurs $"### Day 2" ($"### Day 1" ++ NL ++ $"Morning: Walk" ++ NL)
  /\ exists it,
       _parse_itinerary $"id" Samples.request
         (($"### Day 1" ++ NL ++ $"Morning: Walk" ++ NL) ++ day2_passage
          ++ NL ++ $"Morning: Zoo") [] [] [] = inr it
       /\ exists x,
            x ∈ Itinerary.daily_plan it
            /\ ItineraryDayActivity.day x = 2
            /\ ItineraryDayActivity.morning x = Some $"Museum"
            /\ ItineraryDayActivity.afternoon x = Some $"Park"
            /\ ItineraryDayActivity.evening x = None
            /\ ItineraryDayActivity.description x
               = $"Morning: Museum" ++ NL ++ $"Afternoon: Park".
Proof.
  assert (~ occurs $"### Day 2" ($"### Day 1" ++ NL ++ $"Morning: Walk" ++ NL))
    as Hpre by (apply index_of_None; reflexivity).
  split; [reflexivity|]. split; [exact Hpre|].
  exact (proj2 (proj2 (proj1 (day_header_parsing $"id" Samples.request [] [] [])
                         _ (NL ++ $"Morning: Zoo") eq_refl Hpre))).
Defined.

Lemma total_cost_extraction_witness :
  no_digit_ahead NL
  /\ exists it,
       _parse_itinerary $"id" Samples.request
         (($"Flights: SGD 500" ++ NL) ++ $"Total Cost: SGD 1,250.50" ++ NL)
         [] [] [] = inr it
       /\ Itinerary.total_cost it = 1250.5%float.
Proof.
  assert (no_digit_ahead NL) as Hpost by (intros c post' [= <- _]; reflexivity).
  split; [exact Hpost|].
  refine (proj1 (total_cost_extraction $"id" Samples.request [] [] [])
            ($"Flights: SGD 500" ++ NL) NL _ _ _ Hpost);
    apply index_of_None; reflexivity.
Defined.

Lemma plan_dates_witness :
  exists it,
    _parse_itinerary $"id" Samples.request Samples.gap_text
      [Samples.flight] [Samples.hotel] [] = inr it
    /\ forall x, x ∈ Itinerary.daily_plan it ->
         ItineraryDayActivity.accommodation x = Some $"Park Hotel".
Proof.
  destruct (plan_dates_and_accommodation $"id" Samples.request Samples.gap_text
              [Samples.flight] [Samples.hotel] []) as (it & Hit & Hplan).
  exists it. split; [exact Hit|]. intros x Hx.
  exact (proj2 (proj2 (proj2 (Hplan x Hx))) Samples.hotel [] eq_refl).
Defined.

End Witnesses.
(** ** The further properties at work on the sample data *)

Section MoreWitnesses.

Import Text LLM ParseSpec FallbackSpec AmountSpec Router CacheSpec PyKeys.

(** Decides that a character is not in a closed text. *)
Ltac not_in_text :=
  let H := fresh "H" in
  intros H; vm_compute in H;
  repeat (apply elem_of_cons in H as [H|H]; [discriminate H|]);
  inversion H.

(** Decides that a marker is not in a closed text. *)
Ltac not_in_closed := apply index_of_None; vm_compute; reflexivity.

(** Runs the conversion of the sample hotel record. *)
Ltac convert_record hotels E :=
  destruct (hotel_options py_float Samples.hotel_option_new $"Tokyo"
              [Samples.hotel_record] []) as [?|hotels] eqn:E;
  [vm_compute in E; discriminate E|].

Lemma set_last_write_wins_witness :
  float_of_int 3600 = inr 3600%float
  /\ float_of_int 60 = inr 60%float
  /\ exists c1 c2,
       Cache.set str (fun _ => false) inr inr id ∅ Samples.cache_key $"[]"
         3600 0%float = inr c1
       /\ Cache.set str (fun _ => false) inr inr id c1 Samples.cache_key
            $"[1]" 60 0%float = inr c2
       /\ Cache.get str inr id c2 Samples.cache_key 59%float
          = inr (Some $"[1]", c2)
       /\ Cache.get str inr id c2 Samples.cache_key 60%float
          = inr (None, delete Samples.cache_key ∅).
Proof.
  assert (float_of_int 3600 = inr 3600%float) as H1
    by (vm_compute; reflexivity).
  assert (float_of_int 60 = inr 60%float) as H2 by (vm_compute; reflexivity).
  split; [exact H1|]. split; [exact H2|].
  destruct (@set_last_write_wins str (fun _ => false) inr inr id inr id ∅
              Samples.cache_key $"[]" $"[1]" 3600 60 3600%float 60%float
              0%float 0%float H1 H2)
    as (c1 & c2 & Hs1 & Hs2 & _ & _ & Hlive & Hexpired).
  exists c1, c2. split; [exact Hs1|]. split; [exact Hs2|]. split.
  - exact (Hlive 59%float eq_refl).
  - exact (Hexpired 60%float eq_refl).
Defined.

Lemma set_nonpositive_expiry_witness :
  0 <= 0 /\ not_before 0%float 1%float
  /\ match Cache.set str (fun _ => false) inr inr id ∅ Samples.cache_key
             $"[]" 0 0%float with
     | inr cache' =>
         Cache.get str inr id cache' Samples.cache_key 1%float
         = inr (None, delete Samples.cache_key ∅)
     | inl e => e = OverflowError
     end.
Proof.
  assert (0 <= 0) as Ht by lia.
  assert (not_before 0%float 1%float) as Hq by reflexivity.
  split; [exact Ht|]. split; [exact Hq|].
  exact (@set_nonpositive_expiry str (fun _ => false) inr inr id inr id ∅
           Samples.cache_key $"[]" 0 0%float 1%float Ht Hq).
Defined.

Lemma sweep_unobservable_witness :
  StronglySorted not_before (map fst MoreSamples.history)
  /\ Forall (fun o => expiry_in_range (snd o)) MoreSamples.history
  /\ exists rs c1 c2,
       replay str (fun _ => false) inr inr id inr id MoreSamples.history ∅
       = inr (rs, c1)
       /\ replay str (fun _ => false) inr inr id inr id
            (List.filter (fun o => negb (is_sweep (snd o))) MoreSamples.history)
            ∅
          = inr (rs, c2).
Proof.
  assert (StronglySorted not_before (map fst MoreSamples.history)) as Hs
    by (repeat constructor).
  assert (Forall (fun o => expiry_in_range (snd o)) MoreSamples.history)
    as Hok.
  { repeat constructor. exists 3600%float. vm_compute. reflexivity. }
  split; [exact Hs|]. split; [exact Hok|].
  exact (proj2 (@sweep_unobservable str (fun _ => false) inr inr id inr id
                  MoreSamples.history ∅ Hs) Hok).
Defined.

Lemma sweep_composes_witness :
  not_before 1%float 3600%float
  /\ exists c1 c2,
       Cache._cleanup_expired Samples.cache_after_set 1%float = inr c1
       /\ Cache._cleanup_expired c1 3600%float = inr c2
       /\ Cache._cleanup_expired Samples.cache_after_set 3600%float = inr c2.
Proof.
  assert (not_before 1%float 3600%float) as Hq by reflexivity.
  split; [exact Hq|].
  destruct (sweep_composes Samples.cache_after_set 1%float 3600%float Hq)
    as (c1 & c2 & H1 & H2 & H3 & _).
  exists c1, c2. auto.
Defined.

Lemma total_cost_of_amount_witness :
  first_occurrence $"Total cost:" MoreSamples.amount_text []
    $" SGD 1,234.5 approx"
  /\ search_cost $" SGD 1,234.5 approx" = Some $"1,234.5"
  /\ exists it whole frac,
       _parse_itinerary $"id" Samples.request MoreSamples.amount_text [] [] []
       = inr it
       /\ amount_shape $"1,234.5" whole frac
       /\ Itinerary.total_cost it
          = if decide (List.filter isdigit whole ++ frac = [])
            then ninety_percent (TravelRequest.budget Samples.request)
            else decimal_to_float
                   (int_of_digits (List.filter isdigit whole ++ frac))
                   (length frac).
Proof.
  assert (first_occurrence $"Total cost:" MoreSamples.amount_text []
            $" SGD 1,234.5 approx") as Hf.
  { apply (first_occurrence_intro $"Total cost:" [] $" SGD 1,234.5 approx").
    not_in_closed. }
  assert (search_cost $" SGD 1,234.5 approx" = Some $"1,234.5") as Hg
    by (vm_compute; reflexivity).
  split; [exact Hf|]. split; [exact Hg|].
  exact (total_cost_of_amount $"id" Samples.request MoreSamples.amount_text
           [] [] [] $"Total cost:" [] $" SGD 1,234.5 approx" $"1,234.5"
           (or_introl eq_refl) Hf Hg).
Defined.

Lemma header_followed_by_digit_witness :
  1 <= 1 <= TravelRequest.duration Samples.request
  /\ first_occurrence ($"### Day " ++ str_int 1) MoreSamples.day12_text []
       ("2"%char :: NL ++ $"Morning: Hike")
  /\ exists it x rest,
       _parse_itinerary $"id" Samples.request MoreSamples.day12_text [] [] []
       = inr it
       /\ x ∈ Itinerary.daily_plan it
       /\ ItineraryDayActivity.day x = 1
       /\ ItineraryDayActivity.description x = "2"%char :: rest.
Proof.
  assert (1 <= 1 <= TravelRequest.duration Samples.request) as Hd
    by (vm_compute; split; discriminate).
  assert (first_occurrence ($"### Day " ++ str_int 1) MoreSamples.day12_text []
            ("2"%char :: NL ++ $"Morning: Hike")) as Hf.
  { apply (first_occurrence_intro ($"### Day " ++ str_int 1) []
             ("2"%char :: NL ++ $"Morning: Hike")).
    not_in_closed. }
  split; [exact Hd|]. split; [exact Hf|].
  exact (header_followed_by_digit $"id" Samples.request MoreSamples.day12_text
           [] [] [] 1 "2"%char [] (NL ++ $"Morning: Hike") Hd eq_refl Hf).
Defined.

Lemma fallback_summary_witness :
  exists it,
    _parse_itinerary $"id" Samples.request
      (_generate_fallback_itinerary Samples.request) [] [] [] = inr it
    /\ Itinerary.summary it = $"# Trip to Tokyo".
Proof.
  apply (fallback_summary $"id" Samples.request [] [] []). not_in_text.
Defined.

Lemma fallback_plan_complete_witness :
  exists it,
    _parse_itinerary $"id" Samples.request
      (_generate_fallback_itinerary Samples.request) [] [] [] = inr it
    /\ days_of (Itinerary.daily_plan it) = [1; 2; 3].
Proof.
  destruct (fallback_plan_complete $"id" Samples.request [] [] [])
    as (it & Hit & Hdays & _); [not_in_closed|not_in_closed|].
  exists it. split; [exact Hit|exact Hdays].
Defined.

Lemma fallback_total_cost_witness :
  exists it,
    _parse_itinerary $"id" Samples.day_trip
      (_generate_fallback_itinerary Samples.day_trip) [] [] [] = inr it
    /\ Itinerary.total_cost it
       = ninety_percent (TravelRequest.budget Samples.day_trip).
Proof.
  apply (fallback_total_cost $"id" Samples.day_trip [] [] []); not_in_closed.
Defined.

Lemma generate_itinerary_success_witness :
  exists it,
    generate_itinerary (fun _ _ _ _ => inr [Samples.flight])
      (fun _ => inr [Samples.hotel_record]) py_float Samples.hotel_option_new
      (fun _ _ => inr []) (fun _ _ => inr [Some MoreSamples.reply]) $"id"
      Samples.request []
    = (inr it,
       [FlightSearch $"Singapore" $"Tokyo"; HotelSearch $"Tokyo";
        PoiSearch $"Tokyo"; ModelCall])
    /\ Itinerary.selected_flight it = Some Samples.flight
    /\ Itinerary.alternative_hotels it = [].
Proof.
  convert_record hotels E.
  destruct (generate_itinerary_success (fun _ _ _ _ => inr [Samples.flight])
              (fun _ => inr [Samples.hotel_record]) py_float
              Samples.hotel_option_new (fun _ _ => inr [])
              (fun _ _ => inr [Some MoreSamples.reply]) $"id"
              Samples.request [] [Samples.flight] [Samples.hotel_record]
              hotels [] eq_refl ltac:(discriminate) eq_refl
              ltac:(discriminate) E eq_refl)
    as (text & it & Hrun & _ & _ & _ & _ & _ & _ & Hfl & _ & Halt & _).
  exists it. split; [exact Hrun|]. split; [exact Hfl|exact Halt].
Defined.

Lemma degraded_itinerary_witness :
  exists it,
    generate_itinerary (fun _ _ _ _ => inr [Samples.flight])
      (fun _ => inr [Samples.hotel_record]) py_float Samples.hotel_option_new
      (fun _ _ => inr []) (fun _ _ => inl (ClientError $"quota")) $"id"
      Samples.request []
    = (inr it,
       [FlightSearch $"Singapore" $"Tokyo"; HotelSearch $"Tokyo";
        PoiSearch $"Tokyo"; ModelCall])
    /\ days_of (Itinerary.daily_plan it) = [1; 2; 3]
    /\ Itinerary.summary it = $"# Trip to Tokyo".
Proof.
  convert_record hotels E.
  destruct (degraded_itinerary (fun _ _ _ _ => inr [Samples.flight])
              (fun _ => inr [Samples.hotel_record]) py_float
              Samples.hotel_option_new (fun _ _ => inr [])
              (fun _ _ => inl (ClientError $"quota")) $"id"
              Samples.request [] [Samples.flight] [Samples.hotel_record]
              hotels [] eq_refl ltac:(discriminate) eq_refl
              ltac:(discriminate) E eq_refl)
    as (it & Hrun & Hdays & _ & _ & Hsum).
  - intros ctx content rest. discriminate.
  - repeat split; try not_in_closed. not_in_text.
  - repeat split; try not_in_closed. not_in_text.
  - exists it. split; [exact Hrun|]. split; [exact Hdays|exact Hsum].
Defined.

Lemma create_itinerary_keeps_witness :
  exists it kept',
    Router.create_itinerary (fun _ _ _ _ => inr [Samples.flight])
      (fun _ => inr [Samples.hotel_record]) py_float Samples.hotel_option_new
      (fun _ _ => inr []) (fun _ _ => inl (ClientError $"quota")) $"id"
      (fun _ => $"error") MoreSamples.travel_req MoreSamples.user ∅ []
    = (inr it, kept',
       [FlightSearch $"Singapore" $"Tokyo"; HotelSearch $"Tokyo";
        PoiSearch $"Tokyo"; ModelCall])
    /\ kept' !! Some $"ana@example.com" = Some [it].
Proof.
  convert_record hotels E.
  destruct (create_itinerary_keeps (fun _ _ _ _ => inr [Samples.flight])
              (fun _ => inr [Samples.hotel_record]) py_float
              Samples.hotel_option_new (fun _ _ => inr [])
              (fun _ _ => inl (ClientError $"quota")) $"id"
              (fun _ => $"error") MoreSamples.travel_req MoreSamples.user ∅ []
              [Samples.flight] [Samples.hotel_record] hotels []
              eq_refl ltac:(discriminate) eq_refl ltac:(discriminate) E
              eq_refl)
    as (it & kept' & Hrun & Hk & _).
  exists it, kept'. split; [exact Hrun|exact Hk].
Defined.

Lemma search_served_from_cache_witness :
  let key := flights_key $"Singapore" $"Tokyo" Samples.depart Samples.back in
  let e := Cache.Entry $"[flight]" 3600%float in
  (Cache.expires_at e <=? 0)%float = false
  /\ MoreSamples.truthy (Cache.value e) = true
  /\ search_flights str (fun _ => false) inr inr id inr id MoreSamples.truthy
       (fun _ _ _ _ => inr []) MoreSamples.flights_text
       (fun _ => inr [Samples.flight]) (fun _ => $"error")
       $"Singapore" $"Tokyo" Samples.depart Samples.back 0%float 0%float
       (<[key := e]> ∅) []
     = (inr [Samples.flight], <[key := e]> ∅, []).
Proof.
  intros key e.
  assert ((Cache.expires_at e <=? 0)%float = false) as Hlt by reflexivity.
  assert (MoreSamples.truthy (Cache.value e) = true) as Hb
    by (vm_compute; reflexivity).
  split; [exact Hlt|]. split; [exact Hb|].
  destruct (@search_served_from_cache str (fun _ => false) inr inr id inr id
              MoreSamples.truthy (fun _ _ _ _ => inr [])
              MoreSamples.flights_text (fun _ _ _ => inr []) (fun _ => $"[]")
              (fun _ _ => inr []) (fun _ => $"[]")
              (fun _ => inr [Samples.flight]) (fun _ => inr [])
              (fun _ => inr []) (fun _ => $"error") 0%float 0%float
              (<[key := e]> ∅) e Hlt Hb) as [Hflights _].
  apply Hflights. apply lookup_insert_eq.
Defined.

Lemma search_flights_again_witness :
  let key := flights_key $"Singapore" $"Tokyo" Samples.depart Samples.back in
  let asked :=
    GetFlightOffers $"Singapore" $"Tokyo" Samples.depart Samples.back in
  (0 + 3600 <=? 1)%float = false
  /\ exists cache1,
       search_flights str (fun _ => false) inr inr id inr id MoreSamples.truthy
         (fun _ _ _ _ => inr [Samples.flight]) MoreSamples.flights_text
         (fun _ => inr [Samples.flight]) (fun _ => $"error")
         $"Singapore" $"Tokyo" Samples.depart Samples.back 0%float 0%float
         ∅ []
       = (inr [Samples.flight], cache1, [asked])
       /\ search_flights str (fun _ => false) inr inr id inr id
            MoreSamples.truthy (fun _ _ _ _ => inr [Samples.flight])
            MoreSamples.flights_text (fun _ => inr [Samples.flight])
            (fun _ => $"error")
            $"Singapore" $"Tokyo" Samples.depart Samples.back 1%float 1%float
            cache1 [asked]
          = (inr [Samples.flight], cache1, [asked]).
Proof.
  intros key asked.
  assert ((0 + 3600 <=? 1)%float = false) as Hlt by reflexivity.
  split; [exact Hlt|].
  destruct (@search_flights_again str (fun _ => false) inr inr id inr id
              MoreSamples.truthy (fun _ _ _ _ => inr [Samples.flight])
              MoreSamples.flights_text (fun _ => inr [Samples.flight])
              (fun _ => $"error") $"Singapore" $"Tokyo" Samples.depart
              Samples.back 0%float 0%float 1%float 1%float ∅ []
              [Samples.flight] eq_refl)
    as (cache1 & Hfirst & Hsecond & _).
  - intros e He. rewrite lookup_empty in He. discriminate He.
  - exact Hlt.
  - exists cache1. split; [exact Hfirst|].
    apply Hsecond. vm_compute. reflexivity.
Defined.

Lemma pois_key_order_witness :
  [$"Food"; $"Culture"] ≡ₚ [$"Culture"; $"Food"]
  /\ pois_key $"Tokyo" [$"Food"; $"Culture"]
     = pois_key $"Tokyo" [$"Culture"; $"Food"].
Proof.
  assert ([$"Food"; $"Culture"] ≡ₚ [$"Culture"; $"Food"]) as Hp
    by apply perm_swap.
  split; [exact Hp|].
  exact (proj1 (@pois_key_order str (fun _ => false) inr inr id inr id
                  MoreSamples.truthy (fun _ _ => inr []) (fun _ => $"[]")
                  (fun _ => inr []) (fun _ => $"error") $"Tokyo"
                  [$"Food"; $"Culture"] [$"Culture"; $"Food"] 0%float 0%float
                  ∅ [] (Cache.Entry $"[]" 0%float) Hp)).
Defined.

Lemma create_itinerary_answers_500_witness :
  Router.create_itinerary (fun _ _ _ _ => inr [])
    (fun _ => inr [Samples.hotel_record]) py_float Samples.hotel_option_new
    (fun _ _ => inr []) (fun _ _ => inl (ClientError $"quota")) $"id"
    MoreSamples.exn_text MoreSamples.travel_req MoreSamples.user ∅ []
  = (inl (HTTPException 500
            ($"Failed to create itinerary: "
             ++ $"404: No flights found from Singapore to Tokyo")),
     ∅, [FlightSearch $"Singapore" $"Tokyo"]).
Proof.
  exact (proj1 (create_itinerary_answers_500 (fun _ _ _ _ => inr [])
                  (fun _ => inr [Samples.hotel_record]) py_float
                  Samples.hotel_option_new (fun _ _ => inr [])
                  (fun _ _ => inl (ClientError $"quota")) $"id"
                  MoreSamples.exn_text MoreSamples.travel_req MoreSamples.user
                  ∅ []) eq_refl).
Defined.

Lemma save_itinerary_spec_witness :
  Router.save_itinerary MoreSamples.exn_text MoreSamples.nowhere
    MoreSamples.user ∅ []
  = (inl (HTTPException 500
            ($"Failed to save itinerary: "
             ++ $"400: Invalid itinerary data: missing destination")),
     ∅, []).
Proof.
  exact (proj1 (save_itinerary_spec MoreSamples.exn_text MoreSamples.nowhere
                  MoreSamples.user ∅ []) eq_refl).
Defined.

Lemma flights_key_injective_witness :
(":"%char ∉ $"Singapore")
  /\ $"Singapore" = $"Singapore" /\ $"New:York" = $"New:York"
  /\ Samples.depart = Samples.depart /\ Samples.back = Samples.back.
Proof.
  assert (":"%char ∉ $"Singapore") as Ho by not_in_text.
  split; [exact Ho|].
  exact (flights_key_injective $"Singapore" $"New:York" $"Singapore"
           $"New:York" Samples.depart Samples.back Samples.depart
           Samples.back Ho Ho eq_refl).
Defined.

Lemma flights_key_shared_witness :
  let asked :=
    GetFlightOffers $"Paris:Lyon" $"Rome" Samples.depart Samples.back in
  (0 + 3600 <=? 1)%float = false
  /\ MoreSamples.truthy (MoreSamples.flights_text [Samples.flight]) = true
  /\ exists cache1,
       search_flights str (fun _ => false) inr inr id inr id MoreSamples.truthy
         (fun _ _ _ _ => inr [Samples.flight]) MoreSamples.flights_text
         (fun _ => inr [Samples.flight]) (fun _ => $"error")
         $"Paris:Lyon" $"Rome" Samples.depart Samples.back 0%float 0%float
         ∅ []
       = (inr [Samples.flight], cache1, [asked])
       /\ search_flights str (fun _ => false) inr inr id inr id
            MoreSamples.truthy (fun _ _ _ _ => inr [Samples.flight])
            MoreSamples.flights_text (fun _ => inr [Samples.flight])
            (fun _ => $"error")
            $"Paris" $"Lyon:Rome" Samples.depart Samples.back 1%float 1%float
            cache1 [asked]
          = (inr [Samples.flight], cache1, [asked]).
Proof.
  intros asked.
  assert ((0 + 3600 <=? 1)%float = false) as Hlt by reflexivity.
  assert (MoreSamples.truthy (MoreSamples.flights_text [Samples.flight])
          = true) as Hb by (vm_compute; reflexivity).
  split; [exact Hlt|]. split; [exact Hb|].
  destruct (@flights_key_shared str (fun _ => false) inr inr id inr id
              MoreSamples.truthy (fun _ _ _ _ => inr [Samples.flight])
              MoreSamples.flights_text (fun _ => inr [Samples.flight])
              (fun _ => $"error") $"Paris" $"Lyon" $"Rome" Samples.depart
              Samples.back 0%float 0%float 1%float 1%float ∅ []
              [Samples.flight] eq_refl)
    as (_ & cache1 & Hfirst & Hsecond).
  - intros e He. rewrite lookup_empty in He. discriminate He.
  - exact Hlt.
  - exact Hb.
  - exists cache1. split; [exact Hfirst|exact Hsecond].
Defined.

End MoreWitnesses.
